(** * YAPF rail cost engine (yapf_costrail.hpp)

    A shallow embedding of [CYapfCostRailT]: the per-node cost calculation of
    the rail pathfinder, with its signal cost state machine, the platform
    length penalty, the segment walk of [PfCalcCost] and the gate of the
    global segment cache.

    Conventions of the embedding.
    - [int] values are integers of [Z].  Signed overflow is undefined in C++,
      so sums of costs are exact.  Where the source computes in unsigned
      32-bit arithmetic and stores the result in an [int] (the look-ahead
      table of the constructor) the wrap-around is written out.
    - Unsigned counters ([num_signals_passed], sizes) are [nat].
    - The map, the vehicle, the track followers and the helper tables of
      track_func.h are collaborators of this class; they are gathered in the
      record [Env] and every function takes the environment as an argument.
    - [Node &n] and [n.segment] are mutated in place by the source; the
      embedding threads the node (which carries its segment) and the
      pathfinder object through every call.
    - [assert] lines are preconditions; the entry assertions of [PfCalcCost]
      are collected in [PfCalcCost_pre], the others are quoted in comments. *)

From Stdlib Require Import ZArith List Bool Lia.
Import ListNotations.
Local Open Scope Z_scope.
Local Open Scope bool_scope.
Local Set Warnings "-register-all".

(** ** Basic types *)

Definition TileIndex := Z.
Definition Trackdir := Z.
Definition Track := Z.
Definition TrackBits := Z.
Definition TrackdirBits := Z.
Definition DiagDirection := Z.
Definition RailType := Z.
Definition StationID := Z.

Inductive TileType :=
| MP_CLEAR | MP_RAILWAY | MP_ROAD | MP_HOUSE | MP_TREES | MP_STATION
| MP_WATER | MP_VOID | MP_INDUSTRY | MP_TUNNELBRIDGE | MP_OBJECT.

Definition TileType_eqb (a b : TileType) : bool :=
  match a, b with
  | MP_CLEAR, MP_CLEAR | MP_RAILWAY, MP_RAILWAY | MP_ROAD, MP_ROAD
  | MP_HOUSE, MP_HOUSE | MP_TREES, MP_TREES | MP_STATION, MP_STATION
  | MP_WATER, MP_WATER | MP_VOID, MP_VOID | MP_INDUSTRY, MP_INDUSTRY
  | MP_TUNNELBRIDGE, MP_TUNNELBRIDGE | MP_OBJECT, MP_OBJECT => true
  | _, _ => false
  end.

Inductive SignalState := SIGNAL_STATE_RED | SIGNAL_STATE_GREEN.

Definition is_red (s : SignalState) : bool :=
  match s with SIGNAL_STATE_RED => true | SIGNAL_STATE_GREEN => false end.

(** The signal types named by the cost engine, and the two-way path signal. *)
Inductive SignalType :=
| SIGTYPE_BLOCK | SIGTYPE_ENTRY | SIGTYPE_EXIT | SIGTYPE_COMBO
| SIGTYPE_PBS | SIGTYPE_PBS_ONEWAY.

Definition SignalType_eqb (a b : SignalType) : bool :=
  match a, b with
  | SIGTYPE_BLOCK, SIGTYPE_BLOCK | SIGTYPE_ENTRY, SIGTYPE_ENTRY
  | SIGTYPE_EXIT, SIGTYPE_EXIT | SIGTYPE_COMBO, SIGTYPE_COMBO
  | SIGTYPE_PBS, SIGTYPE_PBS | SIGTYPE_PBS_ONEWAY, SIGTYPE_PBS_ONEWAY => true
  | _, _ => false
  end.

(** Modelled from the spec: [IsPbsSignal] of signal_type.h, which is not among
    the sources.  The path-reservation (PBS) signals are the path signal and
    the one-way path signal; block, entry, exit and combo signals are not. *)
Definition IsPbsSignal (s : SignalType) : bool :=
  match s with
  | SIGTYPE_PBS | SIGTYPE_PBS_ONEWAY => true
  | _ => false
  end.

(** Error codes of the track follower. *)
Inductive ErrorCode :=
| EC_NONE | EC_OWNER | EC_RAIL_ROAD_TYPE | EC_90DEG | EC_NO_WAY | EC_RESERVED.

Definition is_EC_RAIL_ROAD_TYPE (e : ErrorCode) : bool :=
  match e with EC_RAIL_ROAD_TYPE => true | _ => false end.

(** ** End-segment reasons: an enum and its bit set *)

Inductive EndSegmentReason :=
| DeadEnd | RailType_ | InfiniteLoop | SegmentTooLong | ChoiceFollows
| Depot | Waypoint | Station | SafeTile | PathTooLong.

(** Bit position of a reason inside [EndSegmentReasons]. *)
Definition esr_bit (r : EndSegmentReason) : Z :=
  match r with
  | DeadEnd => 0 | RailType_ => 1 | InfiniteLoop => 2 | SegmentTooLong => 3
  | ChoiceFollows => 4 | Depot => 5 | Waypoint => 6 | Station => 7
  | SafeTile => 8 | PathTooLong => 9
  end.

(** [EnumBitSet<EndSegmentReason, uint16_t>]. *)
Definition EndSegmentReasons := Z.

Module ESR.
Definition empty : EndSegmentReasons := 0.
Definition Set_ (s : EndSegmentReasons) (r : EndSegmentReason) : EndSegmentReasons :=
  Z.lor s (Z.shiftl 1 (esr_bit r)).
Definition Test (s : EndSegmentReasons) (r : EndSegmentReason) : bool :=
  Z.testbit s (esr_bit r).
Definition Any (s : EndSegmentReasons) : bool := negb (s =? 0).
Definition And (s m : EndSegmentReasons) : EndSegmentReasons := Z.land s m.
Definition AnyOf (s m : EndSegmentReasons) : bool := Any (And s m).
Definition of_list (l : list EndSegmentReason) : EndSegmentReasons :=
  fold_left Set_ l empty.
End ESR.

(** ** Settings (pf.yapf.* of pathfinding_settings.ini) *)

Record YAPFSettings := {
  rail_firstred_twoway_eol : bool;
  rail_firstred_penalty : Z;
  rail_firstred_exit_penalty : Z;
  rail_lastred_penalty : Z;
  rail_lastred_exit_penalty : Z;
  rail_station_penalty : Z;
  rail_slope_penalty : Z;
  rail_curve45_penalty : Z;
  rail_curve90_penalty : Z;
  rail_depot_reverse_penalty : Z;
  rail_crossing_penalty : Z;
  rail_look_ahead_max_signals : Z;
  rail_look_ahead_signal_p0 : Z;
  rail_look_ahead_signal_p1 : Z;
  rail_look_ahead_signal_p2 : Z;
  rail_pbs_cross_penalty : Z;
  rail_pbs_station_penalty : Z;
  rail_pbs_signal_back_penalty : Z;
  rail_doubleslip_penalty : Z;
  rail_longer_platform_penalty : Z;
  rail_longer_platform_per_tile_penalty : Z;
  rail_shorter_platform_penalty : Z;
  rail_shorter_platform_per_tile_penalty : Z
}.

(** The [min] and [max] of every entry of the settings table. *)
Definition valid_settings (s : YAPFSettings) : Prop :=
  0 <= rail_firstred_penalty s <= 1000000 /\
  0 <= rail_firstred_exit_penalty s <= 1000000 /\
  0 <= rail_lastred_penalty s <= 1000000 /\
  0 <= rail_lastred_exit_penalty s <= 1000000 /\
  0 <= rail_station_penalty s <= 1000000 /\
  0 <= rail_slope_penalty s <= 1000000 /\
  0 <= rail_curve45_penalty s <= 1000000 /\
  0 <= rail_curve90_penalty s <= 1000000 /\
  0 <= rail_depot_reverse_penalty s <= 1000000 /\
  0 <= rail_crossing_penalty s <= 1000000 /\
  1 <= rail_look_ahead_max_signals s <= 100 /\
  -1000000 <= rail_look_ahead_signal_p0 s <= 1000000 /\
  -1000000 <= rail_look_ahead_signal_p1 s <= 1000000 /\
  -1000000 <= rail_look_ahead_signal_p2 s <= 1000000 /\
  0 <= rail_pbs_cross_penalty s <= 1000000 /\
  0 <= rail_pbs_station_penalty s <= 1000000 /\
  0 <= rail_pbs_signal_back_penalty s <= 1000000 /\
  0 <= rail_doubleslip_penalty s <= 1000000 /\
  0 <= rail_longer_platform_penalty s <= 20000 /\
  0 <= rail_longer_platform_per_tile_penalty s <= 20000 /\
  0 <= rail_shorter_platform_penalty s <= 20000 /\
  0 <= rail_shorter_platform_per_tile_penalty s <= 20000.

(** ** The track follower object, as far as the cost engine reads it *)

Record TrackFollower := {
  old_tile : TileIndex;
  old_td : Trackdir;
  new_tile : TileIndex;
  new_td_bits : TrackdirBits;
  tiles_skipped : Z;
  is_station : bool;
  err : ErrorCode
}.

(** ** Collaborators: map, vehicle, followers, track tables, constants *)

Record Env := {
  (* constants of headers outside this class *)
  INVALID_TILE : TileIndex;
  INVALID_TRACKDIR : Trackdir;
  INVALID_RAILTYPE : RailType;
  TRACK_BIT_NONE : TrackBits;
  TRACKDIR_BIT_NONE : TrackdirBits;
  YAPF_TILE_LENGTH : Z;
  YAPF_TILE_CORNER_LENGTH : Z;
  TILE_SIZE : Z;
  ESRF_POSSIBLE_TARGET : EndSegmentReasons;
  ESRF_CACHED_MASK : EndSegmentReasons;
  ESRF_ABORT_PF_MASK : EndSegmentReasons;
  (* bit and track helpers *)
  KillFirstBit : Z -> Z;
  FindFirstBit : Z -> Z;
  RemoveFirstTrackdir : TrackdirBits -> Trackdir; (* the trackdir it returns *)
  HasTrackdir : TrackdirBits -> Trackdir -> bool;
  TrackdirCrossesTrackdirs : Trackdir -> TrackdirBits;
  NextTrackdir : Trackdir -> Trackdir;
  ReverseTrackdir : Trackdir -> Trackdir;
  TrackdirToTrack : Trackdir -> Track;
  TrackdirToExitdir : Trackdir -> DiagDirection;
  ReverseDiagDir : DiagDirection -> DiagDirection;
  DiagdirReachesTracks : DiagDirection -> TrackBits;
  IsDiagonalTrackdir : Trackdir -> bool;
  TrackOverlapsTracks : TrackBits -> Track -> bool;
  TileOffsByDiagDir : DiagDirection -> Z;
  (* the track follower class of the pathfinder *)
  Allow90degTurns : bool;
  DoTrackMasking : bool;
  Follow : TileIndex -> Trackdir -> bool * TrackFollower;
  GetSpeedLimit : TrackFollower -> Z * Z; (* (max_speed, min_speed) *)
  (* CFollowTrackRail, used while probing behind a waypoint *)
  FollowRail : TileIndex -> Trackdir -> bool * TrackFollower;
  (* map queries *)
  GetTileType : TileIndex -> TileType;
  GetTileRailType : TileIndex -> RailType;
  IsPlainRailTile : TileIndex -> bool;
  GetTrackBits : TileIndex -> TrackBits;
  IsLevelCrossing : TileIndex -> bool;
  stSlopeCost : TileIndex -> Trackdir -> bool;
  HasStationReservation : TileIndex -> bool;
  IsRailStationTile : TileIndex -> bool;
  GetReservedTrackbits : TileIndex -> TrackBits;
  HasSignalOnTrackdir : TileIndex -> Trackdir -> bool;
  IsOnewaySignal : TileIndex -> Track -> bool;
  GetSignalStateByTrackdir : TileIndex -> Trackdir -> SignalState;
  GetSignalType : TileIndex -> Track -> SignalType;
  IsRailDepot : TileIndex -> bool;
  IsRailDepotTile : TileIndex -> bool;
  IsRailWaypoint : TileIndex -> bool;
  GetStationIndex : TileIndex -> StationID;
  HasOnewaySignalBlockingTrackdir : TileIndex -> Trackdir -> bool;
  IsSafeWaitingPosition : TileIndex -> Trackdir -> bool -> bool -> bool;
  IsWaitingPositionFree : TileIndex -> Trackdir -> bool -> bool;
  GetPlatformLength : TileIndex -> DiagDirection -> Z;
  forbid_90_deg : bool;
  (* the vehicle and its current order *)
  cached_total_length : Z;
  GetDisplayMaxSpeed : Z;
  order_IsGotoWaypoint : bool;
  order_GetDestination : StationID;
  order_GetMaxSpeed : Z;
  Waypoint_IsSingleTile : StationID -> bool;
  (* the destination policy of the pathfinder *)
  PfDetectDestination : TileIndex -> Trackdir -> bool
}.

Definition IsTileType (E : Env) (tile : TileIndex) (t : TileType) : bool :=
  TileType_eqb (GetTileType E tile) t.

(** ** Cached segment and node *)

Module Seg.
Record CachedData := mk {
  cost : Z;
  last_tile : TileIndex;
  last_td : Trackdir;
  last_signal_tile : TileIndex;
  last_signal_td : Trackdir;
  end_segment_reason : EndSegmentReasons
}.
Definition with_cost (s : CachedData) (c : Z) :=
  mk c (last_tile s) (last_td s) (last_signal_tile s) (last_signal_td s) (end_segment_reason s).
Definition with_last (s : CachedData) (t : TileIndex) (td : Trackdir) :=
  mk (cost s) t td (last_signal_tile s) (last_signal_td s) (end_segment_reason s).
Definition with_last_signal (s : CachedData) (t : TileIndex) (td : Trackdir) :=
  mk (cost s) (last_tile s) (last_td s) t td (end_segment_reason s).
Definition with_reason (s : CachedData) (r : EndSegmentReasons) :=
  mk (cost s) (last_tile s) (last_td s) (last_signal_tile s) (last_signal_td s) r.
End Seg.

Inductive Node := mkNode {
  key_tile : TileIndex;
  key_td : Trackdir;
  parent : option Node;
  cost : Z;
  segment : Seg.CachedData;
  num_signals_passed : nat;
  target_seen : bool;
  choice_seen : bool;
  last_signal_was_red : bool;
  last_red_signal_type : SignalType;
  last_signal_type : SignalType
}.

Definition with_cost (n : Node) (c : Z) : Node :=
  mkNode (key_tile n) (key_td n) (parent n) c (segment n) (num_signals_passed n)
    (target_seen n) (choice_seen n) (last_signal_was_red n)
    (last_red_signal_type n) (last_signal_type n).
Definition with_segment (n : Node) (s : Seg.CachedData) : Node :=
  mkNode (key_tile n) (key_td n) (parent n) (cost n) s (num_signals_passed n)
    (target_seen n) (choice_seen n) (last_signal_was_red n)
    (last_red_signal_type n) (last_signal_type n).
Definition with_num_signals_passed (n : Node) (k : nat) : Node :=
  mkNode (key_tile n) (key_td n) (parent n) (cost n) (segment n) k
    (target_seen n) (choice_seen n) (last_signal_was_red n)
    (last_red_signal_type n) (last_signal_type n).
Definition with_target_seen (n : Node) (b : bool) : Node :=
  mkNode (key_tile n) (key_td n) (parent n) (cost n) (segment n) (num_signals_passed n)
    b (choice_seen n) (last_signal_was_red n)
    (last_red_signal_type n) (last_signal_type n).
Definition with_last_signal_was_red (n : Node) (b : bool) : Node :=
  mkNode (key_tile n) (key_td n) (parent n) (cost n) (segment n) (num_signals_passed n)
    (target_seen n) (choice_seen n) b
    (last_red_signal_type n) (last_signal_type n).
Definition with_last_red_signal_type (n : Node) (t : SignalType) : Node :=
  mkNode (key_tile n) (key_td n) (parent n) (cost n) (segment n) (num_signals_passed n)
    (target_seen n) (choice_seen n) (last_signal_was_red n)
    t (last_signal_type n).
Definition with_last_signal_type (n : Node) (t : SignalType) : Node :=
  mkNode (key_tile n) (key_td n) (parent n) (cost n) (segment n) (num_signals_passed n)
    (target_seen n) (choice_seen n) (last_signal_was_red n)
    (last_red_signal_type n) t.

Definition GetLastTile (n : Node) : TileIndex := Seg.last_tile (segment n).
Definition GetLastTrackdir (n : Node) : Trackdir := Seg.last_td (segment n).
Definition SetLastTileTrackdir (n : Node) (tile : TileIndex) (td : Trackdir) : Node :=
  with_segment n (Seg.with_last (segment n) tile td).
(** [n.segment->end_segment_reason.Set(r)] *)
Definition segment_reason_Set (n : Node) (r : EndSegmentReason) : Node :=
  with_segment n
    (Seg.with_reason (segment n) (ESR.Set_ (Seg.end_segment_reason (segment n)) r)).

(** ** The pathfinder object: members of [CYapfCostRailT] and its settings *)

Record Yapf := mkYapf {
  PfGetSettings : YAPFSettings;
  max_cost : Z;
  disable_cache : bool;
  sig_look_ahead_costs : list Z;
  treat_first_red_two_way_signal_as_eol : bool;
  stopped_on_first_two_way_signal : bool;
  (* keys of the nodes handed to PruneIntermediateNodeBranch, latest first *)
  pruned_branches : list (TileIndex * Trackdir)
}.

Definition MAX_SEGMENT_COST : Z := 10000.

(** *** 32-bit arithmetic of the constructor

    [p0 + i * (p1 + i * p2)] mixes [uint i] with the [int] coefficients: the
    operands are converted to unsigned, every operation wraps modulo 2^32 and
    [push_back] converts the result back to [int]. *)

Definition uint32_of (z : Z) : Z := z mod 2 ^ 32.
Definition int_of_uint32 (u : Z) : Z := if u <? 2 ^ 31 then u else u - 2 ^ 32.
Definition uadd (a b : Z) : Z := uint32_of (a + b).
Definition umul (a b : Z) : Z := uint32_of (a * b).

Definition look_ahead_term (p0 p1 p2 : Z) (i : nat) : Z :=
  let u := uint32_of (Z.of_nat i) in
  int_of_uint32
    (uadd (uint32_of p0) (umul u (uadd (uint32_of p1) (umul u (uint32_of p2))))).

(** [for (uint i = 0; i < max; i++) push_back(...)], [count] entries from [i] on. *)
Fixpoint fill_look_ahead (p0 p1 p2 : Z) (count i : nat) : list Z :=
  match count with
  | O => []
  | S c => look_ahead_term p0 p1 p2 i :: fill_look_ahead p0 p1 p2 c (S i)
  end.

(** The constructor, with the default member initialisers. *)
Definition CYapfCostRailT (s : YAPFSettings) : Yapf :=
  let p0 := rail_look_ahead_signal_p0 s in
  let p1 := rail_look_ahead_signal_p1 s in
  let p2 := rail_look_ahead_signal_p2 s in
  mkYapf s 0 false
    (fill_look_ahead p0 p1 p2 (Z.to_nat (rail_look_ahead_max_signals s)) 0)
    false false [].

Definition SetTreatFirstRedTwoWaySignalAsEOL (Y : Yapf) (enabled : bool) : Yapf :=
  mkYapf (PfGetSettings Y) (max_cost Y) (disable_cache Y) (sig_look_ahead_costs Y)
    enabled (stopped_on_first_two_way_signal Y) (pruned_branches Y).

Definition SetMaxCost (Y : Yapf) (m : Z) : Yapf :=
  mkYapf (PfGetSettings Y) m (disable_cache Y) (sig_look_ahead_costs Y)
    (treat_first_red_two_way_signal_as_eol Y) (stopped_on_first_two_way_signal Y)
    (pruned_branches Y).

Definition DisableCache (Y : Yapf) (disable : bool) : Yapf :=
  mkYapf (PfGetSettings Y) (max_cost Y) disable (sig_look_ahead_costs Y)
    (treat_first_red_two_way_signal_as_eol Y) (stopped_on_first_two_way_signal Y)
    (pruned_branches Y).

(** The two effects of the first-red two-way abort on the pathfinder object:
    [PruneIntermediateNodeBranch(&n)] and [stopped_on_first_two_way_signal = true]. *)
Definition stop_on_first_two_way_signal (Y : Yapf) (n : Node) : Yapf :=
  mkYapf (PfGetSettings Y) (max_cost Y) (disable_cache Y) (sig_look_ahead_costs Y)
    (treat_first_red_two_way_signal_as_eol Y) true
    ((key_tile n, key_td n) :: pruned_branches Y).

Definition TreatFirstRedTwoWaySignalAsEOL (Y : Yapf) : bool :=
  rail_firstred_twoway_eol (PfGetSettings Y) && treat_first_red_two_way_signal_as_eol Y.

(** ** Tile and transition costs *)

Definition SlopeCost (E : Env) (Y : Yapf) (tile : TileIndex) (td : Trackdir) : Z :=
  if negb (stSlopeCost E tile td) then 0
  else rail_slope_penalty (PfGetSettings Y).

(* assert(IsValidTrackdir(td1)); assert(IsValidTrackdir(td2)); *)
Definition CurveCost (E : Env) (Y : Yapf) (td1 td2 : Trackdir) : Z :=
  let cost := 0 in
  if Allow90degTurns E && HasTrackdir E (TrackdirCrossesTrackdirs E td1) td2 then
    cost + rail_curve90_penalty (PfGetSettings Y)
  else if negb (td2 =? NextTrackdir E td1) then
    cost + rail_curve45_penalty (PfGetSettings Y)
  else cost.

Definition SwitchCost (E : Env) (Y : Yapf) (tile1 tile2 : TileIndex) (exitdir : DiagDirection) : Z :=
  if IsPlainRailTile E tile1 && IsPlainRailTile E tile2 then
    let t1 := negb (KillFirstBit E (Z.land (GetTrackBits E tile1)
                      (DiagdirReachesTracks E (ReverseDiagDir E exitdir))) =? TRACK_BIT_NONE E) in
    let t2 := negb (KillFirstBit E (Z.land (GetTrackBits E tile2)
                      (DiagdirReachesTracks E exitdir)) =? TRACK_BIT_NONE E) in
    if t1 && t2 then rail_doubleslip_penalty (PfGetSettings Y) else 0
  else 0.

Definition OneTileCost (E : Env) (Y : Yapf) (tile : TileIndex) (trackdir : Trackdir) : Z :=
  let cost := 0 in
  if IsDiagonalTrackdir E trackdir then
    let cost := cost + YAPF_TILE_LENGTH E in
    match GetTileType E tile with
    | MP_ROAD =>
        if IsLevelCrossing E tile then cost + rail_crossing_penalty (PfGetSettings Y)
        else cost
    | _ => cost
    end
  else YAPF_TILE_CORNER_LENGTH E.

(** [for (; skipped >= 0; skipped--, tile += diff)] run for [count] tiles. *)
Fixpoint station_tiles_reserved (E : Env) (count : nat) (tile : TileIndex) (diff : Z) : bool :=
  match count with
  | O => false
  | S c => if HasStationReservation E tile then true
           else station_tiles_reserved E c (tile + diff) diff
  end.

Definition IsAnyStationTileReserved (E : Env) (tile : TileIndex) (trackdir : Trackdir) (skipped : Z) : bool :=
  let diff := TileOffsByDiagDir E (TrackdirToExitdir E (ReverseTrackdir E trackdir)) in
  station_tiles_reserved E (Z.to_nat (skipped + 1)) tile diff.

Definition ReservationCost (E : Env) (Y : Yapf) (n : Node) (tile : TileIndex)
    (trackdir : Trackdir) (skipped : Z) : Z :=
  if (Nat.div (length (sig_look_ahead_costs Y)) 2 <=? num_signals_passed n)%nat then 0
  else if negb (IsPbsSignal (last_signal_type n)) then 0
  else if IsRailStationTile E tile && IsAnyStationTileReserved E tile trackdir skipped then
    rail_pbs_station_penalty (PfGetSettings Y) * (skipped + 1)
  else if TrackOverlapsTracks E (GetReservedTrackbits E tile) (TrackdirToTrack E trackdir) then
    let cost := rail_pbs_cross_penalty (PfGetSettings Y) in
    let cost := if negb (IsDiagonalTrackdir E trackdir)
                then Z.quot (cost * YAPF_TILE_CORNER_LENGTH E) (YAPF_TILE_LENGTH E)
                else cost in
    cost * (skipped + 1)
  else 0.

(** ** Signal cost *)

(** [sig_look_ahead_costs[i]] inside the table, 0 beyond it. *)
Definition look_ahead_cost_at (Y : Yapf) (i : nat) : Z :=
  if (i <? length (sig_look_ahead_costs Y))%nat
  then nth i (sig_look_ahead_costs Y) 0
  else 0.

(** A block either returns from the function or falls through to what follows. *)
Inductive ctl (A : Type) := Returned (a : A) | Fallthrough (a : A).
Arguments Returned {A} a.
Arguments Fallthrough {A} a.

(** The body of [if (has_signal_along) { ... }]. *)
Definition SignalCost_along (E : Env) (Y : Yapf) (n : Node) (tile : TileIndex)
    (trackdir : Trackdir) (has_signal_against : bool) (cost : Z) : ctl (Z * Node * Yapf) :=
  let sig_state := GetSignalStateByTrackdir E tile trackdir in
  let sig_type := GetSignalType E tile (TrackdirToTrack E trackdir) in
  let n := with_last_signal_type n sig_type in
  let look_ahead_cost := look_ahead_cost_at Y (num_signals_passed n) in
  let after :=
    if negb (is_red sig_state) then
      (* green signal *)
      let n := with_last_signal_was_red n false in
      let cost := if look_ahead_cost <? 0 then cost - look_ahead_cost else cost in
      Fallthrough (cost, n, Y)
    else
      if negb (IsPbsSignal sig_type) && TreatFirstRedTwoWaySignalAsEOL Y && choice_seen n
         && has_signal_against && (num_signals_passed n =? 0)%nat then
        Returned (-1, segment_reason_Set n DeadEnd, stop_on_first_two_way_signal Y n)
      else
        let n := with_last_red_signal_type n sig_type in
        let n := with_last_signal_was_red n true in
        let cost := if negb (IsPbsSignal sig_type) && (0 <? look_ahead_cost)
                    then cost + look_ahead_cost else cost in
        let cost :=
          if (num_signals_passed n =? 0)%nat then
            match sig_type with
            | SIGTYPE_COMBO | SIGTYPE_EXIT => cost + rail_firstred_exit_penalty (PfGetSettings Y)
            | SIGTYPE_BLOCK | SIGTYPE_ENTRY => cost + rail_firstred_penalty (PfGetSettings Y)
            | _ => cost
            end
          else cost in
        Fallthrough (cost, n, Y) in
  match after with
  | Returned r => Returned r
  | Fallthrough (cost, n, Y) =>
      let n := with_num_signals_passed n (S (num_signals_passed n)) in
      let n := with_segment n (Seg.with_last_signal (segment n) tile trackdir) in
      Fallthrough (cost, n, Y)
  end.

Definition SignalCost (E : Env) (Y : Yapf) (n : Node) (tile : TileIndex) (trackdir : Trackdir)
    : Z * Node * Yapf :=
  let cost := 0 in
  if IsTileType E tile MP_RAILWAY then
    let has_signal_against := HasSignalOnTrackdir E tile (ReverseTrackdir E trackdir) in
    let has_signal_along := HasSignalOnTrackdir E tile trackdir in
    if has_signal_against && negb has_signal_along
       && IsOnewaySignal E tile (TrackdirToTrack E trackdir) then
      (* one-way signal in opposite direction *)
      (cost, segment_reason_Set n DeadEnd, Y)
    else
      match (if has_signal_along
             then SignalCost_along E Y n tile trackdir has_signal_against cost
             else Fallthrough (cost, n, Y)) with
      | Returned r => r
      | Fallthrough (cost, n, Y) =>
          let cost :=
            if has_signal_against
               && IsPbsSignal (GetSignalType E tile (TrackdirToTrack E trackdir)) then
              cost + (if Z.of_nat (num_signals_passed n)
                         <? rail_look_ahead_max_signals (PfGetSettings Y)
                      then rail_pbs_signal_back_penalty (PfGetSettings Y) else 0)
            else cost in
          (cost, n, Y)
      end
  else (cost, n, Y).

(** ** Platform length penalty *)

(** Modelled from the spec: [CeilDiv] of core/math_func.hpp, which is not among
    the sources: the quotient of two unsigned numbers, rounded up. *)
Definition CeilDiv (a b : Z) : Z := (a + b - 1) / b.

(* assert(v != nullptr); assert(v->type == VEH_TRAIN);
   assert(v->gcache.cached_total_length != 0); *)
Definition PlatformLengthPenalty (E : Env) (Y : Yapf) (platform_length : Z) : Z :=
  let cost := 0 in
  let missing_platform_length := CeilDiv (cached_total_length E) (TILE_SIZE E) - platform_length in
  if missing_platform_length <? 0 then
    cost + (rail_longer_platform_penalty (PfGetSettings Y)
            + rail_longer_platform_per_tile_penalty (PfGetSettings Y) * - missing_platform_length)
  else if 0 <? missing_platform_length then
    cost + (rail_shorter_platform_penalty (PfGetSettings Y)
            + rail_shorter_platform_per_tile_penalty (PfGetSettings Y) * missing_platform_length)
  else cost.

(** ** Segment cache connection *)

Definition CanUseGlobalCache (Y : Yapf) (n : Node) : bool :=
  negb (disable_cache Y)
  && match parent n with
     | None => false
     | Some p => (length (sig_look_ahead_costs Y) <=? num_signals_passed p)%nat
     end.

Definition ConnectNodeToCachedData (n : Node) (ci : Seg.CachedData) : Node :=
  let n := with_segment n ci in
  if Seg.cost (segment n) <? 0
  then with_segment n (Seg.with_last (segment n) (key_tile n) (key_td n))
  else n.

(** ** PfCalcCost *)

(** [struct TILE]: basic tile information kept inside [PfCalcCost]. *)
Record TILE := mkTILE {
  tile : TileIndex;
  td : Trackdir;
  tile_type : TileType;
  rail_type : RailType
}.

(** [TILE()] *)
Definition TILE_default (E : Env) : TILE :=
  mkTILE (INVALID_TILE E) (INVALID_TRACKDIR E) MP_VOID (INVALID_RAILTYPE E).

(** [TILE(tile, td)] *)
Definition TILE_at (E : Env) (t : TileIndex) (d : Trackdir) : TILE :=
  mkTILE t d (GetTileType E t) (GetTileRailType E t).

(** The local variables of [PfCalcCost] together with the objects it mutates. *)
Module L.
Record Locals := mk {
  n : Node;
  Y : Yapf;
  tf : TrackFollower;
  cur : TILE;
  prev : TILE;
  transition_cost : Z;
  extra_cost : Z;
  segment_entry_cost : Z;
  segment_cost : Z;
  end_segment_reason : EndSegmentReasons;
  target_seen : bool
}.
End L.

Inductive step (A : Type) := Break (a : A) | Continue (a : A).
Arguments Break {A} a.
Arguments Continue {A} a.

(** The waypoint probe: follow the track behind the waypoint for at most 20
    tiles until a safe waiting position is found.  Returns the final [(t, td)].
    [max_tiles] is the counter of the source, which also bounds the recursion. *)
Fixpoint waypoint_probe (E : Env) (cur_tile : TileIndex) (max_tiles : nat)
    (t : TileIndex) (d : Trackdir) : TileIndex * Trackdir :=
  match max_tiles with
  | O => (t, INVALID_TRACKDIR E)
  | S m =>
      let '(ok, ft) := FollowRail E t d in
      if negb ok then (t, d)
      else
        (* assert(t != ft.new_tile); *)
        let t := new_tile ft in
        if (t =? cur_tile) || (Nat.eqb m 0) then (t, INVALID_TRACKDIR E)
        else if negb (KillFirstBit E (new_td_bits ft) =? TRACKDIR_BIT_NONE E)
        then (t, INVALID_TRACKDIR E)
        else
          let d := RemoveFirstTrackdir E (new_td_bits ft) in
          if IsSafeWaitingPosition E t d true (forbid_90_deg E) then (t, d)
          else waypoint_probe E cur_tile m t d
  end.

(** Lines 404-443: the extra cost of a destination waypoint whose platform is
    not a free safe waiting position. *)
Definition waypoint_extra_cost (E : Env) (Y : Yapf) (cur : TILE) : Z :=
  if order_IsGotoWaypoint E
     && (GetStationIndex E (tile cur) =? order_GetDestination E)
     && negb (Waypoint_IsSingleTile E (order_GetDestination E)) then
    let '(t, d) := waypoint_probe E (tile cur) 20 (tile cur) (td cur) in
    if (d =? INVALID_TRACKDIR E)
       || negb (IsSafeWaitingPosition E t d true (forbid_90_deg E))
       || negb (IsWaitingPositionFree E t d (forbid_90_deg E))
    then rail_lastred_penalty (PfGetSettings Y)
    else 0
  else 0.

(** Lines 378-392: the costs of the current tile. *)
Definition tile_costs (E : Env) (st : L.Locals) : L.Locals :=
  let cur := L.cur st in
  let tf := L.tf st in
  let segment_cost := L.segment_cost st in
  let segment_cost := segment_cost + OneTileCost E (L.Y st) (tile cur) (td cur) in
  let segment_cost := segment_cost + YAPF_TILE_LENGTH E * tiles_skipped tf in
  let segment_cost := segment_cost + SlopeCost E (L.Y st) (tile cur) (td cur) in
  let '(sc, n, Y) := SignalCost E (L.Y st) (L.n st) (tile cur) (td cur) in
  let segment_cost := segment_cost + sc in
  let segment_cost := segment_cost + ReservationCost E Y n (tile cur) (td cur) (tiles_skipped tf) in
  L.mk n Y tf cur (L.prev st) (L.transition_cost st) (L.extra_cost st)
    (L.segment_entry_cost st) segment_cost
    (Seg.end_segment_reason (segment n)) (L.target_seen st).

(** Lines 394-462: tests for the 'potential target' reasons to close the segment. *)
Definition target_reasons (E : Env) (st : L.Locals) : L.Locals :=
  let cur := L.cur st in
  let prev := L.prev st in
  let tf := L.tf st in
  let s := PfGetSettings (L.Y st) in
  let '(segment_cost, extra_cost, end_segment_reason) :=
    if tile cur =? tile prev then
      (* assert(IsRailDepot(cur.tile)); *)
      (L.segment_cost st + rail_depot_reverse_penalty s, L.extra_cost st,
       L.end_segment_reason st)
    else if IsRailDepotTile E (tile cur) then
      (L.segment_cost st, L.extra_cost st, ESR.Set_ (L.end_segment_reason st) Depot)
    else if TileType_eqb (tile_type cur) MP_STATION && IsRailWaypoint E (tile cur) then
      (L.segment_cost st, L.extra_cost st + waypoint_extra_cost E (L.Y st) cur,
       ESR.Set_ (L.end_segment_reason st) Waypoint)
    else if is_station tf then
      let platform_length := tiles_skipped tf + 1 in
      (L.segment_cost st + rail_station_penalty s * platform_length, L.extra_cost st,
       ESR.Set_ (L.end_segment_reason st) Station)
    else if DoTrackMasking E && TileType_eqb (tile_type cur) MP_RAILWAY then
      if HasSignalOnTrackdir E (tile cur) (td cur)
         && negb (IsPbsSignal (GetSignalType E (tile cur) (TrackdirToTrack E (td cur))))
      then (L.segment_cost st, L.extra_cost st, ESR.Set_ (L.end_segment_reason st) SafeTile)
      else (L.segment_cost st, L.extra_cost st, L.end_segment_reason st)
    else (L.segment_cost st, L.extra_cost st, L.end_segment_reason st) in
  L.mk (L.n st) (L.Y st) tf cur prev (L.transition_cost st) extra_cost
    (L.segment_entry_cost st) segment_cost end_segment_reason (L.target_seen st).

(** Lines 464-477: min/max speed penalties inside the look-ahead radius. *)
Definition speed_penalties (E : Env) (st : L.Locals) : L.Locals :=
  if (num_signals_passed (L.n st) <? length (sig_look_ahead_costs (L.Y st)))%nat then
    let '(max_speed, min_speed) := GetSpeedLimit E (L.tf st) in
    let max_veh_speed := Z.min (GetDisplayMaxSpeed E) (order_GetMaxSpeed E) in
    let extra_cost := L.extra_cost st in
    let extra_cost :=
      if max_speed <? max_veh_speed then
        extra_cost + Z.quot (YAPF_TILE_LENGTH E * (max_veh_speed - max_speed)
                             * (4 + tiles_skipped (L.tf st))) max_veh_speed
      else extra_cost in
    let extra_cost :=
      if max_veh_speed <? min_speed then
        extra_cost + YAPF_TILE_LENGTH E * (min_speed - max_veh_speed)
      else extra_cost in
    L.mk (L.n st) (L.Y st) (L.tf st) (L.cur st) (L.prev st) (L.transition_cost st)
      extra_cost (L.segment_entry_cost st) (L.segment_cost st)
      (L.end_segment_reason st) (L.target_seen st)
  else st.

(** Lines 479-483: the maximum path cost. *)
Definition max_cost_exceeded (parent_cost : Z) (st : L.Locals) : bool :=
  (0 <? max_cost (L.Y st))
  && (max_cost (L.Y st) <? parent_cost + L.segment_entry_cost st + L.segment_cost st).

Definition max_cost_check (parent_cost : Z) (st : L.Locals) : L.Locals :=
  if max_cost_exceeded parent_cost st then
    L.mk (L.n st) (L.Y st) (L.tf st) (L.cur st) (L.prev st) (L.transition_cost st)
      (L.extra_cost st) (L.segment_entry_cost st) (L.segment_cost st)
      (ESR.Set_ (L.end_segment_reason st) PathTooLong) (L.target_seen st)
  else st.

Definition set_flow (st : L.Locals) (tf : TrackFollower) (extra_cost : Z)
    (r : EndSegmentReasons) : L.Locals :=
  L.mk (L.n st) (L.Y st) tf (L.cur st) (L.prev st) (L.transition_cost st)
    extra_cost (L.segment_entry_cost st) (L.segment_cost st) r (L.target_seen st).

(** Lines 514-523: with track masking, a path signal on the next tile makes
    the current tile a possible safe tile. *)
Definition next_tile_masking (E : Env) (Y : Yapf) (next : TILE) (r : EndSegmentReasons)
    (extra_cost : Z) : EndSegmentReasons * Z :=
  if DoTrackMasking E && IsTileType E (tile next) MP_RAILWAY then
    if HasSignalOnTrackdir E (tile next) (td next)
       && IsPbsSignal (GetSignalType E (tile next) (TrackdirToTrack E (td next)))
    then (ESR.Set_ r SafeTile, extra_cost)
    else if HasSignalOnTrackdir E (tile next) (ReverseTrackdir E (td next))
            && SignalType_eqb (GetSignalType E (tile next) (TrackdirToTrack E (td next)))
                              SIGTYPE_PBS_ONEWAY
    then (ESR.Set_ (ESR.Set_ r SafeTile) DeadEnd,
          extra_cost + rail_lastred_exit_penalty (PfGetSettings Y))
    else (r, extra_cost)
  else (r, extra_cost).

(** Lines 485-555: move to the next tile, or close the segment. *)
Definition advance (E : Env) (st : L.Locals) : step L.Locals :=
  let cur := L.cur st in
  let '(ok, tf_local) := Follow E (tile cur) (td cur) in
  let r := L.end_segment_reason st in
  if negb ok then
    (* assert(tf_local.err != TrackFollower::EC_NONE); *)
    let r := if is_EC_RAIL_ROAD_TYPE (err tf_local)
             then ESR.Set_ r RailType_ else ESR.Set_ r DeadEnd in
    let r := if DoTrackMasking E
                && negb (HasOnewaySignalBlockingTrackdir E (tile cur) (td cur))
             then ESR.Set_ r SafeTile else r in
    Break (set_flow st tf_local (L.extra_cost st) r)
  else if negb (KillFirstBit E (new_td_bits tf_local) =? TRACKDIR_BIT_NONE E) then
    Break (set_flow st tf_local (L.extra_cost st) (ESR.Set_ r ChoiceFollows))
  else
    let next := TILE_at E (new_tile tf_local) (FindFirstBit E (new_td_bits tf_local)) in
    let '(r, extra_cost) := next_tile_masking E (L.Y st) next r (L.extra_cost st) in
    if negb (rail_type next =? rail_type cur) then
      Break (set_flow st tf_local extra_cost (ESR.Set_ r RailType_))
    else if (tile next =? key_tile (L.n st)) && (td next =? key_td (L.n st)) then
      Break (set_flow st tf_local extra_cost (ESR.Set_ r InfiniteLoop))
    else if (MAX_SEGMENT_COST <? L.segment_cost st)
            && IsTileType E (new_tile tf_local) MP_RAILWAY then
      Break (set_flow st tf_local extra_cost (ESR.Set_ r SegmentTooLong))
    else if ESR.Any r then
      Break (set_flow st tf_local extra_cost r)
    else
      Continue (L.mk (L.n st) (L.Y st) tf_local next cur (L.transition_cost st)
                  extra_cost (L.segment_entry_cost st) (L.segment_cost st) r
                  (L.target_seen st)).

(** From the label [no_entry_cost] to the end of the loop body. *)
Definition loop_tail (E : Env) (parent_cost : Z) (st : L.Locals) : step L.Locals :=
  advance E (max_cost_check parent_cost (speed_penalties E (target_reasons E (tile_costs E st)))).

(** Lines 339-373: the head of the loop body, the transition cost and the
    reuse of a cached segment. *)
Definition loop_head (E : Env) (is_cached_segment : bool) (st : L.Locals) : step L.Locals :=
  let prev := L.prev st in
  let cur := L.cur st in
  let transition_cost :=
    CurveCost E (L.Y st) (td prev) (td cur)
    + SwitchCost E (L.Y st) (tile prev) (tile cur) (TrackdirToExitdir E (td prev)) in
  if L.segment_cost st =? 0 then
    let segment_entry_cost := transition_cost in
    let transition_cost := 0 in
    if is_cached_segment then
      let n := L.n st in
      let segment := segment n in
      let n :=
        if negb (Seg.last_signal_tile segment =? INVALID_TILE E) then
          (* assert(HasSignalOnTrackdir(segment.last_signal_tile, segment.last_signal_td)); *)
          let sig_state := GetSignalStateByTrackdir E (Seg.last_signal_tile segment)
                             (Seg.last_signal_td segment) in
          let n := with_last_signal_was_red n (is_red sig_state) in
          if is_red sig_state then
            with_last_red_signal_type n
              (GetSignalType E (Seg.last_signal_tile segment)
                 (TrackdirToTrack E (Seg.last_signal_td segment)))
          else n
        else n in
      Break (L.mk n (L.Y st) (L.tf st)
               (TILE_at E (GetLastTile n) (GetLastTrackdir n)) prev
               transition_cost (L.extra_cost st) segment_entry_cost
               (Seg.cost segment) (Seg.end_segment_reason segment) (L.target_seen st))
    else
      Continue (L.mk (L.n st) (L.Y st) (L.tf st) cur prev transition_cost
                  (L.extra_cost st) segment_entry_cost (L.segment_cost st)
                  (L.end_segment_reason st) (L.target_seen st))
  else
    Continue (L.mk (L.n st) (L.Y st) (L.tf st) cur prev transition_cost
                (L.extra_cost st) (L.segment_entry_cost st)
                (L.segment_cost st + transition_cost)
                (L.end_segment_reason st) (L.target_seen st)).

(** [for (;;)] entered at [no_entry_cost]: a tail, then head and tail in turn.
    [fuel] bounds the number of tiles walked. *)
Fixpoint walk (E : Env) (parent_cost : Z) (is_cached_segment : bool) (fuel : nat)
    (st : L.Locals) : option L.Locals :=
  match fuel with
  | O => None
  | S f =>
      match loop_tail E parent_cost st with
      | Break s => Some s
      | Continue s =>
          match loop_head E is_cached_segment s with
          | Break s' => Some s'
          | Continue s' => walk E parent_cost is_cached_segment f s'
          end
      end
  end.

(** Lines 558-614: what follows the loop. *)
Definition finish (E : Env) (parent_cost : Z) (is_cached_segment : bool) (st : L.Locals)
    : bool * L.Locals :=
  let r := L.end_segment_reason st in
  let cur := L.cur st in
  let s := PfGetSettings (L.Y st) in
  if ESR.Test r PathTooLong then (false, st)
  else
    let target_seen :=
      if ESR.AnyOf r (ESRF_POSSIBLE_TARGET E)
      then PfDetectDestination E (tile cur) (td cur) else false in
    let n := L.n st in
    let n :=
      if negb is_cached_segment then
        let sg := Seg.with_cost (segment n) (L.segment_cost st) in
        let sg := Seg.with_reason sg (ESR.And r (ESRF_CACHED_MASK E)) in
        SetLastTileTrackdir (with_segment n sg) (tile cur) (td cur)
      else n in
    let st1 := L.mk n (L.Y st) (L.tf st) cur (L.prev st) (L.transition_cost st)
                 (L.extra_cost st) (L.segment_entry_cost st) (L.segment_cost st) r
                 target_seen in
    if negb target_seen && ESR.AnyOf r (ESRF_ABORT_PF_MASK E) then (false, st1)
    else
      let '(n, extra_cost) :=
        if target_seen then
          let n := with_target_seen n true in
          let extra_cost := L.extra_cost st in
          let extra_cost :=
            if last_signal_was_red n then
              if SignalType_eqb (last_red_signal_type n) SIGTYPE_EXIT
              then extra_cost + rail_lastred_exit_penalty s
              else if negb (IsPbsSignal (last_red_signal_type n))
              then extra_cost + rail_lastred_penalty s
              else extra_cost
            else extra_cost in
          let extra_cost :=
            if ESR.Test r Station then
              (* assert(st != nullptr); *)
              let platform_length :=
                GetPlatformLength E (GetLastTile n)
                  (ReverseDiagDir E (TrackdirToExitdir E (GetLastTrackdir n))) in
              let extra_cost := extra_cost - rail_station_penalty s * platform_length in
              extra_cost + PlatformLengthPenalty E (L.Y st) platform_length
            else extra_cost in
          (n, extra_cost)
        else (n, L.extra_cost st) in
      let n := with_cost n (parent_cost + L.segment_entry_cost st + L.segment_cost st
                            + extra_cost) in
      (true, L.mk n (L.Y st) (L.tf st) cur (L.prev st) (L.transition_cost st)
               extra_cost (L.segment_entry_cost st) (L.segment_cost st) r target_seen).

(** The entry assertions of [PfCalcCost], and the one of the root branch. *)
Definition PfCalcCost_pre (E : Env) (n : Node) (tf : TrackFollower) : bool :=
  negb (target_seen n)
  && (new_tile tf =? key_tile n)
  && HasTrackdir E (new_td_bits tf) (key_td n)
  && match parent n with
     | None => negb (0 <=? Seg.cost (segment n))
     | Some _ => true
     end.

Definition parent_cost_of (n : Node) : Z :=
  match parent n with Some p => cost p | None => 0 end.

(** The local variables when the loop is entered. *)
Definition PfCalcCost_init (E : Env) (Y : Yapf) (n : Node) (tf : TrackFollower) : L.Locals :=
  let cur := TILE_at E (key_tile n) (key_td n) in
  let prev := match parent n with
              | None => TILE_default E
              | Some p => TILE_at E (GetLastTile p) (GetLastTrackdir p)
              end in
  L.mk n Y tf cur prev 0 0 0 0 ESR.empty false.

(** Lines 331-336 and the first pass through the head of the loop: a node
    without parent jumps to [no_entry_cost], the others compute the entry cost
    and may leave the loop at once with the cached segment. *)
Definition PfCalcCost_enter (E : Env) (Y : Yapf) (n : Node) (tf : TrackFollower)
    : step L.Locals :=
  let is_cached_segment := 0 <=? Seg.cost (segment n) in
  let st := PfCalcCost_init E Y n tf in
  match parent n with
  | None =>
      (* assert(!is_cached_segment); goto no_entry_cost; *)
      Continue st
  | Some _ => loop_head E is_cached_segment st
  end.

(** [PfCalcCost(n, tf)]: the return value and the state when it returns; the
    node, its segment and the pathfinder object are inside the state.  [None]
    when the walk needs more than [fuel] tiles. *)
Definition PfCalcCost (E : Env) (fuel : nat) (Y : Yapf) (n : Node) (tf : TrackFollower)
    : option (bool * L.Locals) :=
  let is_cached_segment := 0 <=? Seg.cost (segment n) in
  let parent_cost := parent_cost_of n in
  let after_loop :=
    match PfCalcCost_enter E Y n tf with
    | Break s => Some s
    | Continue s => walk E parent_cost is_cached_segment fuel s
    end in
  match after_loop with
  | None => None
  | Some s => Some (finish E parent_cost is_cached_segment s)
  end.

(** The state at [no_entry_cost] after [k] full passes of the loop body. *)
Fixpoint walk_prefix (E : Env) (parent_cost : Z) (is_cached_segment : bool) (k : nat)
    (st : L.Locals) : option L.Locals :=
  match k with
  | O => Some st
  | S k' =>
      match loop_tail E parent_cost st with
      | Break _ => None
      | Continue s =>
          match loop_head E is_cached_segment s with
          | Break _ => None
          | Continue s' => walk_prefix E parent_cost is_cached_segment k' s'
          end
      end
  end.

(** The state at the maximum cost test (line 481) of a pass started in [st]. *)
Definition at_max_cost_test (E : Env) (st : L.Locals) : L.Locals :=
  speed_penalties E (target_reasons E (tile_costs E st)).

(** Modelled from the spec: the cached segment as the cache creates it
    (yapf_node_rail.hpp is not among the sources): the cost holds the 'not yet
    computed' sentinel, no signal was seen and no end reason is set. *)
Definition new_CachedData (E : Env) : Seg.CachedData :=
  Seg.mk (-1) (INVALID_TILE E) (INVALID_TRACKDIR E) (INVALID_TILE E) (INVALID_TRACKDIR E)
    ESR.empty.

(** ** Concrete worlds

    A row of tiles travelled towards the south-west along the X axis: the
    trackdir is [TRACKDIR_X_SW] and the tile index grows by one per tile.  The
    track helpers follow the tables of track_func.h. *)

Module World.

Definition TRACKDIR_X_SW : Trackdir := 8.

Fixpoint ctz (p : positive) : Z :=
  match p with xO q => 1 + ctz q | _ => 0 end.

Definition kill_first_bit (x : Z) : Z := Z.land x (x - 1).
Definition find_first_bit (x : Z) : Z := match x with Zpos p => ctz p | _ => 0 end.
Definition remove_first_trackdir (x : Z) : Z := if x =? 0 then 255 else find_first_bit x.
Definition next_trackdir (d : Z) : Z :=
  nth (Z.to_nat d) [0; 1; 3; 2; 5; 4; 255; 255; 8; 9; 11; 10; 13; 12] 255.
Definition trackdir_to_exitdir (d : Z) : Z :=
  nth (Z.to_nat d) [0; 1; 0; 1; 2; 1; 0; 0; 2; 3; 3; 2; 3; 0] 0.
Definition trackdir_crosses_trackdirs (d : Z) : Z :=
  nth (Z.to_nat (Z.land d 7)) [514; 257; 12336; 12336; 3084; 3084] 0.
Definition diagdir_reaches_tracks (d : Z) : Z :=
  nth (Z.to_nat d) [25; 22; 37; 42] 0.
Definition tile_offs_by_diagdir (d : Z) : Z :=
  nth (Z.to_nat d) [-1; 256; 1; -256] 0.
Definition track_overlaps_tracks (tracks track : Z) : bool :=
  Z.testbit tracks track
  || (let b := Z.lor tracks (Z.shiftl 1 track) in
      negb (kill_first_bit b =? 0) && negb (b =? 12) && negb (b =? 48)).

(** What a row of tiles looks like. *)
Record Layout := {
  last : TileIndex;                       (* the row is 0 .. last *)
  type_of : TileIndex -> TileType;
  signal : TileIndex -> Trackdir -> option (SignalState * SignalType);
  station_from : TileIndex;               (* platform tiles station_from .. station_to *)
  station_to : TileIndex;
  depot : TileIndex -> bool;
  choice_after : TileIndex -> bool;       (* a junction follows this tile *)
  slope : TileIndex -> bool;
  target : TileIndex -> bool;
  vehicle_length : Z;
  masking : bool
}.

Definition on_platform (l : Layout) (t : TileIndex) : bool :=
  (station_from l <=? t) && (t <=? station_to l).

(** The follower: one tile ahead, to the far end of a platform when the next
    tile is a station tile. *)
Definition follow (l : Layout) (t : TileIndex) (d : Trackdir) : bool * TrackFollower :=
  if last l <=? t then
    (false, Build_TrackFollower t d t 0 0 false EC_NO_WAY)
  else if choice_after l t then
    (true, Build_TrackFollower t d (t + 1) (256 + 1024) 0 false EC_NONE)
  else if on_platform l (t + 1) then
    (true, Build_TrackFollower t d (station_to l) 256 (station_to l - (t + 1)) true EC_NONE)
  else
    (true, Build_TrackFollower t d (t + 1) 256 0 false EC_NONE).

Definition signal_type_on (l : Layout) (t : TileIndex) (track : Track) : SignalType :=
  match signal l t track, signal l t (Z.lxor track 8) with
  | Some (_, ty), _ => ty
  | None, Some (_, ty) => ty
  | None, None => SIGTYPE_BLOCK
  end.

Definition env (l : Layout) : Env := {|
  INVALID_TILE := 4294967295;
  INVALID_TRACKDIR := 255;
  INVALID_RAILTYPE := 255;
  TRACK_BIT_NONE := 0;
  TRACKDIR_BIT_NONE := 0;
  YAPF_TILE_LENGTH := 100;
  YAPF_TILE_CORNER_LENGTH := 71;
  TILE_SIZE := 16;
  ESRF_POSSIBLE_TARGET := ESR.of_list [Depot; Waypoint; Station; SafeTile];
  ESRF_CACHED_MASK :=
    ESR.of_list [DeadEnd; RailType_; InfiniteLoop; SegmentTooLong; ChoiceFollows;
                 Depot; Waypoint; Station; SafeTile];
  ESRF_ABORT_PF_MASK := ESR.of_list [DeadEnd; PathTooLong; InfiniteLoop];
  KillFirstBit := kill_first_bit;
  FindFirstBit := find_first_bit;
  RemoveFirstTrackdir := remove_first_trackdir;
  HasTrackdir := fun bits d => Z.testbit bits d;
  TrackdirCrossesTrackdirs := trackdir_crosses_trackdirs;
  NextTrackdir := next_trackdir;
  ReverseTrackdir := fun d => Z.lxor d 8;
  TrackdirToTrack := fun d => Z.land d 7;
  TrackdirToExitdir := trackdir_to_exitdir;
  ReverseDiagDir := fun d => Z.lxor d 2;
  DiagdirReachesTracks := diagdir_reaches_tracks;
  IsDiagonalTrackdir := fun d => Z.land d 7 <? 2;
  TrackOverlapsTracks := track_overlaps_tracks;
  TileOffsByDiagDir := tile_offs_by_diagdir;
  Allow90degTurns := false;
  DoTrackMasking := masking l;
  Follow := follow l;
  GetSpeedLimit := fun _ => (2147483647, 0);
  FollowRail := follow l;
  GetTileType := type_of l;
  GetTileRailType := fun _ => 0;
  IsPlainRailTile := fun t => TileType_eqb (type_of l t) MP_RAILWAY
                              && match signal l t 8, signal l t 0 with
                                 | None, None => true
                                 | _, _ => false
                                 end;
  GetTrackBits := fun _ => 1;
  IsLevelCrossing := fun t => TileType_eqb (type_of l t) MP_ROAD;
  stSlopeCost := fun t _ => slope l t;
  HasStationReservation := fun _ => false;
  IsRailStationTile := on_platform l;
  GetReservedTrackbits := fun _ => 0;
  HasSignalOnTrackdir := fun t d => match signal l t d with Some _ => true | None => false end;
  IsOnewaySignal := fun t track =>
    match signal l t track, signal l t (Z.lxor track 8) with
    | Some _, Some _ => false
    | _, _ => true
    end;
  GetSignalStateByTrackdir := fun t d =>
    match signal l t d with Some (s, _) => s | None => SIGNAL_STATE_RED end;
  GetSignalType := signal_type_on l;
  IsRailDepot := depot l;
  IsRailDepotTile := depot l;
  IsRailWaypoint := fun _ => false;
  GetStationIndex := fun _ => 1;
  HasOnewaySignalBlockingTrackdir := fun t d =>
    match signal l t d, signal l t (Z.lxor d 8) with
    | None, Some _ => true
    | _, _ => false
    end;
  IsSafeWaitingPosition := fun _ _ _ _ => false;
  IsWaitingPositionFree := fun _ _ _ => true;
  GetPlatformLength := fun t _ =>
    if on_platform l t then station_to l - station_from l + 1 else 0;
  forbid_90_deg := true;
  cached_total_length := vehicle_length l;
  GetDisplayMaxSpeed := 100;
  order_IsGotoWaypoint := false;
  order_GetDestination := 1;
  order_GetMaxSpeed := 65535;
  Waypoint_IsSingleTile := fun _ => true;
  PfDetectDestination := fun t _ => target l t
|}.

(** The default values of pathfinding_settings.ini. *)
Definition default_settings : YAPFSettings := {|
  rail_firstred_twoway_eol := true;
  rail_firstred_penalty := 1000;
  rail_firstred_exit_penalty := 10000;
  rail_lastred_penalty := 1000;
  rail_lastred_exit_penalty := 10000;
  rail_station_penalty := 1000;
  rail_slope_penalty := 200;
  rail_curve45_penalty := 100;
  rail_curve90_penalty := 600;
  rail_depot_reverse_penalty := 5000;
  rail_crossing_penalty := 300;
  rail_look_ahead_max_signals := 10;
  rail_look_ahead_signal_p0 := 500;
  rail_look_ahead_signal_p1 := -100;
  rail_look_ahead_signal_p2 := 5;
  rail_pbs_cross_penalty := 300;
  rail_pbs_station_penalty := 800;
  rail_pbs_signal_back_penalty := 1500;
  rail_doubleslip_penalty := 100;
  rail_longer_platform_penalty := 800;
  rail_longer_platform_per_tile_penalty := 0;
  rail_shorter_platform_penalty := 4000;
  rail_shorter_platform_per_tile_penalty := 0
|}.

(** Modelled from the spec: the search node as its constructor leaves it
    (yapf_node_rail.hpp is not among the sources): a key, no cost yet, the
    per-node signal state handed down from the parent. *)
Definition node (E : Env) (t : TileIndex) (p : option Node) (signals : nat)
    (choice : bool) : Node :=
  ConnectNodeToCachedData
    (mkNode t TRACKDIR_X_SW p 0 (new_CachedData E) signals false choice false
       SIGTYPE_BLOCK SIGTYPE_PBS)
    (new_CachedData E).

(** A plain row: railway tiles, nothing on them. *)
Definition plain (n : TileIndex) : Layout := {|
  last := n;
  type_of := fun _ => MP_RAILWAY;
  signal := fun _ _ => None;
  station_from := -1;
  station_to := -2;
  depot := fun _ => false;
  choice_after := fun _ => false;
  slope := fun _ => false;
  target := fun _ => false;
  vehicle_length := 100;
  masking := false
|}.

Definition with_signal (l : Layout)
    (f : TileIndex -> Trackdir -> option (SignalState * SignalType)) : Layout := {|
  last := last l; type_of := type_of l; signal := f;
  station_from := station_from l; station_to := station_to l; depot := depot l;
  choice_after := choice_after l; slope := slope l; target := target l;
  vehicle_length := vehicle_length l; masking := masking l
|}.

(** One signal at tile 3: on the travel trackdir, on the reverse one, or both. *)
Definition signal_at_3 (along against : bool) (s : SignalState) (ty : SignalType)
    : TileIndex -> Trackdir -> option (SignalState * SignalType) :=
  fun t d =>
    if (t =? 3) && (((d =? 8) && along) || ((d =? 0) && against))
    then Some (s, ty) else None.

Definition with_look_ahead (s : YAPFSettings) (p0 p1 p2 : Z) : YAPFSettings := {|
  rail_firstred_twoway_eol := rail_firstred_twoway_eol s;
  rail_firstred_penalty := rail_firstred_penalty s;
  rail_firstred_exit_penalty := rail_firstred_exit_penalty s;
  rail_lastred_penalty := rail_lastred_penalty s;
  rail_lastred_exit_penalty := rail_lastred_exit_penalty s;
  rail_station_penalty := rail_station_penalty s;
  rail_slope_penalty := rail_slope_penalty s;
  rail_curve45_penalty := rail_curve45_penalty s;
  rail_curve90_penalty := rail_curve90_penalty s;
  rail_depot_reverse_penalty := rail_depot_reverse_penalty s;
  rail_crossing_penalty := rail_crossing_penalty s;
  rail_look_ahead_max_signals := rail_look_ahead_max_signals s;
  rail_look_ahead_signal_p0 := p0;
  rail_look_ahead_signal_p1 := p1;
  rail_look_ahead_signal_p2 := p2;
  rail_pbs_cross_penalty := rail_pbs_cross_penalty s;
  rail_pbs_station_penalty := rail_pbs_station_penalty s;
  rail_pbs_signal_back_penalty := rail_pbs_signal_back_penalty s;
  rail_doubleslip_penalty := rail_doubleslip_penalty s;
  rail_longer_platform_penalty := rail_longer_platform_penalty s;
  rail_longer_platform_per_tile_penalty := rail_longer_platform_per_tile_penalty s;
  rail_shorter_platform_penalty := rail_shorter_platform_penalty s;
  rail_shorter_platform_per_tile_penalty := rail_shorter_platform_per_tile_penalty s
|}.

(** The default settings with the widest look-ahead window of
    pathfinding_settings.ini (100 signals) and the three coefficients of the
    polynomial set to [p]. *)
Definition steep_look_ahead (p : Z) : YAPFSettings := {|
  rail_firstred_twoway_eol := rail_firstred_twoway_eol default_settings;
  rail_firstred_penalty := rail_firstred_penalty default_settings;
  rail_firstred_exit_penalty := rail_firstred_exit_penalty default_settings;
  rail_lastred_penalty := rail_lastred_penalty default_settings;
  rail_lastred_exit_penalty := rail_lastred_exit_penalty default_settings;
  rail_station_penalty := rail_station_penalty default_settings;
  rail_slope_penalty := rail_slope_penalty default_settings;
  rail_curve45_penalty := rail_curve45_penalty default_settings;
  rail_curve90_penalty := rail_curve90_penalty default_settings;
  rail_depot_reverse_penalty := rail_depot_reverse_penalty default_settings;
  rail_crossing_penalty := rail_crossing_penalty default_settings;
  rail_look_ahead_max_signals := 100;
  rail_look_ahead_signal_p0 := p;
  rail_look_ahead_signal_p1 := p;
  rail_look_ahead_signal_p2 := p;
  rail_pbs_cross_penalty := rail_pbs_cross_penalty default_settings;
  rail_pbs_station_penalty := rail_pbs_station_penalty default_settings;
  rail_pbs_signal_back_penalty := rail_pbs_signal_back_penalty default_settings;
  rail_doubleslip_penalty := rail_doubleslip_penalty default_settings;
  rail_longer_platform_penalty := rail_longer_platform_penalty default_settings;
  rail_longer_platform_per_tile_penalty :=
    rail_longer_platform_per_tile_penalty default_settings;
  rail_shorter_platform_penalty := rail_shorter_platform_penalty default_settings;
  rail_shorter_platform_per_tile_penalty :=
    rail_shorter_platform_per_tile_penalty default_settings
|}.

(** A row of ten tiles with one signal at tile 3. *)
Definition signalled (along against : bool) (s : SignalState) (ty : SignalType) : Env :=
  env (with_signal (plain 9) (signal_at_3 along against s ty)).

(** The pathfinder object with the default settings. *)
Definition yapf : Yapf := CYapfCostRailT default_settings.

(** A row of ten tiles with a junction after tile 4. *)
Definition junction_row : Layout := {|
  last := 9;
  type_of := fun _ => MP_RAILWAY;
  signal := fun _ _ => None;
  station_from := -1;
  station_to := -2;
  depot := fun _ => false;
  choice_after := fun t => t =? 4;
  slope := fun _ => false;
  target := fun _ => false;
  vehicle_length := 100;
  masking := false
|}.

(** The follower state handed to [PfCalcCost] for a node entered at tile [t]
    without skipping tiles. *)
Definition arriving (t : TileIndex) : TrackFollower :=
  Build_TrackFollower (t - 1) TRACKDIR_X_SW t 256 0 false EC_NONE.

(** A parent node that ended on tile [t] with cost [c], [signals] signals
    passed. *)
Definition parent_at (E : Env) (t : TileIndex) (c : Z) (signals : nat) : Node :=
  with_cost (node E t None signals true) c.

(** A cached segment that starts with tile 1 of [junction_row]: four tiles up
    to the junction. *)
Definition cached_to_junction : Seg.CachedData :=
  Seg.mk 400 4 TRACKDIR_X_SW 4294967295 255 (ESR.of_list [ChoiceFollows]).

(** A row with a five tile platform on tiles 2 .. 6, the destination of a
    vehicle five tiles long. *)
Definition platform_row : Layout := {|
  last := 9;
  type_of := fun t => if (2 <=? t) && (t <=? 6) then MP_STATION else MP_RAILWAY;
  signal := fun _ _ => None;
  station_from := 2;
  station_to := 6;
  depot := fun _ => false;
  choice_after := fun _ => false;
  slope := fun _ => false;
  target := fun t => t =? 6;
  vehicle_length := 80;
  masking := false
|}.

End World.

(** The look-ahead table of a pathfinder object is the one its constructor
    computed from the settings: the member is written nowhere else. *)
Definition constructed (Y : Yapf) : Prop :=
  sig_look_ahead_costs Y = sig_look_ahead_costs (CYapfCostRailT (PfGetSettings Y)).

(** The look-ahead polynomial over the integers. *)
Definition look_ahead_polynomial (s : YAPFSettings) (i : nat) : Z :=
  rail_look_ahead_signal_p0 s
  + Z.of_nat i * (rail_look_ahead_signal_p1 s + Z.of_nat i * rail_look_ahead_signal_p2 s).

(** The entry of the table for position [i], as the constructor computes it. *)
Definition look_ahead_entry (s : YAPFSettings) (i : nat) : Z :=
  look_ahead_term (rail_look_ahead_signal_p0 s) (rail_look_ahead_signal_p1 s)
    (rail_look_ahead_signal_p2 s) i.

(** The flat penalty of a red first signal, by signal category (lines 222-228). *)
Definition first_red_penalty (s : YAPFSettings) (t : SignalType) : Z :=
  match t with
  | SIGTYPE_COMBO | SIGTYPE_EXIT => rail_firstred_exit_penalty s
  | SIGTYPE_BLOCK | SIGTYPE_ENTRY => rail_firstred_penalty s
  | _ => 0
  end.

(** The penalty for the back of a path signal (lines 237-239), with [k]
    signals passed once the tile has been handled. *)
Definition signal_back_penalty (E : Env) (Y : Yapf) (tile : TileIndex) (trackdir : Trackdir)
    (k : nat) : Z :=
  if HasSignalOnTrackdir E tile (ReverseTrackdir E trackdir)
     && IsPbsSignal (GetSignalType E tile (TrackdirToTrack E trackdir))
  then (if Z.of_nat k <? rail_look_ahead_max_signals (PfGetSettings Y)
        then rail_pbs_signal_back_penalty (PfGetSettings Y) else 0)
  else 0.

(** What a caller can observe of a finished [PfCalcCost]: the return value, the
    node with its segment, and the cost parts. *)
Definition outcome (r : bool * L.Locals)
    : bool * Node * (Z * Z * Z) * EndSegmentReasons * bool :=
  (fst r, L.n (snd r),
   (L.segment_entry_cost (snd r), L.segment_cost (snd r), L.extra_cost (snd r)),
   L.end_segment_reason (snd r), L.target_seen (snd r)).

(** What the types of the collaborators guarantee: positive tile lengths,
    unsigned counts of skipped tiles and unsigned vehicle speeds. *)
Definition env_wf (E : Env) : Prop :=
  1 <= YAPF_TILE_LENGTH E
  /\ 1 <= YAPF_TILE_CORNER_LENGTH E
  /\ (forall t d, 0 <= tiles_skipped (snd (Follow E t d)))
  /\ 0 <= GetDisplayMaxSpeed E
  /\ 0 <= order_GetMaxSpeed E.


(** The cost parts are non-negative, the settings valid. *)
Definition costs_ok (ic : bool) (st : L.Locals) : Prop :=
  0 <= L.segment_entry_cost st
  /\ 0 <= L.segment_cost st
  /\ 0 <= L.extra_cost st
  /\ valid_settings (PfGetSettings (L.Y st))
  /\ 0 <= tiles_skipped (L.tf st)
  /\ (ic = true -> 0 <= Seg.cost (segment (L.n st))).

(** What [SignalCost] does to the end reasons of the segment once the
    look-ahead window is left: only the back of a one-way signal marks it. *)
Definition signal_reason (E : Env) (t : TileIndex) (d : Trackdir) (r : EndSegmentReasons)
    : EndSegmentReasons :=
  if IsTileType E t MP_RAILWAY
     && (HasSignalOnTrackdir E t (ReverseTrackdir E d)
         && negb (HasSignalOnTrackdir E t d)
         && IsOnewaySignal E t (TrackdirToTrack E d))
  then ESR.Set_ r DeadEnd else r.

(** A bit set that holds reasons of the enum only. *)
Definition esr_wf (r : EndSegmentReasons) : Prop := 0 <= r < 2 ^ 10.

(** A node served by the global segment cache: the gate holds and the node
    took over the signal count of its parent (signals are only ever added). *)
Definition eligible (Y : Yapf) (n : Node) : Prop :=
  CanUseGlobalCache Y n = true
  /\ match parent n with
     | Some p => (num_signals_passed p <= num_signals_passed n)%nat
     | None => False
     end.

(** Two nodes with the same key, entered from the same tile. *)
Definition same_entry (n1 n2 : Node) : Prop :=
  key_tile n1 = key_tile n2
  /\ key_td n1 = key_td n2
  /\ match parent n1, parent n2 with
     | Some p1, Some p2 => GetLastTile p1 = GetLastTile p2
     | _, _ => False
     end.

(** The part of the local state that the segment cost and the end reasons of a
    walk depend on once the node is beyond the look-ahead window. *)
Definition shared (st : L.Locals)
    : TrackFollower * TILE * TileIndex * Z * EndSegmentReasons * EndSegmentReasons
      * TileIndex * Trackdir :=
  (L.tf st, L.cur st, tile (L.prev st), L.segment_cost st, L.end_segment_reason st,
   Seg.end_segment_reason (segment (L.n st)), key_tile (L.n st), key_td (L.n st)).

(** The walk of a node beyond the look-ahead window, by pathfinder [Y]. *)
Definition beyond_look_ahead (Y : Yapf) (st : L.Locals) : Prop :=
  L.Y st = Y
  /\ (length (sig_look_ahead_costs Y) <= num_signals_passed (L.n st))%nat
  /\ esr_wf (L.end_segment_reason st)
  /\ esr_wf (Seg.end_segment_reason (segment (L.n st))).

(** A node connected to a segment that the cache has just created. *)
Definition fresh (E : Env) (n : Node) : Node :=
  ConnectNodeToCachedData n (new_CachedData E).

(** What [PfCalcCost] leaves alone in the node up to its last lines: the key,
    the parent, the cost and the flags of the node and the cost of its segment;
    signals are only ever counted upwards and no reason but [DeadEnd] is
    written to the segment. *)
Definition node_frame (n n' : Node) : Prop :=
  key_tile n' = key_tile n /\ key_td n' = key_td n /\ parent n' = parent n
  /\ cost n' = cost n /\ target_seen n' = target_seen n
  /\ choice_seen n' = choice_seen n
  /\ Seg.cost (segment n') = Seg.cost (segment n)
  /\ Seg.last_tile (segment n') = Seg.last_tile (segment n)
  /\ Seg.last_td (segment n') = Seg.last_td (segment n)
  /\ (num_signals_passed n <= num_signals_passed n')%nat
  /\ (forall e, e <> DeadEnd ->
        ESR.Test (Seg.end_segment_reason (segment n')) e
        = ESR.Test (Seg.end_segment_reason (segment n)) e).

(** What [PfCalcCost] leaves alone in the pathfinder object: everything but
    the record of a stop on a first red two-way signal, which needs the policy. *)
Definition yapf_frame (Y Y' : Yapf) : Prop :=
  PfGetSettings Y' = PfGetSettings Y /\ max_cost Y' = max_cost Y
  /\ disable_cache Y' = disable_cache Y
  /\ sig_look_ahead_costs Y' = sig_look_ahead_costs Y
  /\ treat_first_red_two_way_signal_as_eol Y' = treat_first_red_two_way_signal_as_eol Y
  /\ (stopped_on_first_two_way_signal Y' = true ->
      stopped_on_first_two_way_signal Y = true
      \/ TreatFirstRedTwoWaySignalAsEOL Y = true).

(** A map on which the follower only ever leads onto plain railway tiles. *)
Definition rails_only (E : Env) : Prop :=
  forall t d, fst (Follow E t d) = true ->
    IsTileType E (new_tile (snd (Follow E t d))) MP_RAILWAY = true.

(** * Properties *)

(** ** Bit sets of end-segment reasons *)

Lemma Test_Set_same (s : EndSegmentReasons) (r : EndSegmentReason) :
  ESR.Test (ESR.Set_ s r) r = true.
Proof.
  unfold ESR.Test, ESR.Set_. rewrite Z.lor_spec.
  destruct r; simpl; apply orb_true_r.
Qed.

Lemma Test_Set_other (s : EndSegmentReasons) (r r' : EndSegmentReason) :
  r <> r' -> ESR.Test (ESR.Set_ s r) r' = ESR.Test s r'.
Proof.
  intros Hne. unfold ESR.Test, ESR.Set_. rewrite Z.lor_spec.
  destruct r, r'; simpl; try apply orb_false_r; congruence.
Qed.

Lemma Test_Set_keeps (s : EndSegmentReasons) (r r' : EndSegmentReason) :
  ESR.Test s r' = true -> ESR.Test (ESR.Set_ s r) r' = true.
Proof.
  intros H. unfold ESR.Test, ESR.Set_ in *. rewrite Z.lor_spec, H. reflexivity.
Qed.

Lemma Test_empty (r : EndSegmentReason) : ESR.Test ESR.empty r = false.
Proof. destruct r; reflexivity. Qed.

Lemma Test_And (s m : EndSegmentReasons) (r : EndSegmentReason) :
  ESR.Test (ESR.And s m) r = ESR.Test s r && ESR.Test m r.
Proof. unfold ESR.Test, ESR.And. apply Z.land_spec. Qed.

Lemma Any_of_Test (s : EndSegmentReasons) (r : EndSegmentReason) :
  ESR.Test s r = true -> ESR.Any s = true.
Proof.
  unfold ESR.Test, ESR.Any. intros H.
  destruct (Z.eqb_spec s 0) as [->|]; [|reflexivity].
  rewrite Z.bits_0 in H. discriminate.
Qed.

(** ** The look-ahead table *)

Lemma fill_look_ahead_length (p0 p1 p2 : Z) (count i : nat) :
  length (fill_look_ahead p0 p1 p2 count i) = count.
Proof.
  revert i. induction count as [|c IH]; intros i; simpl; [reflexivity|].
  now rewrite IH.
Qed.

Lemma fill_look_ahead_nth (p0 p1 p2 : Z) (count i k : nat) :
  (k < count)%nat ->
  nth k (fill_look_ahead p0 p1 p2 count i) 0 = look_ahead_term p0 p1 p2 (i + k).
Proof.
  revert i k. induction count as [|c IH]; intros i k Hk; [lia|].
  destruct k as [|k]; simpl.
  - now rewrite Nat.add_0_r.
  - rewrite IH by lia. f_equal. lia.
Qed.

Lemma constructed_length (Y : Yapf) :
  constructed Y ->
  length (sig_look_ahead_costs Y) = Z.to_nat (rail_look_ahead_max_signals (PfGetSettings Y)).
Proof.
  unfold constructed. intros ->. simpl. apply fill_look_ahead_length.
Qed.

Lemma constructed_look_ahead_cost_at (Y : Yapf) (i : nat) :
  constructed Y ->
  look_ahead_cost_at Y i =
    if Z.of_nat i <? rail_look_ahead_max_signals (PfGetSettings Y)
    then look_ahead_entry (PfGetSettings Y) i else 0.
Proof.
  intros HY. unfold look_ahead_cost_at.
  rewrite (constructed_length Y HY).
  destruct (Nat.ltb_spec i (Z.to_nat (rail_look_ahead_max_signals (PfGetSettings Y))))
    as [Hlt|Hge];
    destruct (Z.ltb_spec (Z.of_nat i) (rail_look_ahead_max_signals (PfGetSettings Y)));
    try lia.
  rewrite HY. simpl. rewrite fill_look_ahead_nth by exact Hlt. reflexivity.
Qed.

Lemma int_of_uint32_mod (z : Z) :
  - 2 ^ 31 <= z < 2 ^ 31 -> int_of_uint32 (uint32_of z) = z.
Proof.
  intros Hz. unfold int_of_uint32, uint32_of.
  destruct (Z_lt_le_dec z 0) as [Hneg|Hpos].
  - assert (Hm : z mod 2 ^ 32 = z + 2 ^ 32).
    { symmetry. apply Z.mod_unique with (q := -1); lia. }
    rewrite Hm. destruct (Z.ltb_spec (z + 2 ^ 32) (2 ^ 31)); lia.
  - rewrite Z.mod_small by lia.
    destruct (Z.ltb_spec z (2 ^ 31)); lia.
Qed.

Lemma uint32_add_l (a b : Z) : uint32_of (uint32_of a + b) = uint32_of (a + b).
Proof. unfold uint32_of. apply Zplus_mod_idemp_l. Qed.

Lemma uint32_add_r (a b : Z) : uint32_of (a + uint32_of b) = uint32_of (a + b).
Proof. unfold uint32_of. apply Zplus_mod_idemp_r. Qed.

Lemma uint32_mul_l (a b : Z) : uint32_of (uint32_of a * b) = uint32_of (a * b).
Proof. unfold uint32_of. apply Zmult_mod_idemp_l. Qed.

Lemma uint32_mul_r (a b : Z) : uint32_of (a * uint32_of b) = uint32_of (a * b).
Proof. unfold uint32_of. apply Zmult_mod_idemp_r. Qed.

Lemma look_ahead_term_mod (p0 p1 p2 : Z) (i : nat) :
  look_ahead_term p0 p1 p2 i
  = int_of_uint32 (uint32_of (p0 + Z.of_nat i * (p1 + Z.of_nat i * p2))).
Proof.
  unfold look_ahead_term, uadd, umul. f_equal.
  set (u := Z.of_nat i).
  rewrite (uint32_mul_r (uint32_of u) p2), (uint32_mul_l u p2).
  rewrite (uint32_add_l p1), (uint32_add_r p1).
  rewrite (uint32_mul_r (uint32_of u)), (uint32_mul_l u).
  rewrite (uint32_add_l p0), (uint32_add_r p0).
  reflexivity.
Qed.

(** Inside the 32-bit range the table holds the polynomial itself. *)
Lemma look_ahead_entry_exact (s : YAPFSettings) (i : nat) :
  - 2 ^ 31 <= look_ahead_polynomial s i < 2 ^ 31 ->
  look_ahead_entry s i = look_ahead_polynomial s i.
Proof.
  intros H. unfold look_ahead_entry. rewrite look_ahead_term_mod.
  apply int_of_uint32_mod. exact H.
Qed.

(** With settings inside their ranges the polynomial fits an [int] up to
    position 45: [1000000 + 45 * (1000000 + 45 * 1000000) < 2 ^ 31]. *)
Lemma look_ahead_polynomial_fits (s : YAPFSettings) (i : nat) :
  valid_settings s -> (i <= 45)%nat ->
  - 2 ^ 31 <= look_ahead_polynomial s i < 2 ^ 31.
Proof.
  intros Hv Hi. unfold valid_settings in Hv.
  destruct Hv as (_ & _ & _ & _ & _ & _ & _ & _ & _ & _ & _ & H0 & H1 & H2 & _).
  unfold look_ahead_polynomial.
  assert (Ha : 0 <= Z.of_nat i <= 45) by lia.
  set (a := Z.of_nat i) in *.
  assert (Hb : -45000000 <= a * rail_look_ahead_signal_p2 s <= 45000000) by nia.
  assert (Hc : -2070000000
               <= a * (rail_look_ahead_signal_p1 s + a * rail_look_ahead_signal_p2 s)
               <= 2070000000) by nia.
  change (2 ^ 31) with 2147483648. lia.
Qed.

Lemma steep_look_ahead_valid (p : Z) :
  -1000000 <= p <= 1000000 -> valid_settings (World.steep_look_ahead p).
Proof. intros Hp. unfold valid_settings. simpl. lia. Qed.

(** ** Signal cost *)

(** C9: on a railway tile with a signal on the reverse trackdir, none on the
    travel trackdir, and that signal one-way, [SignalCost] marks the segment
    with the [DeadEnd] end-segment reason (and adds no cost). *)
Theorem SignalCost_oneway_against_is_dead_end
    (E : Env) (Y : Yapf) (n : Node) (tile : TileIndex) (trackdir : Trackdir) :
  IsTileType E tile MP_RAILWAY = true ->
  HasSignalOnTrackdir E tile (ReverseTrackdir E trackdir) = true ->
  HasSignalOnTrackdir E tile trackdir = false ->
  IsOnewaySignal E tile (TrackdirToTrack E trackdir) = true ->
  SignalCost E Y n tile trackdir = (0, segment_reason_Set n DeadEnd, Y)
  /\ ESR.Test (Seg.end_segment_reason
                 (segment (snd (fst (SignalCost E Y n tile trackdir))))) DeadEnd = true.
Proof.
  intros Hrail Hagainst Halong Hone.
  assert (Heq : SignalCost E Y n tile trackdir = (0, segment_reason_Set n DeadEnd, Y)).
  { unfold SignalCost. rewrite Hrail, Hagainst, Halong, Hone. reflexivity. }
  split; [exact Heq|].
  rewrite Heq. simpl. apply Test_Set_same.
Qed.

Lemma SignalCost_oneway_against_is_dead_end_witness :
  let E := World.signalled false true SIGNAL_STATE_RED SIGTYPE_BLOCK in
  let n := World.node E 0 None 0 false in
  SignalCost E World.yapf n 3 8 = (0, segment_reason_Set n DeadEnd, World.yapf)
  /\ ESR.Test (Seg.end_segment_reason
                 (segment (snd (fst (SignalCost E World.yapf n 3 8))))) DeadEnd = true.
Proof.
  intros E n.
  apply (SignalCost_oneway_against_is_dead_end E World.yapf n 3 8); reflexivity.
Defined.

(** C3, as stated, fails: a red two-way block signal that is the first signal
    of the path, with the end-of-line policy enabled, is not treated as a dead
    end when no choice was seen on the path; the red-signal penalties are
    added instead. *)
Lemma first_red_two_way_without_choice_is_not_eol :
  let E := World.signalled true true SIGNAL_STATE_RED SIGTYPE_BLOCK in
  let Y := SetTreatFirstRedTwoWaySignalAsEOL World.yapf true in
  let n := World.node E 0 None 0 false in
  (IsTileType E 3 MP_RAILWAY = true
   /\ HasSignalOnTrackdir E 3 8 = true
   /\ HasSignalOnTrackdir E 3 (ReverseTrackdir E 8) = true
   /\ GetSignalStateByTrackdir E 3 8 = SIGNAL_STATE_RED
   /\ IsPbsSignal (GetSignalType E 3 (TrackdirToTrack E 8)) = false
   /\ num_signals_passed n = 0%nat
   /\ TreatFirstRedTwoWaySignalAsEOL Y = true)
  /\ fst (fst (SignalCost E Y n 3 8)) = 1500
  /\ ESR.Test (Seg.end_segment_reason (segment (snd (fst (SignalCost E Y n 3 8)))))
       DeadEnd = false
  /\ stopped_on_first_two_way_signal (snd (SignalCost E Y n 3 8)) = false.
Proof. vm_compute. repeat split; reflexivity. Qed.

(** C3, amended: a red non-PBS signal along the travel direction with a signal
    on the reverse trackdir too, met as the first signal of the path after a
    choice was seen ([choice_seen]) and with the end-of-line policy enabled,
    aborts the branch: [SignalCost] returns -1 with [DeadEnd] set in the
    segment, before any red-signal state or penalty is recorded. *)
Theorem SignalCost_first_red_two_way_eol
    (E : Env) (Y : Yapf) (n : Node) (tile : TileIndex) (trackdir : Trackdir) :
  IsTileType E tile MP_RAILWAY = true ->
  HasSignalOnTrackdir E tile trackdir = true ->
  HasSignalOnTrackdir E tile (ReverseTrackdir E trackdir) = true ->
  GetSignalStateByTrackdir E tile trackdir = SIGNAL_STATE_RED ->
  IsPbsSignal (GetSignalType E tile (TrackdirToTrack E trackdir)) = false ->
  num_signals_passed n = 0%nat ->
  TreatFirstRedTwoWaySignalAsEOL Y = true ->
  choice_seen n = true ->
  let '(c, n', Y') := SignalCost E Y n tile trackdir in
  c = -1
  /\ ESR.Test (Seg.end_segment_reason (segment n')) DeadEnd = true
  /\ stopped_on_first_two_way_signal Y' = true
  /\ num_signals_passed n' = num_signals_passed n
  /\ last_signal_was_red n' = last_signal_was_red n
  /\ last_red_signal_type n' = last_red_signal_type n.
Proof.
  intros Hrail Halong Hagainst Hred Hpbs Hzero Hpol Hchoice.
  unfold SignalCost. rewrite Hrail, Halong, Hagainst. simpl.
  unfold SignalCost_along. rewrite Hred, Hpbs. simpl.
  rewrite Hpol, Hchoice, Hzero. simpl.
  repeat split; try reflexivity; try assumption. apply Test_Set_same.
Qed.

Lemma SignalCost_first_red_two_way_eol_witness :
  let E := World.signalled true true SIGNAL_STATE_RED SIGTYPE_BLOCK in
  let Y := SetTreatFirstRedTwoWaySignalAsEOL World.yapf true in
  let n := World.node E 0 None 0 true in
  let '(c, n', Y') := SignalCost E Y n 3 8 in
  c = -1
  /\ ESR.Test (Seg.end_segment_reason (segment n')) DeadEnd = true
  /\ stopped_on_first_two_way_signal Y' = true
  /\ num_signals_passed n' = num_signals_passed n
  /\ last_signal_was_red n' = last_signal_was_red n
  /\ last_red_signal_type n' = last_red_signal_type n.
Proof.
  intros E Y n.
  apply (SignalCost_first_red_two_way_eol E Y n 3 8); reflexivity.
Defined.

(** C6 does not hold as stated: the table that [SignalCost] reads is filled
    by the constructor in unsigned 32-bit arithmetic.  With the widest window
    and the largest coefficients of pathfinding_settings.ini the polynomial is
    positive at position 46, the stored entry is negative, and a green signal
    is charged for it. *)
Lemma green_signal_charged_for_positive_polynomial :
  let s := World.steep_look_ahead 1000000 in
  let E := World.signalled true false SIGNAL_STATE_GREEN SIGTYPE_BLOCK in
  let Y := CYapfCostRailT s in
  let n := World.node E 0 None 46 false in
  valid_settings s
  /\ (IsTileType E 3 MP_RAILWAY = true
      /\ HasSignalOnTrackdir E 3 8 = true
      /\ HasSignalOnTrackdir E 3 (ReverseTrackdir E 8) = false
      /\ GetSignalStateByTrackdir E 3 8 = SIGNAL_STATE_GREEN)
  /\ Z.of_nat (num_signals_passed n) < rail_look_ahead_max_signals s
  /\ look_ahead_polynomial s (num_signals_passed n) = 2163000000
  /\ look_ahead_entry s (num_signals_passed n) = 2163000000 - 2 ^ 32
  /\ fst (fst (SignalCost E Y n 3 8)) = 2131967296.
Proof.
  intros s E Y n.
  split; [apply steep_look_ahead_valid; lia|].
  split; [repeat split; reflexivity|].
  split; [vm_compute; reflexivity|].
  vm_compute. repeat split; reflexivity.
Qed.

(** C6, amended: at a green signal along the travel direction, with [i]
    signals passed so far, [SignalCost] adds the absolute value of the entry
    of the look-ahead table for position [i] exactly when [i] is below
    [rail_look_ahead_max_signals] and the entry is negative, and no look-ahead
    cost otherwise.  The entry is [p0 + i * (p1 + i * p2)] as the constructor
    computes it; it is the polynomial itself whenever that fits an [int],
    which settings inside their ranges guarantee up to position 45.  (The
    other summand is the penalty for the back of a two-way path signal.) *)
Theorem SignalCost_green_look_ahead
    (E : Env) (Y : Yapf) (n : Node) (tile : TileIndex) (trackdir : Trackdir) :
  constructed Y ->
  IsTileType E tile MP_RAILWAY = true ->
  HasSignalOnTrackdir E tile trackdir = true ->
  GetSignalStateByTrackdir E tile trackdir <> SIGNAL_STATE_RED ->
  let s := PfGetSettings Y in
  let i := num_signals_passed n in
  let value := look_ahead_entry s i in
  fst (fst (SignalCost E Y n tile trackdir))
  = (if (Z.of_nat i <? rail_look_ahead_max_signals s) && (value <? 0)
     then Z.abs value else 0)
    + signal_back_penalty E Y tile trackdir (S i)
  /\ (- 2 ^ 31 <= look_ahead_polynomial s i < 2 ^ 31 ->
      value = look_ahead_polynomial s i)
  /\ (valid_settings s -> (i <= 45)%nat -> value = look_ahead_polynomial s i).
Proof.
  intros HY Hrail Halong Hgreen s i value.
  split; [|split; [apply look_ahead_entry_exact|]].
  2:{ intros Hv Hi. apply look_ahead_entry_exact.
      apply look_ahead_polynomial_fits; assumption. }
  unfold SignalCost. rewrite Hrail, Halong.
  rewrite andb_false_r. simpl.
  unfold SignalCost_along.
  assert (Hred : is_red (GetSignalStateByTrackdir E tile trackdir) = false).
  { destruct (GetSignalStateByTrackdir E tile trackdir); [congruence|reflexivity]. }
  rewrite Hred. simpl.
  rewrite (constructed_look_ahead_cost_at Y (num_signals_passed n) HY).
  fold s i value. unfold signal_back_penalty. fold s.
  destruct (Z.of_nat i <? rail_look_ahead_max_signals s); simpl.
  - destruct (Z.ltb_spec value 0);
      destruct (HasSignalOnTrackdir E tile (ReverseTrackdir E trackdir)
                && IsPbsSignal (GetSignalType E tile (TrackdirToTrack E trackdir)));
      simpl; lia.
  - destruct (HasSignalOnTrackdir E tile (ReverseTrackdir E trackdir)
              && IsPbsSignal (GetSignalType E tile (TrackdirToTrack E trackdir)));
      simpl; lia.
Qed.

Lemma SignalCost_green_look_ahead_witness :
  let E := World.signalled true false SIGNAL_STATE_GREEN SIGTYPE_BLOCK in
  let Y := CYapfCostRailT (World.with_look_ahead World.default_settings (-300) 100 0) in
  let n := World.node E 0 None 2 false in
  fst (fst (SignalCost E Y n 3 8)) = 100
  /\ look_ahead_entry (PfGetSettings Y) (num_signals_passed n) = -100
  /\ look_ahead_polynomial (PfGetSettings Y) (num_signals_passed n) = -100.
Proof.
  intros E Y n.
  destruct (SignalCost_green_look_ahead E Y n 3 8) as (Hcost & Hval & _);
    [reflexivity | reflexivity | reflexivity | discriminate |].
  split; [rewrite Hcost; reflexivity|].
  cbv zeta in Hval. split; [|reflexivity].
  rewrite Hval; [reflexivity | vm_compute; split; [discriminate | reflexivity]].
Defined.

(** C7 does not hold as stated, for the same reason: at position 46 with the
    widest window, a red block signal is charged 2131967296 where the
    polynomial is negative, and nothing where the polynomial is positive. *)
Lemma red_signal_charged_against_polynomial_sign :
  let E := World.signalled true false SIGNAL_STATE_RED SIGTYPE_BLOCK in
  let n := World.node E 0 None 46 false in
  let below := World.steep_look_ahead (-1000000) in
  let above := World.steep_look_ahead 1000000 in
  (valid_settings below /\ valid_settings above)
  /\ (IsTileType E 3 MP_RAILWAY = true
      /\ HasSignalOnTrackdir E 3 8 = true
      /\ GetSignalStateByTrackdir E 3 8 = SIGNAL_STATE_RED
      /\ IsPbsSignal (GetSignalType E 3 (TrackdirToTrack E 8)) = false
      /\ HasSignalOnTrackdir E 3 (ReverseTrackdir E 8) = false
      /\ (num_signals_passed n =? 0)%nat = false)
  /\ Z.of_nat (num_signals_passed n) < rail_look_ahead_max_signals below
  /\ Z.of_nat (num_signals_passed n) < rail_look_ahead_max_signals above
  /\ look_ahead_polynomial below (num_signals_passed n) = -2163000000
  /\ fst (fst (SignalCost E (CYapfCostRailT below) n 3 8)) = 2131967296
  /\ look_ahead_polynomial above (num_signals_passed n) = 2163000000
  /\ fst (fst (SignalCost E (CYapfCostRailT above) n 3 8)) = 0.
Proof.
  intros E n below above.
  split; [split; apply steep_look_ahead_valid; lia|].
  split; [repeat split; reflexivity|].
  split; [vm_compute; reflexivity|].
  split; [vm_compute; reflexivity|].
  vm_compute. repeat split; reflexivity.
Qed.

(** C7, amended: at a red non-PBS signal along the travel direction that does
    not trigger the two-way end-of-line abort, [SignalCost] adds the entry of
    the look-ahead table for the position (0 from [rail_look_ahead_max_signals]
    on) only when it is positive and, exactly when the signal is the first one
    of the path, the flat first-red penalty of the signal category:
    [rail_firstred_exit_penalty] for exit and combo signals,
    [rail_firstred_penalty] for block and entry signals.  The entry is
    [p0 + i * (p1 + i * p2)] as the constructor computes it; it is the
    polynomial itself whenever that fits an [int], which settings inside
    their ranges guarantee up to position 45. *)
Theorem SignalCost_red_penalties
    (E : Env) (Y : Yapf) (n : Node) (tile : TileIndex) (trackdir : Trackdir) :
  constructed Y ->
  IsTileType E tile MP_RAILWAY = true ->
  HasSignalOnTrackdir E tile trackdir = true ->
  GetSignalStateByTrackdir E tile trackdir = SIGNAL_STATE_RED ->
  IsPbsSignal (GetSignalType E tile (TrackdirToTrack E trackdir)) = false ->
  TreatFirstRedTwoWaySignalAsEOL Y && choice_seen n
    && HasSignalOnTrackdir E tile (ReverseTrackdir E trackdir)
    && (num_signals_passed n =? 0)%nat = false ->
  let s := PfGetSettings Y in
  let i := num_signals_passed n in
  let ty := GetSignalType E tile (TrackdirToTrack E trackdir) in
  let value := if Z.of_nat i <? rail_look_ahead_max_signals s
               then look_ahead_entry s i else 0 in
  fst (fst (SignalCost E Y n tile trackdir))
  = (if 0 <? value then value else 0)
    + (if (i =? 0)%nat then first_red_penalty s ty else 0)
  /\ (ty = SIGTYPE_EXIT \/ ty = SIGTYPE_COMBO ->
      first_red_penalty s ty = rail_firstred_exit_penalty s)
  /\ (ty = SIGTYPE_BLOCK \/ ty = SIGTYPE_ENTRY ->
      first_red_penalty s ty = rail_firstred_penalty s)
  /\ (- 2 ^ 31 <= look_ahead_polynomial s i < 2 ^ 31 ->
      look_ahead_entry s i = look_ahead_polynomial s i)
  /\ (valid_settings s -> (i <= 45)%nat ->
      look_ahead_entry s i = look_ahead_polynomial s i).
Proof.
  intros HY Hrail Halong Hred Hpbs Hno s i ty value.
  split; [|split; [intros [-> | ->]; reflexivity|]].
  2:{ split; [intros [-> | ->]; reflexivity|].
      split; [apply look_ahead_entry_exact|].
      intros Hv Hi. apply look_ahead_entry_exact.
      apply look_ahead_polynomial_fits; assumption. }
  unfold SignalCost. rewrite Hrail, Halong.
  rewrite andb_false_r. simpl.
  unfold SignalCost_along. rewrite Hred. simpl.
  fold ty in Hpbs |- *. rewrite Hpbs. simpl.
  rewrite Hno. simpl.
  rewrite andb_false_r.
  rewrite (constructed_look_ahead_cost_at Y (num_signals_passed n) HY).
  fold s i value.
  destruct (0 <? value); destruct (i =? 0)%nat; simpl;
    destruct ty; simpl in *; try discriminate; lia.
Qed.

Lemma SignalCost_red_penalties_witness :
  let E := World.signalled true false SIGNAL_STATE_RED SIGTYPE_EXIT in
  let n := World.node E 0 None 0 true in
  fst (fst (SignalCost E World.yapf n 3 8)) = 500 + 10000
  /\ look_ahead_entry World.default_settings 0
     = look_ahead_polynomial World.default_settings 0.
Proof.
  intros E n.
  destruct (SignalCost_red_penalties E World.yapf n 3 8) as (Hcost & _ & _ & _ & Hfit);
    [reflexivity | reflexivity | reflexivity | reflexivity | reflexivity | reflexivity |].
  split; [rewrite Hcost; reflexivity|].
  apply Hfit; [unfold valid_settings; simpl; lia | simpl; lia].
Defined.

(** ** Platform length penalty *)

(** C8: with the vehicle length in tiles [CeilDiv(cached_total_length,
    TILE_SIZE)] and [k] that length minus the platform length,
    [PlatformLengthPenalty] is [rail_shorter_platform_penalty +
    rail_shorter_platform_per_tile_penalty * k] for [k > 0],
    [rail_longer_platform_penalty + rail_longer_platform_per_tile_penalty *
    (-k)] for [k < 0] and 0 for [k = 0]; a platform three tiles shorter than
    the vehicle costs the shorter-platform penalty plus three times its
    per-tile penalty. *)
Theorem PlatformLengthPenalty_exact (E : Env) (Y : Yapf) (platform_length : Z) :
  let s := PfGetSettings Y in
  let k := CeilDiv (cached_total_length E) (TILE_SIZE E) - platform_length in
  (0 < k -> PlatformLengthPenalty E Y platform_length
            = rail_shorter_platform_penalty s
              + rail_shorter_platform_per_tile_penalty s * k)
  /\ (k < 0 -> PlatformLengthPenalty E Y platform_length
               = rail_longer_platform_penalty s
                 + rail_longer_platform_per_tile_penalty s * (- k))
  /\ (k = 0 -> PlatformLengthPenalty E Y platform_length = 0)
  /\ (k = 3 -> PlatformLengthPenalty E Y platform_length
               = rail_shorter_platform_penalty s
                 + rail_shorter_platform_per_tile_penalty s * 3).
Proof.
  intros s k. unfold PlatformLengthPenalty. fold s k.
  destruct (Z.ltb_spec k 0); destruct (Z.ltb_spec 0 k);
    repeat split; intros; subst; try lia.
Qed.

Lemma PlatformLengthPenalty_exact_witness :
  let E := World.env (World.plain 9) in
  let Y := CYapfCostRailT World.default_settings in
  CeilDiv (cached_total_length E) (TILE_SIZE E) = 7
  /\ PlatformLengthPenalty E Y 4 = 4000 + 0 * 3
  /\ PlatformLengthPenalty E Y 9 = 800 + 0 * 2
  /\ PlatformLengthPenalty E Y 7 = 0.
Proof.
  intros E Y.
  destruct (PlatformLengthPenalty_exact E Y 4) as (_ & _ & _ & H3).
  destruct (PlatformLengthPenalty_exact E Y 9) as (_ & Hlong & _).
  destruct (PlatformLengthPenalty_exact E Y 7) as (_ & _ & H0 & _).
  split; [reflexivity|]. split; [|split].
  - rewrite H3; reflexivity.
  - rewrite Hlong; reflexivity.
  - rewrite H0; reflexivity.
Defined.

(** ** The gate of the global segment cache *)

(** C10: [CanUseGlobalCache] holds only when caching is not disabled, the node
    has a parent, and the parent has passed at least as many signals as the
    look-ahead table is long, which is [rail_look_ahead_max_signals]; so it
    fails for a root node and for a node whose parent is still inside the
    look-ahead window, and where it holds every signal position from the
    parent's count on has look-ahead cost 0. *)
Theorem CanUseGlobalCache_gate (Y : Yapf) (n : Node) :
  constructed Y ->
  let limit := rail_look_ahead_max_signals (PfGetSettings Y) in
  (CanUseGlobalCache Y n = true <->
     disable_cache Y = false
     /\ exists p, parent n = Some p /\ limit <= Z.of_nat (num_signals_passed p))
  /\ (parent n = None -> CanUseGlobalCache Y n = false)
  /\ (forall p, parent n = Some p -> Z.of_nat (num_signals_passed p) < limit ->
        CanUseGlobalCache Y n = false)
  /\ (CanUseGlobalCache Y n = true ->
        forall p i, parent n = Some p -> (num_signals_passed p <= i)%nat ->
          look_ahead_cost_at Y i = 0).
Proof.
  intros HY limit.
  pose proof (constructed_length Y HY) as Hlen. fold limit in Hlen.
  assert (Hiff : CanUseGlobalCache Y n = true <->
     disable_cache Y = false
     /\ exists p, parent n = Some p /\ limit <= Z.of_nat (num_signals_passed p)).
  { unfold CanUseGlobalCache. rewrite Hlen.
    destruct (disable_cache Y); simpl.
    - split; [discriminate | intros [H _]; discriminate].
    - destruct (parent n) as [p|].
      + destruct (Nat.leb_spec (Z.to_nat limit) (num_signals_passed p)).
        * split; [|reflexivity]. intros _. split; [reflexivity|].
          exists p. split; [reflexivity | lia].
        * split; [discriminate|]. intros (_ & q & Hq & Hle).
          injection Hq as <-. lia.
      + split; [discriminate|]. intros (_ & q & Hq & _). discriminate. }
  split; [exact Hiff|]. split; [|split].
  - intros Hroot. destruct (CanUseGlobalCache Y n); [|reflexivity].
    destruct (proj1 Hiff eq_refl) as (_ & p & Hp & _). congruence.
  - intros p Hp Hlt. destruct (CanUseGlobalCache Y n); [|reflexivity].
    destruct (proj1 Hiff eq_refl) as (_ & q & Hq & Hle).
    rewrite Hp in Hq. injection Hq as <-. lia.
  - intros Hc p i Hp Hi. apply Hiff in Hc. destruct Hc as (_ & q & Hq & Hle).
    rewrite Hp in Hq. injection Hq as <-.
    rewrite (constructed_look_ahead_cost_at Y i HY). fold limit.
    destruct (Z.ltb_spec (Z.of_nat i) limit); [lia | reflexivity].
Qed.

Lemma CanUseGlobalCache_gate_witness :
  let E := World.env (World.plain 9) in
  let p := World.node E 0 None 10 false in
  let n := World.node E 5 (Some p) 10 false in
  CanUseGlobalCache World.yapf n = true
  /\ CanUseGlobalCache World.yapf p = false
  /\ look_ahead_cost_at World.yapf 10 = 0.
Proof.
  intros E p n.
  destruct (CanUseGlobalCache_gate World.yapf n) as (Hiff & _ & _ & Hzero);
    [reflexivity|].
  destruct (CanUseGlobalCache_gate World.yapf p) as (_ & Hroot & _);
    [reflexivity|].
  assert (Hn : CanUseGlobalCache World.yapf n = true).
  { apply Hiff. split; [reflexivity|]. exists p. split; [reflexivity|].
    vm_compute. discriminate. }
  split; [exact Hn|]. split.
  - apply Hroot. reflexivity.
  - apply (Hzero Hn p 10%nat); [reflexivity | apply Nat.le_refl].
Defined.

(** ** The walk of PfCalcCost *)

Ltac break_match :=
  match goal with
  | |- context [if ?c then _ else _] => destruct c eqn:?
  | |- context [let '(_, _) := ?p in _] => destruct p eqn:?
  end.

(** Once [PathTooLong] is set, the pass ends the loop and keeps the reason. *)
Lemma next_tile_masking_keeps (E : Env) (Y : Yapf) (next : TILE) (r : EndSegmentReasons)
    (x : Z) (e : EndSegmentReason) :
  ESR.Test r e = true -> ESR.Test (fst (next_tile_masking E Y next r x)) e = true.
Proof.
  intros H. unfold next_tile_masking.
  repeat break_match; simpl; repeat apply Test_Set_keeps; exact H.
Qed.

(** Once [PathTooLong] is set, the pass ends the loop and keeps the reason. *)
Lemma advance_PathTooLong (E : Env) (st : L.Locals) :
  ESR.Test (L.end_segment_reason st) PathTooLong = true ->
  exists s, advance E st = Break s
            /\ ESR.Test (L.end_segment_reason s) PathTooLong = true.
Proof.
  intros H. unfold advance.
  destruct (Follow E (tile (L.cur st)) (td (L.cur st))) as [ok tf_local].
  pose proof (next_tile_masking_keeps E (L.Y st)
                (TILE_at E (new_tile tf_local) (FindFirstBit E (new_td_bits tf_local)))
                (L.end_segment_reason st) (L.extra_cost st) PathTooLong H) as Hm.
  destruct (next_tile_masking E (L.Y st)
              (TILE_at E (new_tile tf_local) (FindFirstBit E (new_td_bits tf_local)))
              (L.end_segment_reason st) (L.extra_cost st)) as [r x].
  simpl in Hm.
  repeat break_match;
    try (eexists; split; [reflexivity|]; simpl;
         repeat apply Test_Set_keeps; assumption).
  apply Any_of_Test in Hm. congruence.
Qed.

Lemma max_cost_check_sets (pc : Z) (st : L.Locals) :
  max_cost_exceeded pc st = true ->
  ESR.Test (L.end_segment_reason (max_cost_check pc st)) PathTooLong = true.
Proof.
  intros H. unfold max_cost_check. rewrite H. simpl. apply Test_Set_same.
Qed.

Lemma walk_after_prefix (E : Env) (pc : Z) (ic : bool) (k f : nat) (st st_k : L.Locals) :
  walk_prefix E pc ic k st = Some st_k ->
  walk E pc ic (k + f) st = walk E pc ic f st_k.
Proof.
  revert st. induction k as [|k IH]; intros st Hp; simpl in *.
  - now injection Hp as <-.
  - destruct (loop_tail E pc st) as [s|s]; [discriminate|].
    destruct (loop_head E ic s) as [s'|s']; [discriminate|].
    apply IH. exact Hp.
Qed.

Lemma finish_PathTooLong (E : Env) (pc : Z) (ic : bool) (st : L.Locals) :
  ESR.Test (L.end_segment_reason st) PathTooLong = true ->
  finish E pc ic st = (false, st).
Proof. intros H. unfold finish. rewrite H. reflexivity. Qed.

(** The last statement of [PfCalcCost] stores the sum of the four parts. *)
Lemma finish_accepts_sum (E : Env) (pc : Z) (ic : bool) (st st' : L.Locals) :
  finish E pc ic st = (true, st') ->
  cost (L.n st') = pc + L.segment_entry_cost st' + L.segment_cost st' + L.extra_cost st'.
Proof.
  unfold finish. intros H.
  repeat match type of H with
         | context [if ?c then _ else _] => destruct c eqn:?
         end;
    try discriminate; injection H as <-; reflexivity.
Qed.

Lemma PfCalcCost_finish (E : Env) (fuel : nat) (Y : Yapf) (n : Node) (tf : TrackFollower)
    (b : bool) (st : L.Locals) :
  PfCalcCost E fuel Y n tf = Some (b, st) ->
  exists s, finish E (parent_cost_of n) (0 <=? Seg.cost (segment n)) s = (b, st)
            /\ match PfCalcCost_enter E Y n tf with
               | Break s0 => s0 = s
               | Continue s0 =>
                   walk E (parent_cost_of n) (0 <=? Seg.cost (segment n)) fuel s0 = Some s
               end.
Proof.
  unfold PfCalcCost. intros H.
  destruct (PfCalcCost_enter E Y n tf) as [s0|s0].
  - exists s0. split; [congruence | reflexivity].
  - destruct (walk E (parent_cost_of n) (0 <=? Seg.cost (segment n)) fuel s0) as [s|];
      [|discriminate].
    exists s. split; [congruence | reflexivity].
Qed.

(** C4: a node accepted by [PfCalcCost] stores parent cost (zero for a root
    node) + segment entry cost + segment cost + extra cost; and when a positive
    [max_cost] is exceeded by parent cost + segment entry cost + segment cost
    at the test of some pass of a fresh segment walk, [PfCalcCost] returns
    false. *)
Theorem PfCalcCost_sum_and_max_cost
    (E : Env) (fuel : nat) (Y : Yapf) (n : Node) (tf : TrackFollower) :
  (forall st, PfCalcCost E fuel Y n tf = Some (true, st) ->
     cost (L.n st)
     = parent_cost_of n + L.segment_entry_cost st + L.segment_cost st + L.extra_cost st
     /\ (parent n = None -> parent_cost_of n = 0)
     /\ (forall p, parent n = Some p -> parent_cost_of n = cost p))
  /\ (forall k st0 st_k,
        Seg.cost (segment n) < 0 ->
        PfCalcCost_enter E Y n tf = Continue st0 ->
        walk_prefix E (parent_cost_of n) false k st0 = Some st_k ->
        max_cost_exceeded (parent_cost_of n) (at_max_cost_test E st_k) = true ->
        (k < fuel)%nat ->
        exists st, PfCalcCost E fuel Y n tf = Some (false, st)
                   /\ ESR.Test (L.end_segment_reason st) PathTooLong = true).
Proof.
  split.
  - intros st H. split; [|split].
    + apply PfCalcCost_finish in H. destruct H as (s & Hfin & _).
      apply finish_accepts_sum in Hfin. exact Hfin.
    + intros Hroot. unfold parent_cost_of. now rewrite Hroot.
    + intros p Hp. unfold parent_cost_of. now rewrite Hp.
  - intros k st0 st_k Hfresh Henter Hprefix Hexc Hfuel.
    assert (Hic : (0 <=? Seg.cost (segment n)) = false)
      by (apply Z.leb_gt; exact Hfresh).
    unfold PfCalcCost. rewrite Henter, Hic.
    replace fuel with (k + S (fuel - S k))%nat by lia.
    rewrite (walk_after_prefix E _ false k _ st0 st_k Hprefix).
    simpl. unfold loop_tail.
    destruct (advance_PathTooLong E
                (max_cost_check (parent_cost_of n) (at_max_cost_test E st_k)))
      as (s & Hadv & Hs).
    { apply max_cost_check_sets. exact Hexc. }
    unfold at_max_cost_test in Hadv. rewrite Hadv.
    exists s. split; [|exact Hs].
    now rewrite (finish_PathTooLong E _ false s Hs).
Qed.

Lemma PfCalcCost_sum_and_max_cost_witness :
  let E := World.env World.junction_row in
  let n := World.node E 0 None 0 false in
  (exists st, PfCalcCost E 20 World.yapf n (World.arriving 0) = Some (true, st)
              /\ cost (L.n st) = 0 + 0 + 500 + 0)
  /\ (exists st, PfCalcCost E 20 (SetMaxCost World.yapf 250) n (World.arriving 0)
                 = Some (false, st)
                 /\ ESR.Test (L.end_segment_reason st) PathTooLong = true).
Proof.
  intros E n. split.
  - destruct (PfCalcCost E 20 World.yapf n (World.arriving 0)) as [[b st]|] eqn:Hrun;
      [|vm_compute in Hrun; discriminate].
    assert (Hb : b = true) by (vm_compute in Hrun; congruence). subst b.
    exists st. split; [reflexivity|].
    destruct (PfCalcCost_sum_and_max_cost E 20 World.yapf n (World.arriving 0))
      as [Hsum _].
    destruct (Hsum st Hrun) as (Hcost & _ & _). rewrite Hcost.
    vm_compute in Hrun. injection Hrun as <-. reflexivity.
  - destruct (PfCalcCost_sum_and_max_cost E 20 (SetMaxCost World.yapf 250) n
                (World.arriving 0)) as [_ Hmax].
    apply (Hmax 2%nat (PfCalcCost_init E (SetMaxCost World.yapf 250) n (World.arriving 0))
             (match walk_prefix E 0 false 2
                      (PfCalcCost_init E (SetMaxCost World.yapf 250) n (World.arriving 0))
              with Some s => s | None => PfCalcCost_init E World.yapf n (World.arriving 0)
              end)).
    + vm_compute. reflexivity.
    + reflexivity.
    + vm_compute. reflexivity.
    + vm_compute. reflexivity.
    + lia.
Defined.

(** ** Cached segments *)

Lemma PfCalcCost_enter_cached (E : Env) (Y : Yapf) (n p : Node) (tf : TrackFollower) :
  parent n = Some p -> 0 <= Seg.cost (segment n) ->
  exists s, PfCalcCost_enter E Y n tf = Break s
            /\ L.segment_cost s = Seg.cost (segment n)
            /\ L.end_segment_reason s = Seg.end_segment_reason (segment n)
            /\ L.extra_cost s = 0
            /\ segment (L.n s) = segment n
            /\ tile (L.cur s) = GetLastTile n /\ td (L.cur s) = GetLastTrackdir n
            /\ PfGetSettings (L.Y s) = PfGetSettings Y
            /\ L.segment_entry_cost s
               = CurveCost E Y (GetLastTrackdir p) (key_td n)
                 + SwitchCost E Y (GetLastTile p) (key_tile n)
                     (TrackdirToExitdir E (GetLastTrackdir p)).
Proof.
  intros Hp Hc. unfold PfCalcCost_enter. rewrite Hp.
  assert (Hic : (0 <=? Seg.cost (segment n)) = true) by (apply Z.leb_le; exact Hc).
  rewrite Hic. unfold loop_head, PfCalcCost_init. rewrite Hp. simpl.
  eexists. split; [reflexivity|]. simpl.
  repeat split; try reflexivity;
    repeat break_match; reflexivity.
Qed.

(** Past the [PathTooLong] test, a node is rejected only for an abort reason
    without target. *)
Lemma finish_accept_formula (E : Env) (pc : Z) (ic : bool) (st : L.Locals) :
  ESR.Test (L.end_segment_reason st) PathTooLong = false ->
  fst (finish E pc ic st)
  = L.target_seen (snd (finish E pc ic st))
    || negb (ESR.AnyOf (L.end_segment_reason st) (ESRF_ABORT_PF_MASK E)).
Proof.
  intros Hptl. unfold finish. rewrite Hptl.
  destruct (if ESR.AnyOf (L.end_segment_reason st) (ESRF_POSSIBLE_TARGET E)
            then PfDetectDestination E (tile (L.cur st)) (td (L.cur st))
            else false); simpl.
  - repeat break_match; reflexivity.
  - destruct (ESR.AnyOf (L.end_segment_reason st) (ESRF_ABORT_PF_MASK E));
      reflexivity.
Qed.

(** C5: a node with a parent that is priced from a valid cached segment
    ([segment.cost >= 0]) leaves the loop before the first maximum cost test;
    its segment cost and end reason are the cached ones, the outcome of
    [PfCalcCost] is the same under every [max_cost] bound, and the node is
    accepted whenever the target is seen or the cached reasons hold no abort
    reason, whatever parent cost + entry cost + cached cost amounts to. *)
Theorem PfCalcCost_cached_ignores_max_cost
    (E : Env) (fuel : nat) (Y : Yapf) (n p : Node) (tf : TrackFollower) (m : Z) :
  parent n = Some p ->
  0 <= Seg.cost (segment n) ->
  exists r : bool * L.Locals,
    PfCalcCost E fuel (SetMaxCost Y m) n tf = Some r
    /\ (exists s, PfCalcCost_enter E (SetMaxCost Y m) n tf = Break s)
    /\ L.segment_cost (snd r) = Seg.cost (segment n)
    /\ L.end_segment_reason (snd r) = Seg.end_segment_reason (segment n)
    /\ (forall m', option_map outcome (PfCalcCost E fuel (SetMaxCost Y m') n tf)
                   = Some (outcome r))
    /\ (ESR.Test (Seg.end_segment_reason (segment n)) PathTooLong = false ->
        fst r = L.target_seen (snd r)
                || negb (ESR.AnyOf (Seg.end_segment_reason (segment n))
                           (ESRF_ABORT_PF_MASK E))).
Proof.
  intros Hp Hc.
  assert (Hic : (0 <=? Seg.cost (segment n)) = true) by (apply Z.leb_le; exact Hc).
  set (sm := fun m' =>
         match loop_head E true (PfCalcCost_init E (SetMaxCost Y m') n tf) with
         | Break s => s | Continue s => s end).
  assert (Hhead : forall m',
            loop_head E true (PfCalcCost_init E (SetMaxCost Y m') n tf) = Break (sm m')).
  { intros m'. unfold sm, loop_head, PfCalcCost_init. rewrite Hp. reflexivity. }
  assert (Hrun : forall m',
            PfCalcCost E fuel (SetMaxCost Y m') n tf
            = Some (finish E (parent_cost_of n) true (sm m'))).
  { intros m'. unfold PfCalcCost, PfCalcCost_enter. rewrite Hp, Hic, Hhead. reflexivity. }
  assert (Hcost : L.segment_cost (sm m) = Seg.cost (segment n)).
  { unfold sm, loop_head, PfCalcCost_init. rewrite Hp. reflexivity. }
  assert (Hreason : L.end_segment_reason (sm m) = Seg.end_segment_reason (segment n)).
  { unfold sm, loop_head, PfCalcCost_init. rewrite Hp. reflexivity. }
  assert (Hkeep : L.segment_cost (snd (finish E (parent_cost_of n) true (sm m)))
                  = L.segment_cost (sm m)
                  /\ L.end_segment_reason (snd (finish E (parent_cost_of n) true (sm m)))
                     = L.end_segment_reason (sm m)).
  { unfold finish. repeat break_match; simpl; split; reflexivity. }
  destruct Hkeep as [Hk1 Hk2].
  exists (finish E (parent_cost_of n) true (sm m)).
  split; [apply Hrun|]. split.
  { exists (sm m). unfold PfCalcCost_enter. rewrite Hp, Hic. apply Hhead. }
  split; [now rewrite Hk1|]. split; [now rewrite Hk2|]. split.
  - intros m'. rewrite Hrun. simpl. f_equal.
    unfold sm, loop_head, PfCalcCost_init, finish, outcome. rewrite Hp. simpl.
    unfold PlatformLengthPenalty. simpl.
    repeat break_match; reflexivity.
  - intros Hptl. rewrite <- Hreason. rewrite <- Hreason in Hptl.
    apply finish_accept_formula. exact Hptl.
Qed.

Lemma PfCalcCost_cached_ignores_max_cost_witness :
  let E := World.env World.junction_row in
  let p := World.parent_at E 0 5000 10 in
  let n := ConnectNodeToCachedData (World.node E 1 (Some p) 10 true)
             World.cached_to_junction in
  exists r, PfCalcCost E 0 (SetMaxCost World.yapf 1000) n (World.arriving 1) = Some r
            /\ fst r = true
            /\ cost (L.n (snd r)) = 5000 + 0 + 400 + 0
            /\ max_cost (L.Y (snd r)) = 1000.
Proof.
  intros E p n.
  destruct (PfCalcCost_cached_ignores_max_cost E 0 World.yapf n p (World.arriving 1) 1000)
    as (r & Hrun & _ & _ & _ & _ & Hacc); [reflexivity | vm_compute; discriminate |].
  exists r. split; [exact Hrun|].
  vm_compute in Hrun. injection Hrun as <-. repeat split; reflexivity.
Defined.

(** ** Walks beyond the look-ahead window *)

Local Arguments Z.of_nat : simpl never.

Lemma esr_wf_empty : esr_wf ESR.empty.
Proof. unfold esr_wf, ESR.empty. lia. Qed.

Lemma esr_wf_Set (r : EndSegmentReasons) (e : EndSegmentReason) :
  esr_wf r -> esr_wf (ESR.Set_ r e).
Proof.
  unfold esr_wf, ESR.Set_. intros [Hlo Hhi].
  assert (Hb : 0 < Z.shiftl 1 (esr_bit e) < 2 ^ 10) by (destruct e; simpl; lia).
  split.
  - apply Z.lor_nonneg. lia.
  - destruct (Z.eq_dec r 0) as [->|Hr]; [rewrite Z.lor_0_l; lia|].
    apply Z.log2_lt_pow2.
    + assert (0 <= Z.lor r (Z.shiftl 1 (esr_bit e))) by (apply Z.lor_nonneg; lia).
      assert (Z.lor r (Z.shiftl 1 (esr_bit e)) <> 0).
      { intros Hz. apply Z.lor_eq_0_iff in Hz. lia. }
      lia.
    + rewrite Z.log2_lor by lia.
      apply Z.max_lub_lt; apply Z.log2_lt_pow2; lia.
Qed.

(** Masking with a mask that holds every reason but [PathTooLong] changes
    nothing in a set without [PathTooLong]. *)
Lemma And_cached_mask (r m : EndSegmentReasons) :
  esr_wf r ->
  ESR.Test r PathTooLong = false ->
  (forall e, e <> PathTooLong -> ESR.Test m e = true) ->
  ESR.And r m = r.
Proof.
  intros [Hlo Hhi] Hptl Hm. unfold ESR.And.
  apply Z.bits_inj'. intros i Hi. rewrite Z.land_spec.
  destruct (Z.testbit r i) eqn:Hbit; [|reflexivity]. simpl.
  assert (Hlt : i < 10).
  { destruct (Z_lt_le_dec i 10) as [|Hge]; [assumption|].
    destruct (Z.eq_dec r 0) as [->|Hr]; [rewrite Z.bits_0 in Hbit; discriminate|].
    rewrite Z.bits_above_log2 in Hbit; [discriminate | lia |].
    assert (Z.log2 r < 10) by (apply Z.log2_lt_pow2; lia). lia. }
  unfold ESR.Test in *.
  assert (Hcases : i = 0 \/ i = 1 \/ i = 2 \/ i = 3 \/ i = 4 \/ i = 5 \/ i = 6
                   \/ i = 7 \/ i = 8 \/ i = 9) by lia.
  destruct Hcases as [->|[->|[->|[->|[->|[->|[->|[->|[->| ->]]]]]]]]].
  - apply (Hm DeadEnd); discriminate.
  - apply (Hm RailType_); discriminate.
  - apply (Hm InfiniteLoop); discriminate.
  - apply (Hm SegmentTooLong); discriminate.
  - apply (Hm ChoiceFollows); discriminate.
  - apply (Hm Depot); discriminate.
  - apply (Hm Waypoint); discriminate.
  - apply (Hm Station); discriminate.
  - apply (Hm SafeTile); discriminate.
  - cbn [esr_bit] in Hptl. congruence.
Qed.

Lemma signal_reason_wf (E : Env) (t : TileIndex) (d : Trackdir) (r : EndSegmentReasons) :
  esr_wf r -> esr_wf (signal_reason E t d r).
Proof.
  intros H. unfold signal_reason. break_match; [apply esr_wf_Set|]; exact H.
Qed.

(** Beyond the look-ahead window [SignalCost] costs nothing and leaves the
    pathfinder object alone; what it does to the segment depends on the map
    only. *)
Lemma SignalCost_beyond_look_ahead
    (E : Env) (Y : Yapf) (n : Node) (t : TileIndex) (d : Trackdir) :
  constructed Y ->
  1 <= rail_look_ahead_max_signals (PfGetSettings Y) ->
  (length (sig_look_ahead_costs Y) <= num_signals_passed n)%nat ->
  exists n',
    SignalCost E Y n t d = (0, n', Y)
    /\ (num_signals_passed n <= num_signals_passed n')%nat
    /\ key_tile n' = key_tile n /\ key_td n' = key_td n
    /\ Seg.end_segment_reason (segment n')
       = signal_reason E t d (Seg.end_segment_reason (segment n)).
Proof.
  intros HY Hmax Hgate.
  pose proof (constructed_length Y HY) as Hlen.
  assert (Hpos : (num_signals_passed n =? 0)%nat = false).
  { apply Nat.eqb_neq. lia. }
  assert (Hla : look_ahead_cost_at Y (num_signals_passed n) = 0).
  { unfold look_ahead_cost_at.
    destruct (Nat.ltb_spec (num_signals_passed n) (length (sig_look_ahead_costs Y)));
      [lia | reflexivity]. }
  assert (Hback : forall k, (num_signals_passed n <= k)%nat ->
            (Z.of_nat k <? rail_look_ahead_max_signals (PfGetSettings Y)) = false).
  { intros k Hk. apply Z.ltb_ge. lia. }
  unfold SignalCost, signal_reason.
  destruct (IsTileType E t MP_RAILWAY); simpl;
    [|exists n; repeat split; reflexivity || lia].
  destruct (HasSignalOnTrackdir E t (ReverseTrackdir E d)) eqn:Hag;
    destruct (HasSignalOnTrackdir E t d) eqn:Hal; simpl.
  - unfold SignalCost_along. simpl. rewrite Hla, Hpos. simpl.
    rewrite !andb_false_r.
    destruct (is_red (GetSignalStateByTrackdir E t d)); simpl;
      rewrite (Hback (S (num_signals_passed n))) by lia;
      destruct (IsPbsSignal (GetSignalType E t (TrackdirToTrack E d)));
      eexists; (split; [reflexivity|]); simpl; repeat split; lia.
  - destruct (IsOnewaySignal E t (TrackdirToTrack E d)); simpl.
    + eexists. split; [reflexivity|]. simpl. repeat split; lia.
    + rewrite (Hback (num_signals_passed n)) by lia.
      destruct (IsPbsSignal (GetSignalType E t (TrackdirToTrack E d)));
        eexists; (split; [reflexivity|]); simpl; repeat split; lia.
  - unfold SignalCost_along. simpl. rewrite Hla, Hpos. simpl.
    rewrite !andb_false_r.
    destruct (is_red (GetSignalStateByTrackdir E t d)); simpl;
      eexists; (split; [reflexivity|]); simpl; repeat split; lia.
  - exists n. repeat split; reflexivity || lia.
Qed.

Lemma ReservationCost_beyond_look_ahead
    (E : Env) (Y : Yapf) (n : Node) (t : TileIndex) (d : Trackdir) (skipped : Z) :
  (length (sig_look_ahead_costs Y) <= num_signals_passed n)%nat ->
  ReservationCost E Y n t d skipped = 0.
Proof.
  intros Hgate. unfold ReservationCost.
  destruct (Nat.leb_spec (length (sig_look_ahead_costs Y) / 2) (num_signals_passed n))
    as [|Hlt]; [reflexivity|].
  exfalso.
  assert ((length (sig_look_ahead_costs Y) / 2 <= length (sig_look_ahead_costs Y))%nat).
  { apply Nat.Div0.div_le_upper_bound. lia. }
  lia.
Qed.

Lemma shared_inv (st1 st2 : L.Locals) :
  shared st1 = shared st2 ->
  L.tf st1 = L.tf st2 /\ L.cur st1 = L.cur st2
  /\ tile (L.prev st1) = tile (L.prev st2)
  /\ L.segment_cost st1 = L.segment_cost st2
  /\ L.end_segment_reason st1 = L.end_segment_reason st2
  /\ Seg.end_segment_reason (segment (L.n st1)) = Seg.end_segment_reason (segment (L.n st2))
  /\ key_tile (L.n st1) = key_tile (L.n st2)
  /\ key_td (L.n st1) = key_td (L.n st2).
Proof. unfold shared. intros H. injection H as H1 H2 H3 H4 H5 H6 H7 H8. tauto. Qed.

Ltac use_shared H :=
  let H1 := fresh "Htf" in let H2 := fresh "Hcur" in let H3 := fresh "Hprev" in
  let H4 := fresh "Hsc" in let H5 := fresh "Hr" in let H6 := fresh "Hsr" in
  let H7 := fresh "Hkt" in let H8 := fresh "Hkd" in
  destruct (shared_inv _ _ H) as (H1 & H2 & H3 & H4 & H5 & H6 & H7 & H8).

Section BeyondLookAhead.

Variable E : Env.
Variable Y : Yapf.
Hypothesis HY : constructed Y.
Hypothesis Hmax : 1 <= rail_look_ahead_max_signals (PfGetSettings Y).

Lemma tile_costs_beyond (st : L.Locals) :
  beyond_look_ahead Y st ->
  beyond_look_ahead Y (tile_costs E st)
  /\ L.tf (tile_costs E st) = L.tf st
  /\ L.cur (tile_costs E st) = L.cur st
  /\ L.prev (tile_costs E st) = L.prev st
  /\ L.extra_cost (tile_costs E st) = L.extra_cost st
  /\ L.segment_entry_cost (tile_costs E st) = L.segment_entry_cost st
  /\ key_tile (L.n (tile_costs E st)) = key_tile (L.n st)
  /\ key_td (L.n (tile_costs E st)) = key_td (L.n st)
  /\ L.segment_cost (tile_costs E st)
     = L.segment_cost st + OneTileCost E Y (tile (L.cur st)) (td (L.cur st))
       + YAPF_TILE_LENGTH E * tiles_skipped (L.tf st)
       + SlopeCost E Y (tile (L.cur st)) (td (L.cur st))
  /\ L.end_segment_reason (tile_costs E st)
     = signal_reason E (tile (L.cur st)) (td (L.cur st))
         (Seg.end_segment_reason (segment (L.n st)))
  /\ Seg.end_segment_reason (segment (L.n (tile_costs E st)))
     = signal_reason E (tile (L.cur st)) (td (L.cur st))
         (Seg.end_segment_reason (segment (L.n st))).
Proof.
  intros (HYst & Hgate & Hwf & Hswf).
  destruct (SignalCost_beyond_look_ahead E Y (L.n st) (tile (L.cur st)) (td (L.cur st))
              HY Hmax Hgate) as (n' & Hsig & Hn & Hkt & Hkd & Hreason).
  unfold tile_costs. rewrite HYst, Hsig.
  rewrite ReservationCost_beyond_look_ahead by lia.
  split.
  { split; [reflexivity|]. split; [simpl; lia|]. simpl. rewrite Hreason.
    split; apply signal_reason_wf; assumption. }
  simpl. repeat split; try assumption; try lia.
Qed.

Lemma target_reasons_beyond (st : L.Locals) :
  beyond_look_ahead Y st -> beyond_look_ahead Y (target_reasons E st).
Proof.
  intros (HYst & Hgate & Hwf & Hswf). unfold target_reasons, beyond_look_ahead.
  repeat break_match; simpl;
    (split; [assumption|]); (split; [assumption|]); (split; [|assumption]);
    try apply esr_wf_Set; assumption.
Qed.

Lemma target_reasons_shared (st1 st2 : L.Locals) :
  L.Y st1 = L.Y st2 -> shared st1 = shared st2 ->
  shared (target_reasons E st1) = shared (target_reasons E st2).
Proof.
  intros HYeq Hsh. use_shared Hsh.
  unfold target_reasons, shared. rewrite HYeq, Htf, Hcur, Hprev, Hsc, Hr.
  repeat break_match; simpl; congruence.
Qed.

Lemma speed_penalties_beyond (st : L.Locals) :
  beyond_look_ahead Y st ->
  speed_penalties E st = st.
Proof.
  intros (HYst & Hgate & _). unfold speed_penalties. rewrite HYst.
  destruct (Nat.ltb_spec (num_signals_passed (L.n st)) (length (sig_look_ahead_costs Y)));
    [lia | reflexivity].
Qed.

(** The state at the maximum cost test: what the walk depends on is the same
    for two nodes beyond the look-ahead window. *)
Lemma at_max_cost_test_shared (st1 st2 : L.Locals) :
  beyond_look_ahead Y st1 -> beyond_look_ahead Y st2 ->
  shared st1 = shared st2 ->
  beyond_look_ahead Y (at_max_cost_test E st1)
  /\ beyond_look_ahead Y (at_max_cost_test E st2)
  /\ shared (at_max_cost_test E st1) = shared (at_max_cost_test E st2).
Proof.
  intros Hb1 Hb2 Hsh. use_shared Hsh.
  destruct (tile_costs_beyond st1 Hb1)
    as (Hb1' & T1 & C1 & P1 & X1 & N1 & K1 & D1 & S1 & R1 & SR1).
  destruct (tile_costs_beyond st2 Hb2)
    as (Hb2' & T2 & C2 & P2 & X2 & N2 & K2 & D2 & S2 & R2 & SR2).
  pose proof (target_reasons_beyond _ Hb1') as Hb1''.
  pose proof (target_reasons_beyond _ Hb2') as Hb2''.
  unfold at_max_cost_test.
  rewrite (speed_penalties_beyond _ Hb1''), (speed_penalties_beyond _ Hb2'').
  split; [exact Hb1''|]. split; [exact Hb2''|].
  apply target_reasons_shared.
  - destruct Hb1' as [-> _]. destruct Hb2' as [-> _]. reflexivity.
  - unfold shared. rewrite T1, T2, C1, C2, P1, P2, K1, K2, D1, D2, S1, S2, R1, R2, SR1, SR2.
    congruence.
Qed.

Lemma next_tile_masking_fst (next : TILE) (r : EndSegmentReasons) (x x' : Z) :
  fst (next_tile_masking E Y next r x) = fst (next_tile_masking E Y next r x').
Proof. unfold next_tile_masking. repeat break_match; reflexivity. Qed.

Lemma next_tile_masking_wf (Y' : Yapf) (next : TILE) (r : EndSegmentReasons) (x : Z) :
  esr_wf r -> esr_wf (fst (next_tile_masking E Y' next r x)).
Proof.
  intros H. unfold next_tile_masking.
  repeat break_match; simpl; repeat apply esr_wf_Set; exact H.
Qed.

Lemma advance_wf (st : L.Locals) :
  esr_wf (L.end_segment_reason st) ->
  match advance E st with
  | Break s | Continue s => esr_wf (L.end_segment_reason s)
  end.
Proof.
  intros Hwf. unfold advance.
  destruct (Follow E (tile (L.cur st)) (td (L.cur st))) as [ok tf_local].
  pose proof (next_tile_masking_wf (L.Y st)
                (TILE_at E (new_tile tf_local) (FindFirstBit E (new_td_bits tf_local)))
                (L.end_segment_reason st) (L.extra_cost st) Hwf) as Hm.
  destruct (next_tile_masking E (L.Y st)
              (TILE_at E (new_tile tf_local) (FindFirstBit E (new_td_bits tf_local)))
              (L.end_segment_reason st) (L.extra_cost st)) as [r x].
  simpl in Hm.
  repeat break_match; simpl; repeat apply esr_wf_Set; assumption.
Qed.

(** One step to the next tile: two walks that share what the walk depends on
    close the segment alike, or go on alike. *)
Lemma advance_shared (st1 st2 : L.Locals) :
  beyond_look_ahead Y st1 -> beyond_look_ahead Y st2 ->
  shared st1 = shared st2 ->
  match advance E st1, advance E st2 with
  | Break s1, Break s2 =>
      L.segment_cost s1 = L.segment_cost s2
      /\ L.end_segment_reason s1 = L.end_segment_reason s2
  | Continue s1, Continue s2 =>
      beyond_look_ahead Y s1 /\ beyond_look_ahead Y s2
      /\ shared s1 = shared s2 /\ L.prev s1 = L.prev s2
  | _, _ => False
  end.
Proof.
  intros (HY1 & Hg1 & Hw1 & Hsw1) (HY2 & Hg2 & Hw2 & Hsw2) Hsh. use_shared Hsh.
  unfold advance. rewrite HY1, HY2, Hcur, Hr, Hsc, Hkt, Hkd.
  destruct (Follow E (tile (L.cur st2)) (td (L.cur st2))) as [ok tf_local].
  set (next := TILE_at E (new_tile tf_local) (FindFirstBit E (new_td_bits tf_local))).
  pose proof (next_tile_masking_fst next (L.end_segment_reason st2)
                (L.extra_cost st1) (L.extra_cost st2)) as Hfst.
  pose proof (next_tile_masking_wf Y next (L.end_segment_reason st2)
                (L.extra_cost st1) Hw2) as Hwf.
  destruct (next_tile_masking E Y next (L.end_segment_reason st2) (L.extra_cost st1))
    as [r1 x1].
  destruct (next_tile_masking E Y next (L.end_segment_reason st2) (L.extra_cost st2))
    as [r2 x2].
  simpl in Hfst, Hwf. subst r2.
  repeat break_match; simpl; try (split; [exact Hsc | reflexivity]).
  unfold beyond_look_ahead, shared. simpl.
  repeat split; try assumption; try congruence; unfold esr_wf in *; lia.
Qed.

Lemma loop_head_shared (st1 st2 : L.Locals) :
  beyond_look_ahead Y st1 -> beyond_look_ahead Y st2 ->
  shared st1 = shared st2 -> L.prev st1 = L.prev st2 ->
  match loop_head E false st1, loop_head E false st2 with
  | Continue s1, Continue s2 =>
      beyond_look_ahead Y s1 /\ beyond_look_ahead Y s2 /\ shared s1 = shared s2
  | _, _ => False
  end.
Proof.
  intros (HY1 & Hg1 & Hw1 & Hsw1) (HY2 & Hg2 & Hw2 & Hsw2) Hsh Hp. use_shared Hsh.
  unfold loop_head. rewrite HY1, HY2, Hcur, Hp, Hsc.
  destruct (L.segment_cost st2 =? 0);
    unfold beyond_look_ahead, shared; simpl;
    repeat split; try assumption; try congruence; unfold esr_wf in *; lia.
Qed.

Lemma loop_head_reason (st : L.Locals) :
  match loop_head E false st with
  | Break s | Continue s => L.end_segment_reason s = L.end_segment_reason st
  end.
Proof. unfold loop_head. repeat break_match; reflexivity. Qed.

Lemma max_cost_check_cases (pc : Z) (st : L.Locals) :
  (max_cost_exceeded pc st = false /\ max_cost_check pc st = st)
  \/ ESR.Test (L.end_segment_reason (max_cost_check pc st)) PathTooLong = true.
Proof.
  destruct (max_cost_exceeded pc st) eqn:Hc.
  - right. apply max_cost_check_sets. exact Hc.
  - left. split; [reflexivity|]. unfold max_cost_check. now rewrite Hc.
Qed.

(** A fresh walk beyond the look-ahead window ends with reasons of the enum. *)
Lemma walk_wf (pc : Z) (fuel : nat) (st f : L.Locals) :
  beyond_look_ahead Y st ->
  walk E pc false fuel st = Some f ->
  esr_wf (L.end_segment_reason f).
Proof.
  revert st. induction fuel as [|fuel IH]; intros st Hb Hw; [discriminate|].
  simpl in Hw. unfold loop_tail in Hw.
  destruct (at_max_cost_test_shared st st Hb Hb eq_refl) as (Ha & _ & _).
  fold (at_max_cost_test E st) in Hw.
  assert (Hwf : esr_wf (L.end_segment_reason
                          (max_cost_check pc (at_max_cost_test E st)))).
  { unfold max_cost_check. destruct Ha as (_ & _ & Hwf & _).
    break_match; simpl; [apply esr_wf_Set|]; exact Hwf. }
  pose proof (advance_wf _ Hwf) as Hadv.
  destruct (max_cost_check_cases pc (at_max_cost_test E st)) as [[Hno Heq]|Hptl].
  - rewrite Heq in Hw, Hadv.
    pose proof (advance_shared _ _ Ha Ha eq_refl) as Hsim.
    destruct (advance E (at_max_cost_test E st)) as [s|s].
    + injection Hw as <-. exact Hadv.
    + destruct Hsim as (Hbs & _ & _ & _).
      pose proof (loop_head_shared s s Hbs Hbs eq_refl eq_refl) as Hhead.
      destruct (loop_head E false s) as [s'|s']; [contradiction|].
      destruct Hhead as (Hbs' & _ & _). apply (IH s' Hbs' Hw).
  - destruct (advance_PathTooLong E _ Hptl) as (s & Hs & _).
    rewrite Hs in Hw, Hadv. injection Hw as <-. exact Hadv.
Qed.

(** Two fresh walks beyond the look-ahead window that start alike end with the
    same segment cost and end reasons, unless the maximum cost cuts one. *)
Lemma walk_shared (pc1 pc2 : Z) (fuel : nat) (st1 st2 f1 : L.Locals) :
  beyond_look_ahead Y st1 -> beyond_look_ahead Y st2 ->
  shared st1 = shared st2 ->
  walk E pc1 false fuel st1 = Some f1 ->
  ESR.Test (L.end_segment_reason f1) PathTooLong = false ->
  exists f2,
    walk E pc2 false fuel st2 = Some f2
    /\ (ESR.Test (L.end_segment_reason f2) PathTooLong = true
        \/ (L.segment_cost f1 = L.segment_cost f2
            /\ L.end_segment_reason f1 = L.end_segment_reason f2)).
Proof.
  revert st1 st2. induction fuel as [|fuel IH]; intros st1 st2 Hb1 Hb2 Hsh Hw Hno;
    [discriminate|].
  simpl in Hw |- *. unfold loop_tail in Hw |- *.
  fold (at_max_cost_test E st1) in Hw. fold (at_max_cost_test E st2).
  destruct (at_max_cost_test_shared st1 st2 Hb1 Hb2 Hsh) as (Ha1 & Ha2 & Hsha).
  destruct (max_cost_check_cases pc1 (at_max_cost_test E st1)) as [[_ Heq1]|Hptl1].
  - rewrite Heq1 in Hw.
    destruct (max_cost_check_cases pc2 (at_max_cost_test E st2)) as [[_ Heq2]|Hptl2].
    + rewrite Heq2.
      pose proof (advance_shared _ _ Ha1 Ha2 Hsha) as Hsim.
      destruct (advance E (at_max_cost_test E st1)) as [s1|s1];
        destruct (advance E (at_max_cost_test E st2)) as [s2|s2]; try contradiction.
      * injection Hw as <-. exists s2. split; [reflexivity|]. right. exact Hsim.
      * destruct Hsim as (Hbs1 & Hbs2 & Hshs & Hprev).
        pose proof (loop_head_shared s1 s2 Hbs1 Hbs2 Hshs Hprev) as Hhead.
        destruct (loop_head E false s1) as [s1'|s1'];
          destruct (loop_head E false s2) as [s2'|s2']; try contradiction.
        destruct Hhead as (Hb1' & Hb2' & Hsh').
        apply (IH s1' s2' Hb1' Hb2' Hsh' Hw Hno).
    + destruct (advance_PathTooLong E _ Hptl2) as (s2 & Hs2 & Ht2).
      rewrite Hs2. exists s2. split; [reflexivity|]. left. exact Ht2.
  - destruct (advance_PathTooLong E _ Hptl1) as (s1 & Hs1 & Ht1).
    rewrite Hs1 in Hw. injection Hw as <-. congruence.
Qed.

End BeyondLookAhead.

(** ** Non-negative cost parts *)

Ltac settings_bounds H :=
  unfold valid_settings in H;
  destruct H as (? & ? & ? & ? & ? & ? & ? & ? & ? & ? & ? & ? & ? & ? & ? & ?
                 & ? & ? & ? & ? & ? & ?).

Lemma OneTileCost_pos (E : Env) (Y : Yapf) (t : TileIndex) (d : Trackdir) :
  env_wf E -> valid_settings (PfGetSettings Y) -> 1 <= OneTileCost E Y t d.
Proof.
  intros (? & ? & _) Hv. settings_bounds Hv. unfold OneTileCost.
  destruct (GetTileType E t); repeat break_match; lia.
Qed.

Lemma SlopeCost_nonneg (E : Env) (Y : Yapf) (t : TileIndex) (d : Trackdir) :
  valid_settings (PfGetSettings Y) -> 0 <= SlopeCost E Y t d.
Proof.
  intros Hv. settings_bounds Hv. unfold SlopeCost. break_match; lia.
Qed.

Lemma CurveCost_nonneg (E : Env) (Y : Yapf) (d1 d2 : Trackdir) :
  valid_settings (PfGetSettings Y) -> 0 <= CurveCost E Y d1 d2.
Proof.
  intros Hv. settings_bounds Hv. unfold CurveCost. repeat break_match; lia.
Qed.

Lemma SwitchCost_nonneg (E : Env) (Y : Yapf) (t1 t2 : TileIndex) (x : DiagDirection) :
  valid_settings (PfGetSettings Y) -> 0 <= SwitchCost E Y t1 t2 x.
Proof.
  intros Hv. settings_bounds Hv. unfold SwitchCost. repeat break_match; lia.
Qed.

Lemma ReservationCost_nonneg
    (E : Env) (Y : Yapf) (n : Node) (t : TileIndex) (d : Trackdir) (skipped : Z) :
  env_wf E -> valid_settings (PfGetSettings Y) -> 0 <= skipped ->
  0 <= ReservationCost E Y n t d skipped.
Proof.
  intros (? & ? & _) Hv Hs. settings_bounds Hv. unfold ReservationCost.
  repeat break_match; try lia.
  all: repeat (apply Z.mul_nonneg_nonneg || apply Z.quot_pos); lia.
Qed.


Lemma waypoint_extra_cost_nonneg (E : Env) (Y : Yapf) (cur : TILE) :
  valid_settings (PfGetSettings Y) -> 0 <= waypoint_extra_cost E Y cur.
Proof.
  intros Hv. settings_bounds Hv. unfold waypoint_extra_cost.
  repeat break_match; lia.
Qed.

(** [SignalCost] never returns less than the -1 of the first-red two-way
    abort, and keeps the settings and the cost of the segment. *)
Lemma SignalCost_bounds (E : Env) (Y : Yapf) (n : Node) (t : TileIndex) (d : Trackdir) :
  valid_settings (PfGetSettings Y) ->
  -1 <= fst (fst (SignalCost E Y n t d))
  /\ PfGetSettings (snd (SignalCost E Y n t d)) = PfGetSettings Y
  /\ Seg.cost (segment (snd (fst (SignalCost E Y n t d)))) = Seg.cost (segment n).
Proof.
  intros Hv. settings_bounds Hv. unfold SignalCost, SignalCost_along.
  destruct (GetSignalType E t (TrackdirToTrack E d));
  repeat break_match; simpl in *; repeat split; try reflexivity;
    repeat match goal with
           | H : (_ <? _) = true |- _ => apply Z.ltb_lt in H
           | H : (_ <? _) = false |- _ => apply Z.ltb_ge in H
           end; try discriminate; lia.
Qed.

Ltac split_costs_ok :=
  unfold costs_ok;
  cbn [L.segment_entry_cost L.segment_cost L.extra_cost L.Y L.tf L.n set_flow];
  split; [|split; [|split; [|split; [|split]]]].

Section CostsOk.

Variable E : Env.
Hypothesis Hwf : env_wf E.
Variable ic : bool.

Lemma tile_costs_ok (st : L.Locals) :
  costs_ok ic st -> costs_ok ic (tile_costs E st).
Proof.
  intros (He & Hs & Hx & Hv & Hsk & Hc).
  pose proof (SignalCost_bounds E (L.Y st) (L.n st) (tile (L.cur st)) (td (L.cur st)) Hv)
    as (Hsc & Hset & Hcost).
  pose proof (OneTileCost_pos E (L.Y st) (tile (L.cur st)) (td (L.cur st)) Hwf Hv).
  pose proof (SlopeCost_nonneg E (L.Y st) (tile (L.cur st)) (td (L.cur st)) Hv).
  unfold tile_costs.
  destruct (SignalCost E (L.Y st) (L.n st) (tile (L.cur st)) (td (L.cur st)))
    as [[sc n'] Y'].
  simpl in Hsc, Hset, Hcost.
  assert (Hv' : valid_settings (PfGetSettings Y')) by (rewrite Hset; exact Hv).
  pose proof (ReservationCost_nonneg E Y' n' (tile (L.cur st)) (td (L.cur st))
                (tiles_skipped (L.tf st)) Hwf Hv' Hsk).
  destruct Hwf as (Htl & _).
  assert (0 <= YAPF_TILE_LENGTH E * tiles_skipped (L.tf st))
    by (apply Z.mul_nonneg_nonneg; lia).
  split_costs_ok; try assumption; try lia.
  intros Hic. rewrite Hcost. apply Hc. exact Hic.
Qed.

Lemma target_reasons_ok (st : L.Locals) :
  costs_ok ic st -> costs_ok ic (target_reasons E st).
Proof.
  intros (He & Hs & Hx & Hv & Hsk & Hc).
  pose proof (waypoint_extra_cost_nonneg E (L.Y st) (L.cur st) Hv).
  assert (0 <= rail_station_penalty (PfGetSettings (L.Y st)) * (tiles_skipped (L.tf st) + 1)).
  { pose proof Hv as Hv'. settings_bounds Hv'. apply Z.mul_nonneg_nonneg; lia. }
  assert (0 <= rail_depot_reverse_penalty (PfGetSettings (L.Y st))).
  { pose proof Hv as Hv'. settings_bounds Hv'. lia. }
  unfold target_reasons.
  repeat break_match; split_costs_ok; try assumption; lia.
Qed.

Lemma speed_penalties_ok (st : L.Locals) :
  costs_ok ic st -> costs_ok ic (speed_penalties E st).
Proof.
  intros (He & Hs & Hx & Hv & Hsk & Hc).
  destruct Hwf as (Htl & _ & _ & Hd & Ho).
  unfold speed_penalties.
  destruct (num_signals_passed (L.n st) <? length (sig_look_ahead_costs (L.Y st)))%nat;
    [|split_costs_ok; assumption].
  destruct (GetSpeedLimit E (L.tf st)) as [max_speed min_speed].
  set (max_veh_speed := Z.min (GetDisplayMaxSpeed E) (order_GetMaxSpeed E)).
  assert (Hmv : 0 <= max_veh_speed) by (unfold max_veh_speed; lia).
  assert (Hq : max_speed < max_veh_speed ->
               0 <= Z.quot (YAPF_TILE_LENGTH E * (max_veh_speed - max_speed)
                            * (4 + tiles_skipped (L.tf st))) max_veh_speed).
  { intros Hlt. destruct (Z.eq_dec max_veh_speed 0) as [H0|Hnz].
    - rewrite (Z.quot_0_r_ext _ _ H0). lia.
    - apply Z.quot_pos; [|lia]. repeat apply Z.mul_nonneg_nonneg; lia. }
  assert (Hm : max_veh_speed < min_speed ->
               0 <= YAPF_TILE_LENGTH E * (min_speed - max_veh_speed)).
  { intros Hlt. apply Z.mul_nonneg_nonneg; lia. }
  destruct (Z.ltb_spec max_speed max_veh_speed) as [H1|H1];
    destruct (Z.ltb_spec max_veh_speed min_speed) as [H2|H2];
    split_costs_ok; try assumption;
    try (specialize (Hq H1)); try (specialize (Hm H2)); lia.
Qed.

Lemma max_cost_check_ok (pc : Z) (st : L.Locals) :
  costs_ok ic st -> costs_ok ic (max_cost_check pc st).
Proof.
  intros H. unfold max_cost_check. break_match; [|exact H].
  destruct H as (? & ? & ? & ? & ? & ?). split_costs_ok; assumption.
Qed.

Lemma next_tile_masking_snd (Y : Yapf) (next : TILE) (r : EndSegmentReasons) (x : Z) :
  valid_settings (PfGetSettings Y) -> x <= snd (next_tile_masking E Y next r x).
Proof.
  intros Hv. settings_bounds Hv. unfold next_tile_masking.
  repeat break_match; simpl; lia.
Qed.

Lemma advance_ok (st : L.Locals) :
  costs_ok ic st ->
  match advance E st with
  | Break s | Continue s => costs_ok ic s
  end.
Proof.
  intros (He & Hs & Hx & Hv & Hsk & Hc). unfold advance.
  destruct Hwf as (_ & _ & Hfollow & _).
  specialize (Hfollow (tile (L.cur st)) (td (L.cur st))).
  destruct (Follow E (tile (L.cur st)) (td (L.cur st))) as [ok tf_local].
  simpl in Hfollow.
  pose proof (next_tile_masking_snd (L.Y st)
                (TILE_at E (new_tile tf_local) (FindFirstBit E (new_td_bits tf_local)))
                (L.end_segment_reason st) (L.extra_cost st) Hv) as Hm.
  destruct (next_tile_masking E (L.Y st)
              (TILE_at E (new_tile tf_local) (FindFirstBit E (new_td_bits tf_local)))
              (L.end_segment_reason st) (L.extra_cost st)) as [r x].
  simpl in Hm.
  repeat break_match; split_costs_ok; try assumption; lia.
Qed.

Lemma loop_head_ok (st : L.Locals) :
  costs_ok ic st ->
  match loop_head E ic st with
  | Break s | Continue s => costs_ok ic s
  end.
Proof.
  intros (He & Hs & Hx & Hv & Hsk & Hc).
  pose proof (CurveCost_nonneg E (L.Y st) (td (L.prev st)) (td (L.cur st)) Hv).
  pose proof (SwitchCost_nonneg E (L.Y st) (tile (L.prev st)) (tile (L.cur st))
                (TrackdirToExitdir E (td (L.prev st))) Hv).
  unfold loop_head.
  destruct (L.segment_cost st =? 0); [destruct ic eqn:Hic|];
    repeat break_match; split_costs_ok; try assumption; try lia;
    try (intros _; apply Hc; reflexivity); try discriminate.
Qed.

Lemma walk_ok (pc : Z) (fuel : nat) (st f : L.Locals) :
  costs_ok ic st ->
  walk E pc ic fuel st = Some f ->
  costs_ok ic f.
Proof.
  revert st. induction fuel as [|fuel IH]; intros st Hok Hw; [discriminate|].
  simpl in Hw. unfold loop_tail in Hw.
  pose proof (advance_ok _ (max_cost_check_ok pc _
                (speed_penalties_ok _ (target_reasons_ok _ (tile_costs_ok _ Hok)))))
    as Hadv.
  destruct (advance E (max_cost_check pc
              (speed_penalties E (target_reasons E (tile_costs E st))))) as [s|s].
  - injection Hw as <-. exact Hadv.
  - pose proof (loop_head_ok s Hadv) as Hhead.
    destruct (loop_head E ic s) as [s'|s'].
    + injection Hw as <-. exact Hhead.
    + apply (IH s' Hhead Hw).
Qed.

End CostsOk.

Lemma PfCalcCost_enter_ok (E : Env) (Y : Yapf) (n : Node) (tf : TrackFollower) :
  env_wf E -> valid_settings (PfGetSettings Y) -> 0 <= tiles_skipped tf ->
  match PfCalcCost_enter E Y n tf with
  | Break s | Continue s => costs_ok (0 <=? Seg.cost (segment n)) s
  end.
Proof.
  intros Hwf Hv Hsk.
  assert (Hinit : costs_ok (0 <=? Seg.cost (segment n)) (PfCalcCost_init E Y n tf)).
  { unfold PfCalcCost_init. split_costs_ok; try assumption; lia. }
  unfold PfCalcCost_enter. destruct (parent n); [|exact Hinit].
  apply loop_head_ok; assumption.
Qed.

(** ** After the loop *)

Lemma finish_keeps (E : Env) (pc : Z) (ic : bool) (s : L.Locals) :
  L.segment_cost (snd (finish E pc ic s)) = L.segment_cost s
  /\ L.end_segment_reason (snd (finish E pc ic s)) = L.end_segment_reason s
  /\ L.segment_entry_cost (snd (finish E pc ic s)) = L.segment_entry_cost s
  /\ L.Y (snd (finish E pc ic s)) = L.Y s.
Proof. unfold finish. repeat break_match; simpl; repeat split; reflexivity. Qed.

(** A walk that was not cut by the maximum cost writes its segment cost and
    its end reasons, masked, back to the segment. *)
Lemma finish_writes (E : Env) (pc : Z) (s : L.Locals) :
  ESR.Test (L.end_segment_reason s) PathTooLong = false ->
  Seg.cost (segment (L.n (snd (finish E pc false s)))) = L.segment_cost s
  /\ Seg.end_segment_reason (segment (L.n (snd (finish E pc false s))))
     = ESR.And (L.end_segment_reason s) (ESRF_CACHED_MASK E).
Proof.
  intros Hptl. unfold finish. rewrite Hptl. simpl.
  repeat break_match; simpl; split; reflexivity.
Qed.


(** ** The concrete worlds are well formed *)

Lemma World_env_wf (l : World.Layout) : env_wf (World.env l).
Proof.
  unfold env_wf. simpl. repeat split; try lia.
  intros t d. unfold World.follow, World.on_platform.
  repeat break_match; simpl; lia.
Qed.

Lemma default_settings_valid : valid_settings World.default_settings.
Proof. unfold valid_settings. simpl. lia. Qed.

(** ** Cost along the parent chain *)




(** C2 fails on the code: a node priced from the middle of its destination
    platform.  The parent ends on tile 3 of the platform on tiles 2 .. 6 with
    cost 0; the follower reaches the platform end with two tiles skipped, so
    the segment is charged the station penalty for three tiles; the target
    takes it back for all five tiles of the platform, and the accepted node
    stores a cost below the cost of its parent. *)
Theorem refund_for_whole_platform_lowers_cost :
  let E := World.env World.platform_row in
  let p := World.parent_at E 3 0 0 in
  let n := World.node E 6 (Some p) 0 true in
  let tf := snd (Follow E 3 World.TRACKDIR_X_SW) in
  PfCalcCost_pre E n tf = true
  /\ tiles_skipped tf = 2
  /\ GetPlatformLength E 6 0 = 5
  /\ exists st, PfCalcCost E 20 World.yapf n tf = Some (true, st)
                /\ L.segment_cost st = 100 + 200 + 3 * 1000
                /\ L.extra_cost st = - (5 * 1000)
                /\ cost (L.n st) = -1700
                /\ cost (L.n st) < cost p.
Proof.
  intros E p n tf. split; [reflexivity|]. split; [reflexivity|]. split; [reflexivity|].
  eexists. split; [vm_compute; reflexivity|].
  repeat split; reflexivity.
Qed.

(** ** Cached segment against fresh walk *)

(** C1, as stated, fails: with a maximum cost set, a node whose parent is
    already expensive is accepted from the cached segment with the cached cost
    and end reason, while the walk from scratch of the same node is cut at the
    first tile with [PathTooLong].  Both nodes pass the gate of the global
    cache. *)
Lemma cached_segment_differs_from_fresh_walk :
  let E := World.env World.junction_row in
  let Y := SetMaxCost World.yapf 1000 in
  let n1 := World.node E 1 (Some (World.parent_at E 0 0 10)) 10 true in
  let n2 := World.node E 1 (Some (World.parent_at E 0 5000 10)) 10 true in
  let tf := World.arriving 1 in
  exists st1 stc stf,
    PfCalcCost E 20 Y n1 tf = Some (true, st1)
    /\ PfCalcCost E 20 Y (ConnectNodeToCachedData n2 (segment (L.n st1))) tf
       = Some (true, stc)
    /\ PfCalcCost E 20 Y n2 tf = Some (false, stf)
    /\ CanUseGlobalCache Y n1 = true /\ CanUseGlobalCache Y n2 = true
    /\ (L.segment_cost stc, L.end_segment_reason stc)
       = (400, ESR.of_list [ChoiceFollows])
    /\ (L.segment_cost stf, L.end_segment_reason stf)
       = (100, ESR.of_list [PathTooLong])
    /\ (L.segment_cost stc, L.end_segment_reason stc)
       <> (L.segment_cost stf, L.end_segment_reason stf).
Proof.
  intros E Y n1 n2 tf.
  eexists. eexists. eexists.
  split; [vm_compute; reflexivity|].
  split; [vm_compute; reflexivity|].
  split; [vm_compute; reflexivity|].
  repeat split; try reflexivity. vm_compute. discriminate.
Qed.

(** The segment cost depends on the signal position of the node inside the
    look-ahead window: a segment priced by a node that has passed no signal
    carries the penalties of a red first signal, which the walk of a node past
    the window does not add. *)
Lemma cached_segment_depends_on_position :
  let E := World.signalled true false SIGNAL_STATE_RED SIGTYPE_BLOCK in
  let n1 := World.node E 1 (Some (World.parent_at E 0 0 0)) 0 true in
  let n2 := World.node E 1 (Some (World.parent_at E 0 0 10)) 10 true in
  let tf := World.arriving 1 in
  exists b1 st1 bc stc bf stf,
    PfCalcCost E 20 World.yapf n1 tf = Some (b1, st1)
    /\ PfCalcCost E 20 World.yapf (ConnectNodeToCachedData n2 (segment (L.n st1))) tf
       = Some (bc, stc)
    /\ PfCalcCost E 20 World.yapf n2 tf = Some (bf, stf)
    /\ CanUseGlobalCache World.yapf n1 = false
    /\ L.segment_cost stc = 900 + 500 + 1000
    /\ L.segment_cost stf = 900.
Proof.
  intros E n1 n2 tf.
  do 6 eexists.
  split; [vm_compute; reflexivity|].
  split; [vm_compute; reflexivity|].
  split; [vm_compute; reflexivity|].
  repeat split; reflexivity.
Qed.

Lemma fresh_fields (E : Env) (n : Node) :
  parent (fresh E n) = parent n
  /\ key_tile (fresh E n) = key_tile n /\ key_td (fresh E n) = key_td n
  /\ num_signals_passed (fresh E n) = num_signals_passed n
  /\ Seg.cost (segment (fresh E n)) = -1
  /\ Seg.end_segment_reason (segment (fresh E n)) = ESR.empty.
Proof. unfold fresh, ConnectNodeToCachedData, new_CachedData. simpl. tauto. Qed.

Lemma PfCalcCost_enter_fresh (E : Env) (Y : Yapf) (n p : Node) (tf : TrackFollower) :
  parent n = Some p ->
  exists s0,
    PfCalcCost_enter E Y (fresh E n) tf = Continue s0
    /\ L.Y s0 = Y /\ L.n s0 = fresh E n /\ L.tf s0 = tf
    /\ L.cur s0 = TILE_at E (key_tile n) (key_td n)
    /\ tile (L.prev s0) = GetLastTile p
    /\ L.segment_cost s0 = 0
    /\ L.end_segment_reason s0 = ESR.empty.
Proof.
  intros Hp.
  destruct (fresh_fields E n) as (Hpar & Hkt & Hkd & _ & Hcost & _).
  unfold PfCalcCost_enter. rewrite Hpar, Hp, Hcost.
  unfold loop_head, PfCalcCost_init. rewrite Hpar, Hp, Hkt, Hkd. simpl.
  eexists. split; [reflexivity|]. simpl. repeat split; reflexivity.
Qed.

(** C1, amended: take two nodes with the same key, entered from the same tile
    with the same follower state, both served by the global segment cache
    (the gate of [CanUseGlobalCache] holds and the signal count is the
    parent's or more), settings within their ranges and the cached-reason mask
    holding every reason but [PathTooLong].  When the first node has priced the
    segment by a walk that the maximum cost did not cut, the second node
    priced from that cached segment gets the segment cost and the end-segment
    reasons that its own walk from scratch computes, unless the maximum cost
    cuts that walk. *)
Theorem cached_segment_equals_fresh_walk
    (E : Env) (fuel : nat) (Y : Yapf) (n1 n2 : Node) (tf : TrackFollower)
    (b1 : bool) (st1 : L.Locals) :
  constructed Y ->
  valid_settings (PfGetSettings Y) ->
  env_wf E ->
  0 <= tiles_skipped tf ->
  (forall e, e <> PathTooLong -> ESR.Test (ESRF_CACHED_MASK E) e = true) ->
  eligible Y n1 -> eligible Y n2 -> same_entry n1 n2 ->
  PfCalcCost E fuel Y (fresh E n1) tf = Some (b1, st1) ->
  ESR.Test (L.end_segment_reason st1) PathTooLong = false ->
  exists rc rf,
    PfCalcCost E fuel Y (ConnectNodeToCachedData n2 (segment (L.n st1))) tf = Some rc
    /\ PfCalcCost E fuel Y (fresh E n2) tf = Some rf
    /\ L.segment_cost (snd rc) = L.segment_cost st1
    /\ L.end_segment_reason (snd rc) = L.end_segment_reason st1
    /\ (ESR.Test (L.end_segment_reason (snd rf)) PathTooLong = false ->
        L.segment_cost (snd rc) = L.segment_cost (snd rf)
        /\ L.end_segment_reason (snd rc) = L.end_segment_reason (snd rf)).
Proof.
  intros HY Hv Hwf Hsk Hmask [Hg1 Hin1] [Hg2 Hin2] (Hkt & Hkd & Hlast) Hrun1 Hno1.
  assert (Hmax : 1 <= rail_look_ahead_max_signals (PfGetSettings Y)).
  { pose proof Hv as Hv'. settings_bounds Hv'. lia. }
  destruct (parent n1) as [p1|] eqn:Hp1; [|contradiction].
  destruct (parent n2) as [p2|] eqn:Hp2; [|contradiction].
  assert (Hgate : forall n p, parent n = Some p -> CanUseGlobalCache Y n = true ->
            (num_signals_passed p <= num_signals_passed n)%nat ->
            (length (sig_look_ahead_costs Y) <= num_signals_passed n)%nat).
  { intros n p Hp Hc Hle. unfold CanUseGlobalCache in Hc. rewrite Hp in Hc.
    apply andb_prop in Hc. destruct Hc as [_ Hc]. apply Nat.leb_le in Hc. lia. }
  pose proof (Hgate n1 p1 Hp1 Hg1 Hin1) as Hn1.
  pose proof (Hgate n2 p2 Hp2 Hg2 Hin2) as Hn2.
  destruct (fresh_fields E n1) as (Hpar1 & Hfk1 & Hfd1 & Hfn1 & Hfc1 & Hfr1).
  destruct (fresh_fields E n2) as (Hpar2 & Hfk2 & Hfd2 & Hfn2 & Hfc2 & Hfr2).
  (* the walk of the first node *)
  destruct (PfCalcCost_enter_fresh E Y n1 p1 tf Hp1)
    as (s1 & He1 & HY1 & HN1 & Htf1 & Hcur1 & Hprev1 & Hsc1 & Hr1).
  destruct (PfCalcCost_enter_fresh E Y n2 p2 tf Hp2)
    as (s2 & He2 & HY2 & HN2 & Htf2 & Hcur2 & Hprev2 & Hsc2 & Hr2).
  assert (Hb1 : beyond_look_ahead Y s1).
  { unfold beyond_look_ahead. rewrite HY1, HN1, Hfn1, Hr1, Hfr1.
    repeat split; try assumption; try apply esr_wf_empty. }
  assert (Hb2 : beyond_look_ahead Y s2).
  { unfold beyond_look_ahead. rewrite HY2, HN2, Hfn2, Hr2, Hfr2.
    repeat split; try assumption; try apply esr_wf_empty. }
  assert (Hsh : shared s1 = shared s2).
  { unfold shared. rewrite Htf1, Htf2, Hcur1, Hcur2, Hprev1, Hprev2, Hsc1, Hsc2, Hr1, Hr2.
    rewrite HN1, HN2, Hfr1, Hfr2, Hfk1, Hfk2, Hfd1, Hfd2, Hkt, Hkd, Hlast. reflexivity. }
  destruct (PfCalcCost_finish E fuel Y (fresh E n1) tf b1 st1 Hrun1) as (f1 & Hfin1 & Hw1).
  rewrite He1, Hfc1 in Hw1. change (0 <=? -1) with false in Hw1.
  rewrite Hfc1 in Hfin1. change (0 <=? -1) with false in Hfin1.
  destruct (finish_keeps E (parent_cost_of (fresh E n1)) false f1) as (Hk1 & Hk2 & _ & _).
  rewrite Hfin1 in Hk1, Hk2. simpl in Hk1, Hk2.
  assert (Hnof1 : ESR.Test (L.end_segment_reason f1) PathTooLong = false)
    by (rewrite <- Hk2; exact Hno1).
  destruct (finish_writes E (parent_cost_of (fresh E n1)) f1 Hnof1) as (Hwc & Hwr).
  rewrite Hfin1 in Hwc, Hwr. simpl in Hwc, Hwr.
  pose proof (walk_wf E Y HY Hmax _ fuel s1 f1 Hb1 Hw1) as Hwff1.
  rewrite (And_cached_mask _ _ Hwff1 Hnof1 Hmask) in Hwr.
  (* the segment it wrote is a valid cached segment *)
  assert (Hok1 : 0 <= L.segment_cost f1).
  { assert (Hcs : costs_ok false s1).
    { pose proof (PfCalcCost_enter_ok E Y (fresh E n1) tf Hwf Hv Hsk) as Hok.
      rewrite He1, Hfc1 in Hok. exact Hok. }
    destruct (walk_ok E Hwf false _ fuel s1 f1 Hcs Hw1) as (_ & H & _). exact H. }
  (* the second node, from the cache *)
  set (n2c := ConnectNodeToCachedData n2 (segment (L.n st1))).
  assert (Hn2c : n2c = with_segment n2 (segment (L.n st1))).
  { unfold n2c, ConnectNodeToCachedData. simpl.
    destruct (Z.ltb_spec (Seg.cost (segment (L.n st1))) 0); [lia | reflexivity]. }
  assert (Hpc : parent n2c = Some p2) by (rewrite Hn2c; exact Hp2).
  assert (Hcc : 0 <= Seg.cost (segment n2c)) by (rewrite Hn2c; simpl; lia).
  destruct (PfCalcCost_enter_cached E Y n2c p2 tf Hpc Hcc)
    as (sc & Hec & Hcsc & Hcr & _).
  assert (Hrunc : PfCalcCost E fuel Y n2c tf
                  = Some (finish E (parent_cost_of n2c) (0 <=? Seg.cost (segment n2c)) sc)).
  { unfold PfCalcCost. rewrite Hec. reflexivity. }
  (* the second node, from scratch *)
  destruct (walk_shared E Y HY Hmax (parent_cost_of (fresh E n1))
              (parent_cost_of (fresh E n2)) fuel s1 s2 f1 Hb1 Hb2 Hsh Hw1 Hnof1)
    as (f2 & Hw2 & Hcmp).
  assert (Hrunf : PfCalcCost E fuel Y (fresh E n2) tf
                  = Some (finish E (parent_cost_of (fresh E n2)) false f2)).
  { unfold PfCalcCost. rewrite He2, Hfc2. change (0 <=? -1) with false.
    rewrite Hw2. reflexivity. }
  eexists. eexists. split; [exact Hrunc|]. split; [exact Hrunf|].
  destruct (finish_keeps E (parent_cost_of n2c) (0 <=? Seg.cost (segment n2c)) sc)
    as (Hkc1 & Hkc2 & _ & _).
  destruct (finish_keeps E (parent_cost_of (fresh E n2)) false f2) as (Hkf1 & Hkf2 & _ & _).
  assert (Hc_cost : L.segment_cost
                      (snd (finish E (parent_cost_of n2c) (0 <=? Seg.cost (segment n2c)) sc))
                    = L.segment_cost st1).
  { rewrite Hkc1, Hcsc, Hn2c. simpl. rewrite Hwc. symmetry. exact Hk1. }
  assert (Hc_reason : L.end_segment_reason
                        (snd (finish E (parent_cost_of n2c) (0 <=? Seg.cost (segment n2c)) sc))
                      = L.end_segment_reason st1).
  { rewrite Hkc2, Hcr, Hn2c. simpl. rewrite Hwr. symmetry. exact Hk2. }
  split; [exact Hc_cost|]. split; [exact Hc_reason|].
  intros Hnof. rewrite Hc_cost, Hc_reason, Hkf1, Hkf2. rewrite Hkf2 in Hnof.
  destruct Hcmp as [Hptl | [Hcost Hreason]]; [congruence|].
  rewrite Hk1, Hk2. split; assumption.
Qed.

Lemma cached_segment_equals_fresh_walk_witness :
  let E := World.env World.junction_row in
  let n1 := World.node E 1 (Some (World.parent_at E 0 0 10)) 10 true in
  let n2 := World.node E 1 (Some (World.parent_at E 0 5000 12)) 12 false in
  let tf := World.arriving 1 in
  exists st1 rc rf,
    PfCalcCost E 20 World.yapf (fresh E n1) tf = Some (true, st1)
    /\ PfCalcCost E 20 World.yapf (ConnectNodeToCachedData n2 (segment (L.n st1))) tf
       = Some rc
    /\ PfCalcCost E 20 World.yapf (fresh E n2) tf = Some rf
    /\ L.segment_cost (snd rc) = L.segment_cost (snd rf)
    /\ L.end_segment_reason (snd rc) = L.end_segment_reason (snd rf)
    /\ L.segment_cost (snd rf) = 400.
Proof.
  intros E n1 n2 tf.
  destruct (PfCalcCost E 20 World.yapf (fresh E n1) tf) as [[b st1]|] eqn:Hrun;
    [|vm_compute in Hrun; discriminate].
  assert (Hb : b = true) by (vm_compute in Hrun; congruence). subst b.
  assert (Hno : ESR.Test (L.end_segment_reason st1) PathTooLong = false).
  { vm_compute in Hrun. injection Hrun as <-. reflexivity. }
  destruct (cached_segment_equals_fresh_walk E 20 World.yapf n1 n2 tf true st1)
    as (rc & rf & Hc & Hf & _ & _ & Hsame).
  - reflexivity.
  - apply default_settings_valid.
  - apply World_env_wf.
  - simpl. lia.
  - intros e He. destruct e; try reflexivity. congruence.
  - split; [reflexivity | simpl; lia].
  - split; [reflexivity | simpl; lia].
  - repeat split; reflexivity.
  - exact Hrun.
  - exact Hno.
  - exists st1, rc, rf. split; [reflexivity|]. split; [exact Hc|]. split; [exact Hf|].
    assert (Hnof : ESR.Test (L.end_segment_reason (snd rf)) PathTooLong = false).
    { vm_compute in Hf. injection Hf as <-. reflexivity. }
    destruct (Hsame Hnof) as [H1 H2]. split; [exact H1|]. split; [exact H2|].
    vm_compute in Hf. injection Hf as <-. reflexivity.
Defined.

(** * Further properties of the cost engine *)

(** ** How a walk ends *)

Lemma Any_Set (r : EndSegmentReasons) (e : EndSegmentReason) :
  ESR.Any (ESR.Set_ r e) = true.
Proof. apply (Any_of_Test _ e). apply Test_Set_same. Qed.

Lemma Any_Set_keeps (r : EndSegmentReasons) (e : EndSegmentReason) :
  ESR.Any r = true -> ESR.Any (ESR.Set_ r e) = true.
Proof. intros _. apply Any_Set. Qed.

Lemma next_tile_masking_Any (E : Env) (Y : Yapf) (next : TILE) (r : EndSegmentReasons)
    (x : Z) :
  ESR.Any r = true -> ESR.Any (fst (next_tile_masking E Y next r x)) = true.
Proof.
  intros H. unfold next_tile_masking.
  repeat break_match; simpl; try apply Any_Set; exact H.
Qed.

(** Every way out of the loop body leaves a reason behind. *)
Lemma advance_Break_reason (E : Env) (st s : L.Locals) :
  advance E st = Break s -> ESR.Any (L.end_segment_reason s) = true.
Proof.
  unfold advance.
  destruct (Follow E (tile (L.cur st)) (td (L.cur st))) as [ok tf_local].
  destruct (next_tile_masking E (L.Y st)
              (TILE_at E (new_tile tf_local) (FindFirstBit E (new_td_bits tf_local)))
              (L.end_segment_reason st) (L.extra_cost st)) as [r x].
  repeat break_match; intros H; try discriminate; injection H as <-; simpl;
    try apply Any_Set; assumption.
Qed.

(** A reason that is set when the next tile is looked at closes the loop. *)
Lemma advance_on_reason (E : Env) (st : L.Locals) :
  ESR.Any (L.end_segment_reason st) = true ->
  exists s, advance E st = Break s.
Proof.
  intros H. unfold advance.
  destruct (Follow E (tile (L.cur st)) (td (L.cur st))) as [ok tf_local].
  pose proof (next_tile_masking_Any E (L.Y st)
                (TILE_at E (new_tile tf_local) (FindFirstBit E (new_td_bits tf_local)))
                (L.end_segment_reason st) (L.extra_cost st) H) as Hm.
  destruct (next_tile_masking E (L.Y st)
              (TILE_at E (new_tile tf_local) (FindFirstBit E (new_td_bits tf_local)))
              (L.end_segment_reason st) (L.extra_cost st)) as [r x].
  simpl in Hm.
  repeat break_match; try (eexists; reflexivity). congruence.
Qed.

Lemma loop_head_uncached (E : Env) (st : L.Locals) :
  exists s, loop_head E false st = Continue s
            /\ L.end_segment_reason s = L.end_segment_reason st
            /\ L.n s = L.n st /\ L.Y s = L.Y st /\ L.cur s = L.cur st
            /\ L.extra_cost s = L.extra_cost st
            /\ L.target_seen s = L.target_seen st.
Proof.
  unfold loop_head. destruct (L.segment_cost st =? 0);
    eexists; (split; [reflexivity|]); simpl; repeat split; reflexivity.
Qed.

Lemma walk_uncached_reason (E : Env) (pc : Z) (fuel : nat) (st f : L.Locals) :
  walk E pc false fuel st = Some f -> ESR.Any (L.end_segment_reason f) = true.
Proof.
  revert st. induction fuel as [|fuel IH]; intros st Hw; [discriminate|].
  simpl in Hw. unfold loop_tail in Hw.
  destruct (advance E (max_cost_check pc
              (speed_penalties E (target_reasons E (tile_costs E st))))) as [s|s] eqn:Hadv.
  - injection Hw as <-. apply (advance_Break_reason E _ _ Hadv).
  - destruct (loop_head_uncached E s) as (s' & Hs' & _).
    rewrite Hs' in Hw. apply (IH s' Hw).
Qed.

Lemma PfCalcCost_enter_uncached (E : Env) (Y : Yapf) (n : Node) (tf : TrackFollower) :
  Seg.cost (segment n) < 0 ->
  exists s, PfCalcCost_enter E Y n tf = Continue s
            /\ L.n s = n /\ L.Y s = Y /\ L.tf s = tf
            /\ L.cur s = TILE_at E (key_tile n) (key_td n)
            /\ L.segment_cost s = 0 /\ L.extra_cost s = 0
            /\ L.end_segment_reason s = ESR.empty
            /\ L.target_seen s = false.
Proof.
  intros Hc. unfold PfCalcCost_enter.
  assert (Hic : (0 <=? Seg.cost (segment n)) = false) by (apply Z.leb_gt; exact Hc).
  rewrite Hic. destruct (parent n) as [p|] eqn:Hp.
  - unfold loop_head, PfCalcCost_init. rewrite Hp. simpl.
    eexists. split; [reflexivity|]. simpl. repeat split; reflexivity.
  - unfold PfCalcCost_init. rewrite Hp.
    eexists. split; [reflexivity|]. simpl. repeat split; reflexivity.
Qed.

(** X1: a walk from scratch never leaves the loop without a reason: when
    [PfCalcCost] returns for a node whose segment is not computed yet, the
    end-segment reasons it ends with are not empty. *)
Theorem fresh_walk_ends_with_a_reason
    (E : Env) (fuel : nat) (Y : Yapf) (n : Node) (tf : TrackFollower)
    (b : bool) (st : L.Locals) :
  Seg.cost (segment n) < 0 ->
  PfCalcCost E fuel Y n tf = Some (b, st) ->
  ESR.Any (L.end_segment_reason st) = true.
Proof.
  intros Hc Hrun.
  destruct (PfCalcCost_finish E fuel Y n tf b st Hrun) as (s & Hfin & Hw).
  destruct (PfCalcCost_enter_uncached E Y n tf Hc) as (s0 & Hs0 & _).
  rewrite Hs0 in Hw.
  assert (Hic : (0 <=? Seg.cost (segment n)) = false) by (apply Z.leb_gt; exact Hc).
  rewrite Hic in Hw, Hfin.
  destruct (finish_keeps E (parent_cost_of n) false s) as (_ & Hk & _).
  rewrite Hfin in Hk. simpl in Hk. rewrite Hk.
  apply (walk_uncached_reason E _ fuel s0 s Hw).
Qed.

Lemma fresh_walk_ends_with_a_reason_witness :
  let E := World.env (World.plain 9) in
  let n := World.node E 0 None 0 false in
  exists st, PfCalcCost E 20 World.yapf n (World.arriving 0) = Some (false, st)
             /\ ESR.Any (L.end_segment_reason st) = true.
Proof.
  intros E n.
  destruct (PfCalcCost E 20 World.yapf n (World.arriving 0)) as [[b st]|] eqn:Hrun;
    [|vm_compute in Hrun; discriminate].
  assert (Hb : b = false) by (vm_compute in Hrun; congruence). subst b.
  exists st. split; [reflexivity|].
  apply (fresh_walk_ends_with_a_reason E 20 World.yapf n (World.arriving 0) false st);
    [vm_compute; reflexivity | exact Hrun].
Defined.

(** ** What a pass of the loop keeps *)

Lemma node_frame_refl (n : Node) : node_frame n n.
Proof.
  unfold node_frame. repeat split; try reflexivity; try apply Nat.le_refl.
Qed.

Lemma node_frame_trans (a b c : Node) :
  node_frame a b -> node_frame b c -> node_frame a c.
Proof.
  unfold node_frame.
  intros (? & ? & ? & ? & ? & ? & ? & ? & ? & ? & Hr)
         (? & ? & ? & ? & ? & ? & ? & ? & ? & ? & Hr').
  repeat split; try congruence.
  - eapply Nat.le_trans; eassumption.
  - intros e He. rewrite (Hr' e He). apply (Hr e He).
Qed.

Lemma yapf_frame_refl (Y : Yapf) : yapf_frame Y Y.
Proof. unfold yapf_frame. repeat split; try reflexivity. intros H. left. exact H. Qed.

Lemma yapf_frame_trans (a b c : Yapf) :
  yapf_frame a b -> yapf_frame b c -> yapf_frame a c.
Proof.
  unfold yapf_frame, TreatFirstRedTwoWaySignalAsEOL.
  intros (Hs & ? & ? & ? & Ht & Hst1) (Hs' & ? & ? & ? & Ht' & Hst2).
  repeat split; try congruence.
  intros Hc. destruct (Hst2 Hc) as [Hc'|Hc'].
  - apply Hst1, Hc'.
  - right. rewrite <- Hs, <- Ht. exact Hc'.
Qed.

Lemma SignalCost_frame (E : Env) (Y : Yapf) (n : Node) (t : TileIndex) (d : Trackdir) :
  node_frame n (snd (fst (SignalCost E Y n t d)))
  /\ yapf_frame Y (snd (SignalCost E Y n t d)).
Proof.
  unfold SignalCost, SignalCost_along, node_frame, yapf_frame.
  destruct (GetSignalType E t (TrackdirToTrack E d));
  repeat break_match; simpl; repeat split; try reflexivity;
    try (apply Nat.le_refl); try (apply Nat.le_succ_diag_r);
    try (intros e He; apply Test_Set_other; congruence);
    try (intros H; left; exact H);
    intros _; right;
    repeat match goal with
           | H : _ && _ = true |- _ => apply andb_prop in H; destruct H
           end; assumption.
Qed.

Lemma SignalCost_negative (E : Env) (Y : Yapf) (n : Node) (t : TileIndex) (d : Trackdir) :
  valid_settings (PfGetSettings Y) ->
  fst (fst (SignalCost E Y n t d)) < 0 ->
  fst (fst (SignalCost E Y n t d)) = -1
  /\ ESR.Test (Seg.end_segment_reason (segment (snd (fst (SignalCost E Y n t d))))) DeadEnd
     = true
  /\ stopped_on_first_two_way_signal (snd (SignalCost E Y n t d)) = true.
Proof.
  intros Hv. settings_bounds Hv. unfold SignalCost, SignalCost_along.
  destruct (GetSignalType E t (TrackdirToTrack E d));
  repeat break_match; simpl in *; intros Hneg;
    repeat match goal with
           | H : (_ <? _) = true |- _ => apply Z.ltb_lt in H
           | H : (_ <? _) = false |- _ => apply Z.ltb_ge in H
           end; try discriminate; try lia;
    repeat split; try reflexivity; apply Test_Set_same.
Qed.

Lemma tile_costs_frame (E : Env) (st : L.Locals) :
  node_frame (L.n st) (L.n (tile_costs E st))
  /\ yapf_frame (L.Y st) (L.Y (tile_costs E st))
  /\ L.tf (tile_costs E st) = L.tf st
  /\ L.cur (tile_costs E st) = L.cur st
  /\ L.segment_entry_cost (tile_costs E st) = L.segment_entry_cost st
  /\ L.extra_cost (tile_costs E st) = L.extra_cost st
  /\ L.target_seen (tile_costs E st) = L.target_seen st
  /\ L.end_segment_reason (tile_costs E st)
     = Seg.end_segment_reason (segment (L.n (tile_costs E st))).
Proof.
  unfold tile_costs.
  pose proof (SignalCost_frame E (L.Y st) (L.n st) (tile (L.cur st)) (td (L.cur st)))
    as [Hn Hy].
  destruct (SignalCost E (L.Y st) (L.n st) (tile (L.cur st)) (td (L.cur st)))
    as [[sc n'] Y'].
  simpl in *. split; [exact Hn|]. split; [exact Hy|]. repeat split; reflexivity.
Qed.

Lemma tile_costs_progress (E : Env) (st : L.Locals) :
  env_wf E -> valid_settings (PfGetSettings (L.Y st)) -> 0 <= tiles_skipped (L.tf st) ->
  ESR.Any (L.end_segment_reason (tile_costs E st)) = false ->
  L.segment_cost st + 1 <= L.segment_cost (tile_costs E st).
Proof.
  intros Hwf Hv Hs. unfold tile_costs.
  pose proof (SignalCost_bounds E (L.Y st) (L.n st) (tile (L.cur st)) (td (L.cur st)) Hv)
    as (_ & Hset & _).
  pose proof (SignalCost_negative E (L.Y st) (L.n st) (tile (L.cur st)) (td (L.cur st)) Hv)
    as Hneg.
  destruct (SignalCost E (L.Y st) (L.n st) (tile (L.cur st)) (td (L.cur st)))
    as [[sc n'] Y'].
  simpl in *. intros Hany.
  assert (Hsc : 0 <= sc).
  { destruct (Z_lt_le_dec sc 0) as [Hlt|Hle]; [|exact Hle].
    destruct (Hneg Hlt) as (_ & Hde & _).
    rewrite (Any_of_Test _ _ Hde) in Hany. discriminate. }
  pose proof (OneTileCost_pos E (L.Y st) (tile (L.cur st)) (td (L.cur st)) Hwf Hv).
  pose proof (SlopeCost_nonneg E (L.Y st) (tile (L.cur st)) (td (L.cur st)) Hv).
  assert (Hv' : valid_settings (PfGetSettings Y')) by (rewrite Hset; exact Hv).
  pose proof (ReservationCost_nonneg E Y' n' (tile (L.cur st)) (td (L.cur st))
                (tiles_skipped (L.tf st)) Hwf Hv' Hs).
  destruct Hwf as (? & _). nia.
Qed.

Lemma target_reasons_frame (E : Env) (st : L.Locals) :
  L.n (target_reasons E st) = L.n st
  /\ L.Y (target_reasons E st) = L.Y st
  /\ L.tf (target_reasons E st) = L.tf st
  /\ L.cur (target_reasons E st) = L.cur st
  /\ L.segment_entry_cost (target_reasons E st) = L.segment_entry_cost st
  /\ L.target_seen (target_reasons E st) = L.target_seen st
  /\ ESR.Test (L.end_segment_reason (target_reasons E st)) PathTooLong
     = ESR.Test (L.end_segment_reason st) PathTooLong
  /\ (DoTrackMasking E = false ->
      ESR.Test (L.end_segment_reason (target_reasons E st)) SafeTile
      = ESR.Test (L.end_segment_reason st) SafeTile)
  /\ (ESR.Any (L.end_segment_reason st) = true ->
      ESR.Any (L.end_segment_reason (target_reasons E st)) = true).
Proof.
  unfold target_reasons. repeat break_match; simpl; repeat split; try reflexivity;
    try (apply Test_Set_other; discriminate);
    try (intros _; apply Test_Set_other; discriminate);
    try (intros _; apply Any_Set); try (intros H; exact H);
    intros Hm; rewrite Hm in *; discriminate.
Qed.

Lemma target_reasons_segment_cost (E : Env) (st : L.Locals) :
  valid_settings (PfGetSettings (L.Y st)) -> 0 <= tiles_skipped (L.tf st) ->
  L.segment_cost st <= L.segment_cost (target_reasons E st).
Proof.
  intros Hv Hs. settings_bounds Hv. unfold target_reasons.
  repeat break_match; simpl; nia.
Qed.

Lemma speed_penalties_frame (E : Env) (st : L.Locals) :
  L.n (speed_penalties E st) = L.n st
  /\ L.Y (speed_penalties E st) = L.Y st
  /\ L.tf (speed_penalties E st) = L.tf st
  /\ L.cur (speed_penalties E st) = L.cur st
  /\ L.segment_entry_cost (speed_penalties E st) = L.segment_entry_cost st
  /\ L.segment_cost (speed_penalties E st) = L.segment_cost st
  /\ L.end_segment_reason (speed_penalties E st) = L.end_segment_reason st
  /\ L.target_seen (speed_penalties E st) = L.target_seen st.
Proof.
  unfold speed_penalties. repeat break_match; simpl; repeat split; reflexivity.
Qed.

Lemma max_cost_check_frame (pc : Z) (st : L.Locals) :
  L.n (max_cost_check pc st) = L.n st
  /\ L.Y (max_cost_check pc st) = L.Y st
  /\ L.tf (max_cost_check pc st) = L.tf st
  /\ L.cur (max_cost_check pc st) = L.cur st
  /\ L.segment_entry_cost (max_cost_check pc st) = L.segment_entry_cost st
  /\ L.segment_cost (max_cost_check pc st) = L.segment_cost st
  /\ L.extra_cost (max_cost_check pc st) = L.extra_cost st
  /\ L.target_seen (max_cost_check pc st) = L.target_seen st
  /\ (ESR.Any (L.end_segment_reason st) = true ->
      ESR.Any (L.end_segment_reason (max_cost_check pc st)) = true).
Proof.
  unfold max_cost_check. break_match; simpl; repeat split; try reflexivity;
    try (intros _; apply Any_Set); intros H; exact H.
Qed.

Lemma next_tile_masking_reasons (E : Env) (Y : Yapf) (next : TILE)
    (r : EndSegmentReasons) (x : Z) :
  ESR.Test (fst (next_tile_masking E Y next r x)) PathTooLong = ESR.Test r PathTooLong
  /\ (DoTrackMasking E = false ->
      ESR.Test (fst (next_tile_masking E Y next r x)) SafeTile = ESR.Test r SafeTile).
Proof.
  unfold next_tile_masking. repeat break_match; simpl; split; try reflexivity;
    try (intros Hm; rewrite Hm in *; discriminate);
    repeat (rewrite Test_Set_other by discriminate); reflexivity.
Qed.

Lemma advance_frame (E : Env) (st : L.Locals) :
  match advance E st with
  | Break s | Continue s =>
      L.n s = L.n st /\ L.Y s = L.Y st
      /\ L.segment_entry_cost s = L.segment_entry_cost st
      /\ L.segment_cost s = L.segment_cost st
      /\ L.target_seen s = L.target_seen st
      /\ L.tf s = snd (Follow E (tile (L.cur st)) (td (L.cur st)))
      /\ ESR.Test (L.end_segment_reason s) PathTooLong
         = ESR.Test (L.end_segment_reason st) PathTooLong
      /\ (DoTrackMasking E = false ->
          ESR.Test (L.end_segment_reason s) SafeTile
          = ESR.Test (L.end_segment_reason st) SafeTile)
  end.
Proof.
  unfold advance.
  destruct (Follow E (tile (L.cur st)) (td (L.cur st))) as [ok tf_local].
  pose proof (next_tile_masking_reasons E (L.Y st)
                (TILE_at E (new_tile tf_local) (FindFirstBit E (new_td_bits tf_local)))
                (L.end_segment_reason st) (L.extra_cost st)) as [Hp Hs].
  destruct (next_tile_masking E (L.Y st)
              (TILE_at E (new_tile tf_local) (FindFirstBit E (new_td_bits tf_local)))
              (L.end_segment_reason st) (L.extra_cost st)) as [r x].
  simpl in Hp, Hs.
  repeat break_match; simpl; repeat split; try reflexivity;
    try (intros Hm; try (rewrite Hm in *; discriminate));
    repeat (rewrite Test_Set_other by discriminate); auto.
Qed.

Lemma advance_Continue (E : Env) (st s : L.Locals) :
  advance E st = Continue s ->
  fst (Follow E (tile (L.cur st)) (td (L.cur st))) = true
  /\ (MAX_SEGMENT_COST <? L.segment_cost st)
     && IsTileType E (new_tile (snd (Follow E (tile (L.cur st)) (td (L.cur st)))))
          MP_RAILWAY = false
  /\ ESR.Any (L.end_segment_reason s) = false.
Proof.
  unfold advance.
  destruct (Follow E (tile (L.cur st)) (td (L.cur st))) as [ok tf_local].
  destruct (next_tile_masking E (L.Y st)
              (TILE_at E (new_tile tf_local) (FindFirstBit E (new_td_bits tf_local)))
              (L.end_segment_reason st) (L.extra_cost st)) as [r x].
  repeat break_match; intros H; try discriminate; injection H as <-; simpl.
  destruct ok; [|discriminate]. repeat split; assumption.
Qed.

Lemma loop_head_frame (E : Env) (ic : bool) (st : L.Locals) :
  match loop_head E ic st with
  | Break s => node_frame (L.n st) (L.n s) /\ L.Y s = L.Y st
               /\ L.target_seen s = L.target_seen st
               /\ L.extra_cost s = L.extra_cost st
               /\ L.end_segment_reason s = Seg.end_segment_reason (segment (L.n st))
  | Continue s =>
      L.n s = L.n st /\ L.Y s = L.Y st /\ L.tf s = L.tf st /\ L.cur s = L.cur st
      /\ L.extra_cost s = L.extra_cost st
      /\ L.target_seen s = L.target_seen st
      /\ L.end_segment_reason s = L.end_segment_reason st
  end.
Proof.
  unfold loop_head, node_frame. repeat break_match; simpl; repeat split;
    try reflexivity; try apply Nat.le_refl.
Qed.

Lemma loop_head_segment_cost (E : Env) (ic : bool) (st s : L.Locals) :
  valid_settings (PfGetSettings (L.Y st)) ->
  loop_head E ic st = Continue s ->
  L.segment_cost st <= L.segment_cost s.
Proof.
  intros Hv.
  pose proof (CurveCost_nonneg E (L.Y st) (td (L.prev st)) (td (L.cur st)) Hv).
  pose proof (SwitchCost_nonneg E (L.Y st) (tile (L.prev st)) (tile (L.cur st))
                (TrackdirToExitdir E (td (L.prev st))) Hv).
  unfold loop_head. repeat break_match; intros Heq; try discriminate;
    injection Heq as <-; simpl; lia.
Qed.

Lemma loop_tail_frame (E : Env) (pc : Z) (st : L.Locals) :
  match loop_tail E pc st with
  | Break s | Continue s =>
      node_frame (L.n st) (L.n s) /\ yapf_frame (L.Y st) (L.Y s)
      /\ L.segment_entry_cost s = L.segment_entry_cost st
      /\ L.target_seen s = L.target_seen st
  end.
Proof.
  unfold loop_tail.
  destruct (tile_costs_frame E st) as (Hn1 & Hy1 & _ & _ & He1 & _ & Ht1 & _).
  destruct (target_reasons_frame E (tile_costs E st)) as (Hn2 & Hy2 & _ & _ & He2 & Ht2 & _).
  destruct (speed_penalties_frame E (target_reasons E (tile_costs E st)))
    as (Hn3 & Hy3 & _ & _ & He3 & _ & _ & Ht3).
  destruct (max_cost_check_frame pc (speed_penalties E (target_reasons E (tile_costs E st))))
    as (Hn4 & Hy4 & _ & _ & He4 & _ & _ & Ht4 & _).
  pose proof (advance_frame E
                (max_cost_check pc (speed_penalties E (target_reasons E (tile_costs E st)))))
    as Ha.
  destruct (advance E _) as [s|s]; destruct Ha as (Hn5 & Hy5 & He5 & _ & Ht5 & _);
    replace (L.n s) with (L.n (tile_costs E st)) by congruence;
    replace (L.Y s) with (L.Y (tile_costs E st)) by congruence;
    (split; [exact Hn1|]); (split; [exact Hy1|]); split; congruence.
Qed.

(** A pass that goes on to the next tile has added at least the length of a
    tile corner to the segment cost. *)
Lemma loop_tail_grows (E : Env) (pc : Z) (st s : L.Locals) :
  env_wf E ->
  valid_settings (PfGetSettings (L.Y st)) -> 0 <= tiles_skipped (L.tf st) ->
  loop_tail E pc st = Continue s ->
  L.segment_cost st + 1 <= L.segment_cost s
  /\ valid_settings (PfGetSettings (L.Y s)) /\ 0 <= tiles_skipped (L.tf s).
Proof.
  intros Hwf Hv Hsk Htail.
  pose proof (loop_tail_frame E pc st) as Hfr. rewrite Htail in Hfr.
  destruct Hfr as (_ & (Hset & _) & _).
  unfold loop_tail in Htail.
  destruct (tile_costs_frame E st) as (_ & (Hset1 & _) & Htf1 & _).
  destruct (target_reasons_frame E (tile_costs E st))
    as (_ & Hy2 & Htf2 & _ & _ & _ & _ & _ & Hany2).
  destruct (speed_penalties_frame E (target_reasons E (tile_costs E st)))
    as (_ & _ & _ & _ & _ & Hs3 & Hr3 & _).
  destruct (max_cost_check_frame pc (speed_penalties E (target_reasons E (tile_costs E st))))
    as (_ & _ & _ & Hc4 & _ & Hs4 & _ & _ & Hany4).
  pose proof (advance_frame E
                (max_cost_check pc (speed_penalties E (target_reasons E (tile_costs E st)))))
    as Ha.
  rewrite Htail in Ha. destruct Ha as (_ & _ & _ & Hs5 & _ & Htf5 & _).
  assert (Hnone : ESR.Any (L.end_segment_reason
                    (max_cost_check pc
                       (speed_penalties E (target_reasons E (tile_costs E st))))) = false).
  { apply not_true_is_false. intros Hany.
    destruct (advance_on_reason E _ Hany) as (s' & Hs'). congruence. }
  assert (Hnone1 : ESR.Any (L.end_segment_reason (tile_costs E st)) = false).
  { apply not_true_is_false. intros Hany.
    apply Hany2 in Hany. rewrite <- Hr3 in Hany. apply Hany4 in Hany. congruence. }
  pose proof (tile_costs_progress E st Hwf Hv Hsk Hnone1) as Hp1.
  assert (Hv1 : valid_settings (PfGetSettings (L.Y (tile_costs E st))))
    by (rewrite Hset1; exact Hv).
  assert (Hsk1 : 0 <= tiles_skipped (L.tf (tile_costs E st))) by (rewrite Htf1; exact Hsk).
  pose proof (target_reasons_segment_cost E (tile_costs E st) Hv1 Hsk1) as Hp2.
  split; [rewrite Hs5, Hs4, Hs3 in *; lia|].
  split; [rewrite Hset; exact Hv|].
  rewrite Htf5. destruct Hwf as (_ & _ & Hfol & _). apply Hfol.
Qed.

(** On plain rails it also stays within [MAX_SEGMENT_COST]. *)
Lemma loop_tail_progress (E : Env) (pc : Z) (st s : L.Locals) :
  env_wf E -> rails_only E ->
  valid_settings (PfGetSettings (L.Y st)) -> 0 <= tiles_skipped (L.tf st) ->
  loop_tail E pc st = Continue s ->
  L.segment_cost st + 1 <= L.segment_cost s <= MAX_SEGMENT_COST
  /\ valid_settings (PfGetSettings (L.Y s)) /\ 0 <= tiles_skipped (L.tf s).
Proof.
  intros Hwf Hrails Hv Hsk Htail.
  destruct (loop_tail_grows E pc st s Hwf Hv Hsk Htail) as (Hg & Hv' & Hsk').
  split; [|split; assumption]. split; [exact Hg|].
  pose proof (advance_frame E
                (max_cost_check pc (speed_penalties E (target_reasons E (tile_costs E st)))))
    as Ha.
  unfold loop_tail in Htail. rewrite Htail in Ha.
  destruct Ha as (_ & _ & _ & Hs5 & _).
  destruct (advance_Continue E _ s Htail) as (Hok & Hmax & _).
  rewrite (Hrails _ _ Hok), andb_true_r in Hmax. apply Z.ltb_ge in Hmax.
  rewrite Hs5. exact Hmax.
Qed.

Lemma walk_terminates (E : Env) (pc : Z) (ic : bool) (fuel : nat) (st : L.Locals) :
  env_wf E -> rails_only E ->
  valid_settings (PfGetSettings (L.Y st)) -> 0 <= tiles_skipped (L.tf st) ->
  (1 <= fuel)%nat -> MAX_SEGMENT_COST + 2 - L.segment_cost st <= Z.of_nat fuel ->
  exists f, walk E pc ic fuel st = Some f.
Proof.
  intros Hwf Hrails. revert st.
  induction fuel as [|fuel IH]; intros st Hv Hsk H1 Hm; [lia|].
  simpl. destruct (loop_tail E pc st) as [s|s] eqn:Htail; [eexists; reflexivity|].
  destruct (loop_tail_progress E pc st s Hwf Hrails Hv Hsk Htail) as (Hseg & Hv' & Hsk').
  pose proof (loop_head_frame E ic s) as Hh.
  destruct (loop_head E ic s) as [s'|s'] eqn:Hhead; [eexists; reflexivity|].
  destruct Hh as (_ & Hy & Htf & _).
  pose proof (loop_head_segment_cost E ic s s' Hv' Hhead) as Hle.
  apply IH.
  - rewrite Hy. exact Hv'.
  - rewrite Htf. exact Hsk'.
  - unfold MAX_SEGMENT_COST in *. lia.
  - unfold MAX_SEGMENT_COST in *. lia.
Qed.

(** X2: on a map where the follower only leads onto plain railway tiles,
    with settings inside their ranges, [PfCalcCost] always returns: every
    pass that goes on adds at least 1 to the segment cost and the loop stops
    once the cost is above [MAX_SEGMENT_COST], so [MAX_SEGMENT_COST + 2]
    passes are enough for any node. *)
Theorem PfCalcCost_terminates_on_rails
    (E : Env) (fuel : nat) (Y : Yapf) (n : Node) (tf : TrackFollower) :
  env_wf E -> rails_only E ->
  valid_settings (PfGetSettings Y) -> 0 <= tiles_skipped tf ->
  MAX_SEGMENT_COST + 2 <= Z.of_nat fuel ->
  exists r, PfCalcCost E fuel Y n tf = Some r.
Proof.
  intros Hwf Hrails Hv Hsk Hfuel. unfold PfCalcCost.
  pose proof (PfCalcCost_enter_ok E Y n tf Hwf Hv Hsk) as Hok.
  destruct (PfCalcCost_enter E Y n tf) as [s|s]; [eexists; reflexivity|].
  destruct Hok as (_ & Hseg & _ & Hvs & Hsks & _).
  destruct (walk_terminates E (parent_cost_of n) (0 <=? Seg.cost (segment n)) fuel s
              Hwf Hrails Hvs Hsks) as (f & Hf).
  - unfold MAX_SEGMENT_COST in Hfuel. lia.
  - lia.
  - rewrite Hf. eexists. reflexivity.
Qed.

Lemma PfCalcCost_terminates_on_rails_witness :
  let E := World.env (World.plain 9) in
  exists r, PfCalcCost E (Z.to_nat 10002) World.yapf (World.node E 0 None 0 false)
              (World.arriving 0) = Some r.
Proof.
  intros E.
  apply (PfCalcCost_terminates_on_rails E (Z.to_nat 10002) World.yapf
           (World.node E 0 None 0 false) (World.arriving 0)).
  - apply World_env_wf.
  - intros t d _. reflexivity.
  - apply default_settings_valid.
  - simpl. lia.
  - rewrite Z2Nat.id by lia. unfold MAX_SEGMENT_COST. lia.
Defined.

Lemma walk_frame (E : Env) (pc : Z) (ic : bool) (fuel : nat) (st f : L.Locals) :
  walk E pc ic fuel st = Some f ->
  node_frame (L.n st) (L.n f) /\ yapf_frame (L.Y st) (L.Y f)
  /\ L.target_seen f = L.target_seen st.
Proof.
  revert st. induction fuel as [|fuel IH]; intros st Hw; [discriminate|].
  simpl in Hw. pose proof (loop_tail_frame E pc st) as Ht.
  destruct (loop_tail E pc st) as [s|s].
  - injection Hw as <-. destruct Ht as (? & ? & _ & ?).
    split; [assumption|]. split; assumption.
  - destruct Ht as (Hn & Hy & _ & Hts).
    pose proof (loop_head_frame E ic s) as Hh.
    destruct (loop_head E ic s) as [s'|s'].
    + injection Hw as <-. destruct Hh as (Hn' & Hy' & Hts' & _).
      split; [exact (node_frame_trans _ _ _ Hn Hn')|].
      split; [rewrite Hy'; exact Hy|]. congruence.
    + destruct Hh as (Hn' & Hy' & _ & _ & _ & Hts' & _).
      destruct (IH s' Hw) as (Hn'' & Hy'' & Hts'').
      rewrite Hn' in Hn''. rewrite Hy' in Hy''.
      split; [exact (node_frame_trans _ _ _ Hn Hn'')|].
      split; [exact (yapf_frame_trans _ _ _ Hy Hy'')|]. congruence.
Qed.

Lemma PfCalcCost_enter_frame (E : Env) (Y : Yapf) (n : Node) (tf : TrackFollower) :
  match PfCalcCost_enter E Y n tf with
  | Break s => node_frame n (L.n s) /\ L.Y s = Y /\ L.target_seen s = false
               /\ L.extra_cost s = 0
               /\ L.end_segment_reason s = Seg.end_segment_reason (segment n)
  | Continue s => L.n s = n /\ L.Y s = Y /\ L.target_seen s = false
                  /\ L.extra_cost s = 0 /\ L.end_segment_reason s = ESR.empty
  end.
Proof.
  unfold PfCalcCost_enter. destruct (parent n) as [p|].
  - pose proof (loop_head_frame E (0 <=? Seg.cost (segment n)) (PfCalcCost_init E Y n tf))
      as Hh.
    destruct (loop_head E _ _) as [s|s]; unfold PfCalcCost_init in Hh; simpl in Hh.
    + destruct Hh as (? & ? & ? & ? & ?).
      split; [assumption|]. repeat split; assumption.
    + destruct Hh as (? & ? & _ & _ & ? & ? & ?). repeat split; assumption.
  - unfold PfCalcCost_init. simpl. repeat split; reflexivity.
Qed.

(** The state that [PfCalcCost] leaves the loop with. *)
Lemma PfCalcCost_loop_frame
    (E : Env) (fuel : nat) (Y : Yapf) (n : Node) (tf : TrackFollower)
    (b : bool) (st : L.Locals) :
  PfCalcCost E fuel Y n tf = Some (b, st) ->
  exists s, finish E (parent_cost_of n) (0 <=? Seg.cost (segment n)) s = (b, st)
            /\ node_frame n (L.n s) /\ yapf_frame Y (L.Y s)
            /\ L.target_seen s = false
            /\ match PfCalcCost_enter E Y n tf with
               | Break s0 => s0 = s
               | Continue s0 =>
                   walk E (parent_cost_of n) (0 <=? Seg.cost (segment n)) fuel s0 = Some s
               end.
Proof.
  intros Hrun.
  destruct (PfCalcCost_finish E fuel Y n tf b st Hrun) as (s & Hfin & Hw).
  exists s. split; [exact Hfin|].
  pose proof (PfCalcCost_enter_frame E Y n tf) as He.
  destruct (PfCalcCost_enter E Y n tf) as [s0|s0].
  - subst s0. destruct He as (Hn & Hy & Ht & _).
    split; [exact Hn|]. split; [rewrite Hy; apply yapf_frame_refl|].
    split; [exact Ht | reflexivity].
  - destruct He as (Hn & Hy & Ht & _).
    destruct (walk_frame E _ _ fuel s0 s Hw) as (Hn' & Hy' & Ht').
    rewrite Hn in Hn'. rewrite Hy in Hy'.
    split; [exact Hn'|]. split; [exact Hy'|]. split; [congruence | exact Hw].
Qed.

Lemma finish_frame (E : Env) (pc : Z) (ic : bool) (s : L.Locals) :
  key_tile (L.n (snd (finish E pc ic s))) = key_tile (L.n s)
  /\ key_td (L.n (snd (finish E pc ic s))) = key_td (L.n s)
  /\ parent (L.n (snd (finish E pc ic s))) = parent (L.n s)
  /\ choice_seen (L.n (snd (finish E pc ic s))) = choice_seen (L.n s)
  /\ num_signals_passed (L.n (snd (finish E pc ic s))) = num_signals_passed (L.n s)
  /\ last_signal_was_red (L.n (snd (finish E pc ic s))) = last_signal_was_red (L.n s)
  /\ last_red_signal_type (L.n (snd (finish E pc ic s))) = last_red_signal_type (L.n s)
  /\ L.cur (snd (finish E pc ic s)) = L.cur s
  /\ (fst (finish E pc ic s) = false ->
      cost (L.n (snd (finish E pc ic s))) = cost (L.n s)
      /\ target_seen (L.n (snd (finish E pc ic s))) = target_seen (L.n s))
  /\ (ic = true -> segment (L.n (snd (finish E pc ic s))) = segment (L.n s)).
Proof.
  unfold finish. destruct ic; simpl;
    repeat break_match; simpl; repeat split; try reflexivity;
    try discriminate; congruence.
Qed.

Lemma walk_prefix_grows (E : Env) (pc : Z) (ic : bool) (k : nat) (st st_k : L.Locals) :
  env_wf E ->
  valid_settings (PfGetSettings (L.Y st)) -> 0 <= tiles_skipped (L.tf st) ->
  walk_prefix E pc ic k st = Some st_k ->
  L.segment_cost st + Z.of_nat k <= L.segment_cost st_k
  /\ valid_settings (PfGetSettings (L.Y st_k)) /\ 0 <= tiles_skipped (L.tf st_k).
Proof.
  intros Hwf. revert st. induction k as [|k IH]; intros st Hv Hsk Hp.
  - injection Hp as <-. split; [lia|]. split; assumption.
  - simpl in Hp. destruct (loop_tail E pc st) as [s|s] eqn:Htail; [discriminate|].
    destruct (loop_tail_grows E pc st s Hwf Hv Hsk Htail) as (Hg & Hv' & Hsk').
    pose proof (loop_head_frame E ic s) as Hh.
    destruct (loop_head E ic s) as [s'|s'] eqn:Hhead; [discriminate|].
    destruct Hh as (_ & Hy & Htf & _).
    pose proof (loop_head_segment_cost E ic s s' Hv' Hhead) as Hle.
    destruct (IH s') as (Hk & Hvk & Hskk); [rewrite Hy; exact Hv' | rewrite Htf; exact Hsk'
                                            | exact Hp |].
    split; [lia|]. split; assumption.
Qed.

(** X3: the segment cost grows with every tile: at the start of pass [k + 1]
    of the loop of [PfCalcCost] the segment cost is at least [k]. *)
Theorem segment_cost_grows_with_every_tile
    (E : Env) (Y : Yapf) (n : Node) (tf : TrackFollower) (k : nat)
    (st0 st_k : L.Locals) :
  env_wf E -> valid_settings (PfGetSettings Y) -> 0 <= tiles_skipped tf ->
  PfCalcCost_enter E Y n tf = Continue st0 ->
  walk_prefix E (parent_cost_of n) (0 <=? Seg.cost (segment n)) k st0 = Some st_k ->
  Z.of_nat k <= L.segment_cost st_k.
Proof.
  intros Hwf Hv Hsk Henter Hp.
  pose proof (PfCalcCost_enter_ok E Y n tf Hwf Hv Hsk) as Hok.
  rewrite Henter in Hok. destruct Hok as (_ & Hseg & _ & Hvs & Hsks & _).
  destruct (walk_prefix_grows E _ _ k st0 st_k Hwf Hvs Hsks Hp) as (Hg & _).
  lia.
Qed.

Lemma segment_cost_grows_with_every_tile_witness :
  let E := World.env World.junction_row in
  let n := World.node E 0 None 0 false in
  exists st0 st_k,
    PfCalcCost_enter E World.yapf n (World.arriving 0) = Continue st0
    /\ walk_prefix E 0 false 3 st0 = Some st_k
    /\ Z.of_nat 3 <= L.segment_cost st_k.
Proof.
  intros E n.
  destruct (PfCalcCost_enter E World.yapf n (World.arriving 0)) as [st0|st0] eqn:Henter;
    [vm_compute in Henter; discriminate|].
  destruct (walk_prefix E 0 false 3 st0) as [st_k|] eqn:Hp;
    [|vm_compute in Henter; injection Henter as <-; vm_compute in Hp; discriminate].
  exists st0, st_k. split; [reflexivity|]. split; [exact Hp|].
  apply (segment_cost_grows_with_every_tile E World.yapf n (World.arriving 0) 3 st0 st_k).
  - apply World_env_wf.
  - apply default_settings_valid.
  - simpl. lia.
  - exact Henter.
  - exact Hp.
Defined.

(** ** What [PfCalcCost] leaves alone, and the maximum cost *)

(** X4: [PfCalcCost] never changes the key, the parent or the [choice_seen]
    flag of the node and never lowers its count of passed signals; a node it
    rejects also keeps its cost and its [target_seen] flag. *)
Theorem PfCalcCost_keeps_node_identity
    (E : Env) (fuel : nat) (Y : Yapf) (n : Node) (tf : TrackFollower)
    (b : bool) (st : L.Locals) :
  PfCalcCost E fuel Y n tf = Some (b, st) ->
  key_tile (L.n st) = key_tile n /\ key_td (L.n st) = key_td n
  /\ parent (L.n st) = parent n /\ choice_seen (L.n st) = choice_seen n
  /\ (num_signals_passed n <= num_signals_passed (L.n st))%nat
  /\ (b = false -> cost (L.n st) = cost n /\ target_seen (L.n st) = target_seen n).
Proof.
  intros Hrun.
  destruct (PfCalcCost_loop_frame E fuel Y n tf b st Hrun) as (s & Hfin & Hn & _).
  destruct Hn as (Hkt & Hkd & Hp & Hc & Hts & Hcs & _ & _ & _ & Hsig & _).
  destruct (finish_frame E (parent_cost_of n) (0 <=? Seg.cost (segment n)) s)
    as (Fkt & Fkd & Fp & Fcs & Fsig & _ & _ & _ & Frej & _).
  rewrite Hfin in *. simpl in *.
  split; [congruence|]. split; [congruence|]. split; [congruence|].
  split; [congruence|]. split; [rewrite Fsig; exact Hsig|].
  intros Hb. destruct (Frej Hb). split; congruence.
Qed.

Lemma PfCalcCost_keeps_node_identity_witness :
  let E := World.signalled true false SIGNAL_STATE_GREEN SIGTYPE_BLOCK in
  let n := World.node E 0 None 0 false in
  exists st, PfCalcCost E 20 World.yapf n (World.arriving 0) = Some (false, st)
             /\ key_tile (L.n st) = key_tile n /\ key_td (L.n st) = key_td n
             /\ parent (L.n st) = parent n /\ choice_seen (L.n st) = choice_seen n
             /\ (num_signals_passed n <= num_signals_passed (L.n st))%nat
             /\ cost (L.n st) = cost n /\ target_seen (L.n st) = target_seen n.
Proof.
  intros E n.
  destruct (PfCalcCost E 20 World.yapf n (World.arriving 0)) as [[b st]|] eqn:Hrun;
    [|vm_compute in Hrun; discriminate].
  assert (Hb : b = false) by (vm_compute in Hrun; congruence). subst b.
  exists st. split; [reflexivity|].
  destruct (PfCalcCost_keeps_node_identity E 20 World.yapf n (World.arriving 0) false st Hrun)
    as (Hkt & Hkd & Hp & Hcs & Hsig & Hrej).
  destruct (Hrej eq_refl) as (Hc & Hts).
  repeat split; assumption.
Defined.



Lemma loop_tail_no_limit (E : Env) (pc : Z) (st : L.Locals) :
  max_cost (L.Y st) <= 0 ->
  ESR.Test (Seg.end_segment_reason (segment (L.n st))) PathTooLong = false ->
  match loop_tail E pc st with
  | Break s | Continue s => ESR.Test (L.end_segment_reason s) PathTooLong = false
  end.
Proof.
  intros Hmax Hseg. unfold loop_tail.
  destruct (tile_costs_frame E st) as (Hn1 & Hy1 & _ & _ & _ & _ & _ & Hr1).
  destruct (target_reasons_frame E (tile_costs E st)) as (_ & Hy2 & _ & _ & _ & _ & Hr2 & _).
  destruct (speed_penalties_frame E (target_reasons E (tile_costs E st)))
    as (_ & Hy3 & _ & _ & _ & _ & Hr3 & _).
  assert (Hst3 : max_cost_check pc (speed_penalties E (target_reasons E (tile_costs E st)))
                 = speed_penalties E (target_reasons E (tile_costs E st))).
  { unfold max_cost_check, max_cost_exceeded. rewrite Hy3, Hy2.
    destruct Hy1 as (_ & Hm & _). rewrite Hm.
    replace (0 <? max_cost (L.Y st)) with false by (symmetry; apply Z.ltb_ge; exact Hmax).
    reflexivity. }
  rewrite Hst3.
  pose proof (advance_frame E (speed_penalties E (target_reasons E (tile_costs E st)))) as Ha.
  assert (Hr : ESR.Test (L.end_segment_reason
                 (speed_penalties E (target_reasons E (tile_costs E st)))) PathTooLong = false).
  { rewrite Hr3, Hr2, Hr1.
    destruct Hn1 as (_ & _ & _ & _ & _ & _ & _ & _ & _ & _ & Hre).
    rewrite (Hre PathTooLong) by discriminate. exact Hseg. }
  destruct (advance E _) as [s|s]; destruct Ha as (_ & _ & _ & _ & _ & _ & Hp & _);
    rewrite Hp; exact Hr.
Qed.

Lemma walk_no_limit (E : Env) (pc : Z) (ic : bool) (fuel : nat) (st f : L.Locals) :
  max_cost (L.Y st) <= 0 ->
  ESR.Test (Seg.end_segment_reason (segment (L.n st))) PathTooLong = false ->
  walk E pc ic fuel st = Some f ->
  ESR.Test (L.end_segment_reason f) PathTooLong = false.
Proof.
  revert st. induction fuel as [|fuel IH]; intros st Hmax Hseg Hw; [discriminate|].
  simpl in Hw. pose proof (loop_tail_no_limit E pc st Hmax Hseg) as Ht.
  pose proof (loop_tail_frame E pc st) as Hf.
  destruct (loop_tail E pc st) as [s|s].
  - injection Hw as <-. exact Ht.
  - destruct Hf as (Hn & Hy & _).
    assert (Hseg' : ESR.Test (Seg.end_segment_reason (segment (L.n s))) PathTooLong = false).
    { destruct Hn as (_ & _ & _ & _ & _ & _ & _ & _ & _ & _ & Hre).
      rewrite (Hre PathTooLong) by discriminate. exact Hseg. }
    assert (Hmax' : max_cost (L.Y s) <= 0).
    { destruct Hy as (_ & Hm & _). rewrite Hm. exact Hmax. }
    pose proof (loop_head_frame E ic s) as Hh.
    destruct (loop_head E ic s) as [s'|s'].
    + injection Hw as <-. destruct Hh as (_ & _ & _ & _ & Hr). rewrite Hr. exact Hseg'.
    + destruct Hh as (Hn' & Hy' & _). apply (IH s'); [| |exact Hw].
      * rewrite Hy'. exact Hmax'.
      * rewrite Hn'. exact Hseg'.
Qed.

(** X6: a [max_cost] of zero (or below) means no limit: [PfCalcCost] never
    ends with [PathTooLong] then. *)
Theorem no_max_cost_never_path_too_long
    (E : Env) (fuel : nat) (Y : Yapf) (n : Node) (tf : TrackFollower)
    (b : bool) (st : L.Locals) :
  max_cost Y <= 0 ->
  ESR.Test (Seg.end_segment_reason (segment n)) PathTooLong = false ->
  PfCalcCost E fuel Y n tf = Some (b, st) ->
  ESR.Test (L.end_segment_reason st) PathTooLong = false.
Proof.
  intros Hmax Hseg Hrun.
  destruct (PfCalcCost_finish E fuel Y n tf b st Hrun) as (s & Hfin & Hw).
  destruct (finish_keeps E (parent_cost_of n) (0 <=? Seg.cost (segment n)) s)
    as (_ & Hr & _).
  rewrite Hfin in Hr. simpl in Hr. rewrite Hr.
  pose proof (PfCalcCost_enter_frame E Y n tf) as He.
  destruct (PfCalcCost_enter E Y n tf) as [s0|s0].
  - subst s0. destruct He as (_ & _ & _ & _ & Hre). rewrite Hre. exact Hseg.
  - destruct He as (Hn & Hy & _).
    apply (walk_no_limit E (parent_cost_of n) (0 <=? Seg.cost (segment n)) fuel s0 s);
      [| |exact Hw].
    + rewrite Hy. exact Hmax.
    + rewrite Hn. exact Hseg.
Qed.

Lemma no_max_cost_never_path_too_long_witness :
  let E := World.env World.junction_row in
  let n := World.node E 0 None 0 false in
  exists st, PfCalcCost E 20 World.yapf n (World.arriving 0) = Some (true, st)
             /\ ESR.Test (L.end_segment_reason st) PathTooLong = false.
Proof.
  intros E n.
  destruct (PfCalcCost E 20 World.yapf n (World.arriving 0)) as [[b st]|] eqn:Hrun;
    [|vm_compute in Hrun; discriminate].
  assert (Hb : b = true) by (vm_compute in Hrun; congruence). subst b.
  exists st. split; [reflexivity|].
  apply (no_max_cost_never_path_too_long E 20 World.yapf n (World.arriving 0) true st);
    [vm_compute; discriminate | reflexivity | exact Hrun].
Defined.

Lemma loop_tail_within_max_cost (E : Env) (pc : Z) (st s : L.Locals) :
  loop_tail E pc st = Break s ->
  ESR.Test (L.end_segment_reason s) PathTooLong = false ->
  0 < max_cost (L.Y s) ->
  pc + L.segment_entry_cost s + L.segment_cost s <= max_cost (L.Y s).
Proof.
  unfold loop_tail. intros Hadv Hptl Hmax.
  pose proof (advance_frame E
                (max_cost_check pc (speed_penalties E (target_reasons E (tile_costs E st)))))
    as Ha.
  rewrite Hadv in Ha. destruct Ha as (_ & Hy & He & Hs & _ & _ & Hp & _).
  destruct (max_cost_check_cases pc (speed_penalties E (target_reasons E (tile_costs E st))))
    as [[Hex Heq]|Hset].
  - rewrite Heq in Hy, He, Hs. unfold max_cost_exceeded in Hex.
    rewrite <- Hy, <- He, <- Hs in Hex.
    apply andb_false_iff in Hex. destruct Hex as [Hex|Hex]; apply Z.ltb_ge in Hex; lia.
  - rewrite Hp, Hset in Hptl. discriminate.
Qed.

Lemma walk_within_max_cost (E : Env) (pc : Z) (fuel : nat) (st f : L.Locals) :
  walk E pc false fuel st = Some f ->
  ESR.Test (L.end_segment_reason f) PathTooLong = false ->
  0 < max_cost (L.Y f) ->
  pc + L.segment_entry_cost f + L.segment_cost f <= max_cost (L.Y f).
Proof.
  revert st. induction fuel as [|fuel IH]; intros st Hw; [discriminate|].
  simpl in Hw. destruct (loop_tail E pc st) as [s|s] eqn:Htail.
  - injection Hw as <-. apply (loop_tail_within_max_cost E pc st s Htail).
  - destruct (loop_head_uncached E s) as (s' & Hs' & _). rewrite Hs' in Hw.
    apply (IH s' Hw).
Qed.

(** X7: with a positive [max_cost], a node that [PfCalcCost] accepts after
    walking its segment has parent cost, entry cost and segment cost within
    [max_cost] together; only the extra cost can take it above. *)
Theorem accepted_walk_within_max_cost
    (E : Env) (fuel : nat) (Y : Yapf) (n : Node) (tf : TrackFollower) (st : L.Locals) :
  Seg.cost (segment n) < 0 ->
  0 < max_cost Y ->
  PfCalcCost E fuel Y n tf = Some (true, st) ->
  parent_cost_of n + L.segment_entry_cost st + L.segment_cost st <= max_cost Y
  /\ cost (L.n st) - L.extra_cost st <= max_cost Y.
Proof.
  intros Hc Hmax Hrun.
  destruct (PfCalcCost_finish E fuel Y n tf true st Hrun) as (s & Hfin & Hw).
  pose proof (finish_accepts_sum E _ _ s st Hfin) as Hsum.
  destruct (finish_keeps E (parent_cost_of n) (0 <=? Seg.cost (segment n)) s)
    as (Hk1 & Hk2 & Hk3 & Hk4).
  rewrite Hfin in Hk1, Hk2, Hk3, Hk4. simpl in Hk1, Hk2, Hk3, Hk4.
  destruct (PfCalcCost_enter_uncached E Y n tf Hc) as (s0 & Hs0 & _).
  rewrite Hs0 in Hw.
  assert (Hic : (0 <=? Seg.cost (segment n)) = false) by (apply Z.leb_gt; exact Hc).
  rewrite Hic in Hw, Hfin.
  assert (Hptl : ESR.Test (L.end_segment_reason s) PathTooLong = false).
  { destruct (ESR.Test (L.end_segment_reason s) PathTooLong) eqn:Hp; [|reflexivity].
    rewrite (finish_PathTooLong E _ _ s Hp) in Hfin. discriminate. }
  destruct (PfCalcCost_enter_uncached E Y n tf Hc) as (s0' & Hs0' & _ & Hy0 & _).
  assert (s0' = s0) by congruence. subst s0'.
  destruct (walk_frame E _ _ fuel s0 s Hw) as (_ & (_ & Hm & _) & _).
  rewrite Hy0 in Hm.
  pose proof (walk_within_max_cost E _ fuel s0 s Hw Hptl) as Hb.
  rewrite Hm in Hb. specialize (Hb Hmax). lia.
Qed.

Lemma accepted_walk_within_max_cost_witness :
  let E := World.env World.junction_row in
  let Y := SetMaxCost World.yapf 1000 in
  let n := World.node E 0 None 0 false in
  exists st, PfCalcCost E 20 Y n (World.arriving 0) = Some (true, st)
             /\ parent_cost_of n + L.segment_entry_cost st + L.segment_cost st <= 1000
             /\ cost (L.n st) - L.extra_cost st <= 1000.
Proof.
  intros E Y n.
  destruct (PfCalcCost E 20 Y n (World.arriving 0)) as [[b st]|] eqn:Hrun;
    [|vm_compute in Hrun; discriminate].
  assert (Hb : b = true) by (vm_compute in Hrun; congruence). subst b.
  exists st. split; [reflexivity|].
  apply (accepted_walk_within_max_cost E 20 Y n (World.arriving 0) st);
    [vm_compute; reflexivity | vm_compute; reflexivity | exact Hrun].
Defined.

(** X8: when [PfCalcCost] ends with [PathTooLong] it returns false and has
    written neither the cost of the segment nor the cost or the target flag
    of the node: a segment cut by the limit stays uncomputed. *)
Theorem path_too_long_leaves_segment_uncomputed
    (E : Env) (fuel : nat) (Y : Yapf) (n : Node) (tf : TrackFollower)
    (b : bool) (st : L.Locals) :
  PfCalcCost E fuel Y n tf = Some (b, st) ->
  ESR.Test (L.end_segment_reason st) PathTooLong = true ->
  b = false
  /\ Seg.cost (segment (L.n st)) = Seg.cost (segment n)
  /\ cost (L.n st) = cost n
  /\ target_seen (L.n st) = target_seen n.
Proof.
  intros Hrun Hptl.
  destruct (PfCalcCost_loop_frame E fuel Y n tf b st Hrun) as (s & Hfin & Hn & _).
  destruct (finish_keeps E (parent_cost_of n) (0 <=? Seg.cost (segment n)) s)
    as (_ & Hr & _).
  rewrite Hfin in Hr. simpl in Hr. rewrite Hr in Hptl.
  rewrite (finish_PathTooLong E _ _ s Hptl) in Hfin.
  injection Hfin as <- <-.
  destruct Hn as (_ & _ & _ & Hc & Hts & _ & Hsc & _).
  repeat split; assumption.
Qed.

Lemma path_too_long_leaves_segment_uncomputed_witness :
  let E := World.env World.junction_row in
  let Y := SetMaxCost World.yapf 250 in
  let n := World.node E 0 None 0 false in
  exists st, PfCalcCost E 20 Y n (World.arriving 0) = Some (false, st)
             /\ Seg.cost (segment (L.n st)) = -1
             /\ cost (L.n st) = cost n.
Proof.
  intros E Y n.
  destruct (PfCalcCost E 20 Y n (World.arriving 0)) as [[b st]|] eqn:Hrun;
    [|vm_compute in Hrun; discriminate].
  assert (Hb : b = false) by (vm_compute in Hrun; congruence). subst b.
  exists st. split; [reflexivity|].
  destruct (path_too_long_leaves_segment_uncomputed E 20 Y n (World.arriving 0) false st Hrun)
    as (_ & Hsc & Hc & _).
  - vm_compute in Hrun. injection Hrun as <-. reflexivity.
  - split; [rewrite Hsc; reflexivity | exact Hc].
Defined.




Lemma finish_segment_reason (E : Env) (pc : Z) (ic : bool) (s : L.Locals)
    (e : EndSegmentReason) :
  ESR.Test (L.end_segment_reason s) e = false ->
  ESR.Test (Seg.end_segment_reason (segment (L.n s))) e = false ->
  ESR.Test (Seg.end_segment_reason (segment (L.n (snd (finish E pc ic s))))) e = false.
Proof.
  intros Hr Hs. unfold finish.
  repeat break_match; simpl; try assumption; rewrite Test_And, Hr; reflexivity.
Qed.

(** X10: [PathTooLong] never reaches the segment: whatever
    [ESRF_CACHED_MASK] is, a segment without it has none after [PfCalcCost]. *)
Theorem segment_never_holds_path_too_long
    (E : Env) (fuel : nat) (Y : Yapf) (n : Node) (tf : TrackFollower)
    (b : bool) (st : L.Locals) :
  ESR.Test (Seg.end_segment_reason (segment n)) PathTooLong = false ->
  PfCalcCost E fuel Y n tf = Some (b, st) ->
  ESR.Test (Seg.end_segment_reason (segment (L.n st))) PathTooLong = false.
Proof.
  intros Hseg Hrun.
  destruct (PfCalcCost_loop_frame E fuel Y n tf b st Hrun) as (s & Hfin & Hn & _).
  destruct Hn as (_ & _ & _ & _ & _ & _ & _ & _ & _ & _ & Hre).
  assert (Hs : ESR.Test (Seg.end_segment_reason (segment (L.n s))) PathTooLong = false).
  { rewrite (Hre PathTooLong) by discriminate. exact Hseg. }
  destruct (ESR.Test (L.end_segment_reason s) PathTooLong) eqn:Hp.
  - rewrite (finish_PathTooLong E _ _ s Hp) in Hfin. injection Hfin as <- <-. exact Hs.
  - pose proof (finish_segment_reason E (parent_cost_of n) (0 <=? Seg.cost (segment n)) s
                  PathTooLong Hp Hs) as Hf.
    rewrite Hfin in Hf. exact Hf.
Qed.

Lemma segment_never_holds_path_too_long_witness :
  let E := World.env World.junction_row in
  let Y := SetMaxCost World.yapf 250 in
  let n := World.node E 0 None 0 false in
  exists st, PfCalcCost E 20 Y n (World.arriving 0) = Some (false, st)
             /\ ESR.Test (L.end_segment_reason st) PathTooLong = true
             /\ ESR.Test (Seg.end_segment_reason (segment (L.n st))) PathTooLong = false.
Proof.
  intros E Y n.
  destruct (PfCalcCost E 20 Y n (World.arriving 0)) as [[b st]|] eqn:Hrun;
    [|vm_compute in Hrun; discriminate].
  assert (Hb : b = false) by (vm_compute in Hrun; congruence). subst b.
  exists st. split; [reflexivity|]. split.
  - vm_compute in Hrun. injection Hrun as <-. reflexivity.
  - apply (segment_never_holds_path_too_long E 20 Y n (World.arriving 0) false st);
      [reflexivity | exact Hrun].
Defined.

Lemma finish_target_seen (E : Env) (pc : Z) (ic : bool) (s : L.Locals) :
  L.target_seen (snd (finish E pc ic s)) = true ->
  L.target_seen s = true
  \/ (fst (finish E pc ic s) = true
      /\ target_seen (L.n (snd (finish E pc ic s))) = true
      /\ PfDetectDestination E (tile (L.cur s)) (td (L.cur s)) = true
      /\ ESR.AnyOf (L.end_segment_reason s) (ESRF_POSSIBLE_TARGET E) = true
      /\ ESR.Test (L.end_segment_reason s) PathTooLong = false).
Proof.
  unfold finish.
  destruct (ESR.Test (L.end_segment_reason s) PathTooLong) eqn:Hp;
    [simpl; intros H; left; exact H|].
  destruct (ESR.AnyOf (L.end_segment_reason s) (ESRF_POSSIBLE_TARGET E)) eqn:Hpt;
    [|simpl; repeat break_match; simpl; discriminate].
  destruct (PfDetectDestination E (tile (L.cur s)) (td (L.cur s))) eqn:Hd;
    [|simpl; repeat break_match; simpl; discriminate].
  simpl. repeat break_match; simpl; intros _; right; repeat split; reflexivity.
Qed.

(** X11: [PfCalcCost] sees the target only where [PfDetectDestination] holds
    at the last tile, with one of the possible-target reasons set and without
    [PathTooLong]; the node is accepted then and flagged [target_seen]. *)
Theorem target_seen_needs_detection
    (E : Env) (fuel : nat) (Y : Yapf) (n : Node) (tf : TrackFollower)
    (b : bool) (st : L.Locals) :
  PfCalcCost E fuel Y n tf = Some (b, st) ->
  L.target_seen st = true ->
  b = true
  /\ target_seen (L.n st) = true
  /\ PfDetectDestination E (tile (L.cur st)) (td (L.cur st)) = true
  /\ ESR.AnyOf (L.end_segment_reason st) (ESRF_POSSIBLE_TARGET E) = true
  /\ ESR.Test (L.end_segment_reason st) PathTooLong = false.
Proof.
  intros Hrun Hts.
  destruct (PfCalcCost_loop_frame E fuel Y n tf b st Hrun) as (s & Hfin & _ & _ & Hs & _).
  destruct (finish_keeps E (parent_cost_of n) (0 <=? Seg.cost (segment n)) s)
    as (_ & Hr & _).
  destruct (finish_frame E (parent_cost_of n) (0 <=? Seg.cost (segment n)) s)
    as (_ & _ & _ & _ & _ & _ & _ & Hcur & _).
  pose proof (finish_target_seen E (parent_cost_of n) (0 <=? Seg.cost (segment n)) s) as Hf.
  rewrite Hfin in Hr, Hcur, Hf. simpl in Hr, Hcur, Hf.
  destruct (Hf Hts) as [Habs|(H1 & H2 & H3 & H4 & H5)]; [congruence|].
  rewrite Hr, Hcur. repeat split; assumption.
Qed.

Lemma target_seen_needs_detection_witness :
  let E := World.env World.platform_row in
  let n := World.node E 0 None 0 false in
  exists st, PfCalcCost E 20 World.yapf n (World.arriving 0) = Some (true, st)
             /\ target_seen (L.n st) = true
             /\ PfDetectDestination E (tile (L.cur st)) (td (L.cur st)) = true.
Proof.
  intros E n.
  destruct (PfCalcCost E 20 World.yapf n (World.arriving 0)) as [[b st]|] eqn:Hrun;
    [|vm_compute in Hrun; discriminate].
  assert (Hb : b = true) by (vm_compute in Hrun; congruence). subst b.
  exists st. split; [reflexivity|].
  destruct (target_seen_needs_detection E 20 World.yapf n (World.arriving 0) true st Hrun)
    as (_ & H2 & H3 & _).
  - vm_compute in Hrun. injection Hrun as <-. reflexivity.
  - split; assumption.
Defined.

(** ** Safe tiles and the first red two-way signal *)

Lemma loop_tail_no_safe_tile (E : Env) (pc : Z) (st : L.Locals) :
  DoTrackMasking E = false ->
  ESR.Test (Seg.end_segment_reason (segment (L.n st))) SafeTile = false ->
  match loop_tail E pc st with
  | Break s | Continue s => ESR.Test (L.end_segment_reason s) SafeTile = false
  end.
Proof.
  intros Hmask Hseg. unfold loop_tail.
  destruct (tile_costs_frame E st) as (Hn1 & _ & _ & _ & _ & _ & _ & Hr1).
  destruct (target_reasons_frame E (tile_costs E st))
    as (_ & _ & _ & _ & _ & _ & _ & Hr2 & _).
  destruct (speed_penalties_frame E (target_reasons E (tile_costs E st)))
    as (_ & _ & _ & _ & _ & _ & Hr3 & _).
  assert (Hr : ESR.Test (L.end_segment_reason
                 (max_cost_check pc (speed_penalties E (target_reasons E (tile_costs E st)))))
                 SafeTile = false).
  { unfold max_cost_check. break_match; simpl;
      try (rewrite Test_Set_other by discriminate);
      rewrite Hr3, (Hr2 Hmask), Hr1;
      destruct Hn1 as (_ & _ & _ & _ & _ & _ & _ & _ & _ & _ & Hre);
      rewrite (Hre SafeTile) by discriminate; exact Hseg. }
  pose proof (advance_frame E
                (max_cost_check pc (speed_penalties E (target_reasons E (tile_costs E st)))))
    as Ha.
  destruct (advance E _) as [s|s]; destruct Ha as (_ & _ & _ & _ & _ & _ & _ & Hp);
    rewrite (Hp Hmask); exact Hr.
Qed.

Lemma walk_no_safe_tile (E : Env) (pc : Z) (ic : bool) (fuel : nat) (st f : L.Locals) :
  DoTrackMasking E = false ->
  ESR.Test (Seg.end_segment_reason (segment (L.n st))) SafeTile = false ->
  walk E pc ic fuel st = Some f ->
  ESR.Test (L.end_segment_reason f) SafeTile = false.
Proof.
  intros Hmask. revert st. induction fuel as [|fuel IH]; intros st Hseg Hw; [discriminate|].
  simpl in Hw. pose proof (loop_tail_no_safe_tile E pc st Hmask Hseg) as Ht.
  pose proof (loop_tail_frame E pc st) as Hf.
  destruct (loop_tail E pc st) as [s|s].
  - injection Hw as <-. exact Ht.
  - destruct Hf as (Hn & _).
    assert (Hseg' : ESR.Test (Seg.end_segment_reason (segment (L.n s))) SafeTile = false).
    { destruct Hn as (_ & _ & _ & _ & _ & _ & _ & _ & _ & _ & Hre).
      rewrite (Hre SafeTile) by discriminate. exact Hseg. }
    pose proof (loop_head_frame E ic s) as Hh.
    destruct (loop_head E ic s) as [s'|s'].
    + injection Hw as <-. destruct Hh as (_ & _ & _ & _ & Hr). rewrite Hr. exact Hseg'.
    + destruct Hh as (Hn' & _). apply (IH s'); [|exact Hw].
      rewrite Hn'. exact Hseg'.
Qed.

(** X12: without track masking the [SafeTile] reason is never raised:
    neither the walk nor the segment of a node ends up with it. *)
Theorem no_safe_tile_without_track_masking
    (E : Env) (fuel : nat) (Y : Yapf) (n : Node) (tf : TrackFollower)
    (b : bool) (st : L.Locals) :
  DoTrackMasking E = false ->
  ESR.Test (Seg.end_segment_reason (segment n)) SafeTile = false ->
  PfCalcCost E fuel Y n tf = Some (b, st) ->
  ESR.Test (L.end_segment_reason st) SafeTile = false
  /\ ESR.Test (Seg.end_segment_reason (segment (L.n st))) SafeTile = false.
Proof.
  intros Hmask Hseg Hrun.
  destruct (PfCalcCost_loop_frame E fuel Y n tf b st Hrun) as (s & Hfin & Hn & _ & _ & Hw).
  destruct (finish_keeps E (parent_cost_of n) (0 <=? Seg.cost (segment n)) s)
    as (_ & Hr & _).
  rewrite Hfin in Hr. simpl in Hr. rewrite Hr.
  assert (Hrs : ESR.Test (L.end_segment_reason s) SafeTile = false).
  { pose proof (PfCalcCost_enter_frame E Y n tf) as He.
    destruct (PfCalcCost_enter E Y n tf) as [s0|s0].
    - subst s0. destruct He as (_ & _ & _ & _ & Hre). rewrite Hre. exact Hseg.
    - destruct He as (Hn0 & _).
      apply (walk_no_safe_tile E (parent_cost_of n) (0 <=? Seg.cost (segment n)) fuel s0 s
               Hmask); [|exact Hw].
      rewrite Hn0. exact Hseg. }
  split; [exact Hrs|].
  destruct Hn as (_ & _ & _ & _ & _ & _ & _ & _ & _ & _ & Hre).
  assert (Hs : ESR.Test (Seg.end_segment_reason (segment (L.n s))) SafeTile = false).
  { rewrite (Hre SafeTile) by discriminate. exact Hseg. }
  pose proof (finish_segment_reason E (parent_cost_of n) (0 <=? Seg.cost (segment n)) s
                SafeTile Hrs Hs) as Hf.
  rewrite Hfin in Hf. exact Hf.
Qed.

Lemma no_safe_tile_without_track_masking_witness :
  let E := World.signalled true false SIGNAL_STATE_RED SIGTYPE_BLOCK in
  let n := World.node E 0 None 0 false in
  exists b st, PfCalcCost E 20 World.yapf n (World.arriving 0) = Some (b, st)
               /\ ESR.Test (L.end_segment_reason st) SafeTile = false
               /\ ESR.Test (Seg.end_segment_reason (segment (L.n st))) SafeTile = false.
Proof.
  intros E n.
  destruct (PfCalcCost E 20 World.yapf n (World.arriving 0)) as [[b st]|] eqn:Hrun;
    [|vm_compute in Hrun; discriminate].
  exists b, st. split; [reflexivity|].
  apply (no_safe_tile_without_track_masking E 20 World.yapf n (World.arriving 0) b st);
    [reflexivity | reflexivity | exact Hrun].
Defined.

(** X13: [SignalCost] is negative only when it aborts at a first red two-way
    signal: a red non-path signal along, a signal against, the policy on, a
    choice seen and no signal passed yet.  The cost is -1 then, the segment is
    marked [DeadEnd], the branch of the node is pruned and the stop is
    recorded. *)
Theorem SignalCost_negative_only_at_first_red_two_way
    (E : Env) (Y : Yapf) (n : Node) (t : TileIndex) (d : Trackdir) :
  valid_settings (PfGetSettings Y) ->
  fst (fst (SignalCost E Y n t d)) < 0 ->
  (IsTileType E t MP_RAILWAY = true
   /\ HasSignalOnTrackdir E t d = true
   /\ HasSignalOnTrackdir E t (ReverseTrackdir E d) = true
   /\ GetSignalStateByTrackdir E t d = SIGNAL_STATE_RED
   /\ IsPbsSignal (GetSignalType E t (TrackdirToTrack E d)) = false
   /\ TreatFirstRedTwoWaySignalAsEOL Y = true
   /\ choice_seen n = true
   /\ num_signals_passed n = 0%nat)
  /\ fst (fst (SignalCost E Y n t d)) = -1
  /\ ESR.Test (Seg.end_segment_reason (segment (snd (fst (SignalCost E Y n t d))))) DeadEnd
     = true
  /\ stopped_on_first_two_way_signal (snd (SignalCost E Y n t d)) = true
  /\ pruned_branches (snd (SignalCost E Y n t d))
     = (key_tile n, key_td n) :: pruned_branches Y.
Proof.
  intros Hv. settings_bounds Hv. unfold SignalCost, SignalCost_along.
  destruct (GetSignalType E t (TrackdirToTrack E d)) eqn:Hty;
  destruct (GetSignalStateByTrackdir E t d) eqn:Hst;
  repeat break_match; simpl in *; intros Hneg;
    repeat match goal with
           | H : (_ <? _) = true |- _ => apply Z.ltb_lt in H
           | H : (_ <? _) = false |- _ => apply Z.ltb_ge in H
           end; try discriminate; try lia;
    repeat match goal with
           | H : _ && _ = true |- _ => apply andb_prop in H; destruct H
           end;
    repeat match goal with
           | H : (_ =? _)%nat = true |- _ => apply Nat.eqb_eq in H
           end;
    repeat split; try reflexivity; try assumption; try apply Test_Set_same.
Qed.

Lemma SignalCost_negative_only_at_first_red_two_way_witness :
  let E := World.signalled true true SIGNAL_STATE_RED SIGTYPE_BLOCK in
  let Y := SetTreatFirstRedTwoWaySignalAsEOL World.yapf true in
  let n := World.node E 0 None 0 true in
  fst (fst (SignalCost E Y n 3 8)) = -1
  /\ choice_seen n = true
  /\ pruned_branches (snd (SignalCost E Y n 3 8)) = [(0, 8)].
Proof.
  intros E Y n.
  destruct (SignalCost_negative_only_at_first_red_two_way E Y n 3 8)
    as ((_ & _ & _ & _ & _ & _ & Hc & _) & Hm & _ & _ & Hp).
  - apply default_settings_valid.
  - vm_compute. reflexivity.
  - split; [exact Hm|]. split; [exact Hc | exact Hp].
Defined.

(** ** Cached segments, signals, reservations and the look-ahead table *)

Lemma PfCalcCost_enter_cached_node
    (E : Env) (Y : Yapf) (n p : Node) (tf : TrackFollower) :
  parent n = Some p -> 0 <= Seg.cost (segment n) ->
  exists s, PfCalcCost_enter E Y n tf = Break s
            /\ L.Y s = Y /\ L.tf s = tf
            /\ segment (L.n s) = segment n
            /\ num_signals_passed (L.n s) = num_signals_passed n
            /\ last_signal_type (L.n s) = last_signal_type n
            /\ last_signal_was_red (L.n s)
               = (if Seg.last_signal_tile (segment n) =? INVALID_TILE E
                  then last_signal_was_red n
                  else is_red (GetSignalStateByTrackdir E
                                 (Seg.last_signal_tile (segment n))
                                 (Seg.last_signal_td (segment n))))
            /\ last_red_signal_type (L.n s)
               = (if (Seg.last_signal_tile (segment n) =? INVALID_TILE E)
                     || negb (is_red (GetSignalStateByTrackdir E
                                        (Seg.last_signal_tile (segment n))
                                        (Seg.last_signal_td (segment n))))
                  then last_red_signal_type n
                  else GetSignalType E (Seg.last_signal_tile (segment n))
                         (TrackdirToTrack E (Seg.last_signal_td (segment n)))).
Proof.
  intros Hp Hc. unfold PfCalcCost_enter. rewrite Hp.
  assert (Hic : (0 <=? Seg.cost (segment n)) = true) by (apply Z.leb_le; exact Hc).
  rewrite Hic. unfold loop_head, PfCalcCost_init. rewrite Hp. simpl.
  eexists. split; [reflexivity|]. simpl.
  destruct (Seg.last_signal_tile (segment n) =? INVALID_TILE E); simpl;
    [repeat split; reflexivity|].
  destruct (is_red (GetSignalStateByTrackdir E (Seg.last_signal_tile (segment n))
                      (Seg.last_signal_td (segment n)))); simpl;
    repeat split; reflexivity.
Qed.

(** X14: for a node with a parent whose segment is computed, [PfCalcCost]
    returns without walking (any [fuel], also none), takes the segment cost
    and the last tile from the segment and leaves the segment, the signal
    count of the node and the pathfinder object as they are. *)
Theorem cached_segment_is_not_recomputed
    (E : Env) (fuel : nat) (Y : Yapf) (n p : Node) (tf : TrackFollower) :
  parent n = Some p -> 0 <= Seg.cost (segment n) ->
  exists b st,
    PfCalcCost E fuel Y n tf = Some (b, st)
    /\ segment (L.n st) = segment n
    /\ L.Y st = Y
    /\ num_signals_passed (L.n st) = num_signals_passed n
    /\ L.segment_cost st = Seg.cost (segment n)
    /\ tile (L.cur st) = GetLastTile n /\ td (L.cur st) = GetLastTrackdir n.
Proof.
  intros Hp Hc.
  destruct (PfCalcCost_enter_cached_node E Y n p tf Hp Hc)
    as (s & Hs & HY & _ & Hseg & Hsig & _).
  destruct (PfCalcCost_enter_cached E Y n p tf Hp Hc)
    as (s' & Hs' & Hsc & _ & _ & _ & Hct & Hcd & _).
  assert (s' = s) by congruence. subst s'.
  assert (Hic : (0 <=? Seg.cost (segment n)) = true) by (apply Z.leb_le; exact Hc).
  unfold PfCalcCost. rewrite Hs, Hic.
  destruct (finish E (parent_cost_of n) true s) as [b st] eqn:Hfin.
  exists b, st. split; [reflexivity|].
  destruct (finish_frame E (parent_cost_of n) true s)
    as (_ & _ & _ & _ & Fsig & _ & _ & Fcur & _ & Fseg).
  destruct (finish_keeps E (parent_cost_of n) true s) as (Fsc & _ & _ & FY).
  rewrite Hfin in Fsig, Fcur, Fseg, Fsc, FY. simpl in Fsig, Fcur, Fseg, Fsc, FY.
  rewrite (Fseg eq_refl), FY, Fsig, Fsc, Fcur.
  repeat split; assumption.
Qed.

Lemma cached_segment_is_not_recomputed_witness :
  let E := World.env World.junction_row in
  let p := World.parent_at E 0 5000 10 in
  let n := ConnectNodeToCachedData (World.node E 1 (Some p) 10 true)
             World.cached_to_junction in
  exists b st,
    PfCalcCost E 0 World.yapf n (World.arriving 1) = Some (b, st)
    /\ segment (L.n st) = World.cached_to_junction
    /\ L.Y st = World.yapf
    /\ num_signals_passed (L.n st) = 10%nat
    /\ L.segment_cost st = 400
    /\ tile (L.cur st) = 4.
Proof.
  intros E p n.
  destruct (cached_segment_is_not_recomputed E 0 World.yapf n p (World.arriving 1))
    as (b & st & Hrun & Hseg & HY & Hsig & Hsc & Hct & _).
  - reflexivity.
  - vm_compute. discriminate.
  - exists b, st. split; [exact Hrun|]. repeat split; assumption.
Defined.

(** X15: on a cached segment [PfCalcCost] reads the state of the last signal
    of the segment again: [last_signal_was_red] follows that state, the type
    of a red one is recorded, and without a signal on the segment both fields
    stay. *)
Theorem cached_segment_rereads_last_signal
    (E : Env) (fuel : nat) (Y : Yapf) (n p : Node) (tf : TrackFollower)
    (b : bool) (st : L.Locals) :
  parent n = Some p -> 0 <= Seg.cost (segment n) ->
  PfCalcCost E fuel Y n tf = Some (b, st) ->
  let signal_tile := Seg.last_signal_tile (segment n) in
  let signal_td := Seg.last_signal_td (segment n) in
  (signal_tile <> INVALID_TILE E ->
   last_signal_was_red (L.n st) = is_red (GetSignalStateByTrackdir E signal_tile signal_td)
   /\ (GetSignalStateByTrackdir E signal_tile signal_td = SIGNAL_STATE_RED ->
       last_red_signal_type (L.n st)
       = GetSignalType E signal_tile (TrackdirToTrack E signal_td))
   /\ (GetSignalStateByTrackdir E signal_tile signal_td = SIGNAL_STATE_GREEN ->
       last_red_signal_type (L.n st) = last_red_signal_type n))
  /\ (signal_tile = INVALID_TILE E ->
      last_signal_was_red (L.n st) = last_signal_was_red n
      /\ last_red_signal_type (L.n st) = last_red_signal_type n).
Proof.
  intros Hp Hc Hrun signal_tile signal_td.
  destruct (PfCalcCost_enter_cached_node E Y n p tf Hp Hc)
    as (s & Hs & _ & _ & _ & _ & _ & Hred & Hty).
  destruct (PfCalcCost_finish E fuel Y n tf b st Hrun) as (s' & Hfin & Hw).
  rewrite Hs in Hw. subst s'.
  destruct (finish_frame E (parent_cost_of n) (0 <=? Seg.cost (segment n)) s)
    as (_ & _ & _ & _ & _ & Fred & Fty & _).
  rewrite Hfin in Fred, Fty. simpl in Fred, Fty. rewrite Fred, Fty, Hred, Hty.
  fold signal_tile signal_td. split.
  - intros Hne. apply Z.eqb_neq in Hne. rewrite Hne. simpl.
    split; [reflexivity|]. split; intros Hstate; rewrite Hstate; reflexivity.
  - intros Heq. apply Z.eqb_eq in Heq. rewrite Heq. simpl. split; reflexivity.
Qed.

Lemma cached_segment_rereads_last_signal_witness :
  let E := World.signalled true false SIGNAL_STATE_RED SIGTYPE_EXIT in
  let p := World.parent_at E 0 0 10 in
  let ci := Seg.mk 900 9 World.TRACKDIR_X_SW 3 World.TRACKDIR_X_SW
              (ESR.of_list [DeadEnd]) in
  let n := ConnectNodeToCachedData (World.node E 1 (Some p) 10 true) ci in
  exists b st,
    PfCalcCost E 0 World.yapf n (World.arriving 1) = Some (b, st)
    /\ last_signal_was_red n = false
    /\ last_signal_was_red (L.n st) = true
    /\ last_red_signal_type (L.n st) = SIGTYPE_EXIT.
Proof.
  intros E p ci n.
  destruct (PfCalcCost E 0 World.yapf n (World.arriving 1)) as [[b st]|] eqn:Hrun;
    [|vm_compute in Hrun; discriminate].
  exists b, st. split; [reflexivity|]. split; [reflexivity|].
  destruct (cached_segment_rereads_last_signal E 0 World.yapf n p (World.arriving 1) b st)
    as (Hsig & _).
  - reflexivity.
  - vm_compute. discriminate.
  - exact Hrun.
  - destruct Hsig as (Hred & Hty & _).
    + vm_compute. discriminate.
    + split; [exact Hred | apply Hty; reflexivity].
Defined.



Lemma station_tiles_reserved_spec (E : Env) (count : nat) (tile : TileIndex) (diff : Z) :
  station_tiles_reserved E count tile diff = true <->
  exists i, (i < count)%nat /\ HasStationReservation E (tile + Z.of_nat i * diff) = true.
Proof.
  revert tile. induction count as [|c IH]; intros tile; simpl.
  - split; [discriminate | intros (i & Hi & _); lia].
  - destruct (HasStationReservation E tile) eqn:Hres.
    + split; [intros _|reflexivity].
      exists 0%nat. split; [lia|]. rewrite Z.add_0_r. exact Hres.
    + rewrite IH. split.
      * intros (i & Hi & Hr). exists (S i). split; [lia|].
        replace (tile + Z.of_nat (S i) * diff) with (tile + diff + Z.of_nat i * diff) by lia.
        exact Hr.
      * intros (i & Hi & Hr). destruct i as [|i].
        -- rewrite Z.add_0_r in Hr. congruence.
        -- exists i. split; [lia|].
           replace (tile + diff + Z.of_nat i * diff) with (tile + Z.of_nat (S i) * diff) by lia.
           exact Hr.
Qed.

(** X17: [IsAnyStationTileReserved] holds exactly when one of the
    [skipped + 1] tiles from [tile] backwards (against the trackdir) has a
    station reservation; for a negative [skipped] it is false. *)
Theorem IsAnyStationTileReserved_scans_platform
    (E : Env) (tile : TileIndex) (trackdir : Trackdir) (skipped : Z) :
  let diff := TileOffsByDiagDir E (TrackdirToExitdir E (ReverseTrackdir E trackdir)) in
  IsAnyStationTileReserved E tile trackdir skipped = true <->
  exists k, 0 <= k <= skipped /\ HasStationReservation E (tile + k * diff) = true.
Proof.
  intros diff. unfold IsAnyStationTileReserved. fold diff.
  rewrite station_tiles_reserved_spec. split.
  - intros (i & Hi & Hr). exists (Z.of_nat i). split; [lia | exact Hr].
  - intros (k & Hk & Hr). exists (Z.to_nat k). split; [lia|].
    rewrite Z2Nat.id by lia. exact Hr.
Qed.

(** X18: with settings inside their ranges the constructor fills the
    look-ahead table with [rail_look_ahead_max_signals] entries, and up to
    position 45 the 32-bit computation does not wrap: the entry is
    [p0 + i * (p1 + i * p2)]. *)
Theorem look_ahead_table_exact (s : YAPFSettings) (i : nat) :
  valid_settings s ->
  (i < 46)%nat ->
  Z.of_nat i < rail_look_ahead_max_signals s ->
  length (sig_look_ahead_costs (CYapfCostRailT s))
  = Z.to_nat (rail_look_ahead_max_signals s)
  /\ nth i (sig_look_ahead_costs (CYapfCostRailT s)) 0 = look_ahead_polynomial s i.
Proof.
  intros Hv Hi Hmax. split; [apply fill_look_ahead_length|].
  unfold CYapfCostRailT. cbn [sig_look_ahead_costs].
  rewrite fill_look_ahead_nth by lia. rewrite Nat.add_0_l.
  fold (look_ahead_entry s i). apply look_ahead_entry_exact.
  apply look_ahead_polynomial_fits; [exact Hv | lia].
Qed.

Lemma look_ahead_table_exact_witness :
  nth 3 (sig_look_ahead_costs (CYapfCostRailT World.default_settings)) 0
  = 500 + 3 * (-100 + 3 * 5).
Proof.
  destruct (look_ahead_table_exact World.default_settings 3) as (_ & H).
  - apply default_settings_valid.
  - lia.
  - simpl. lia.
  - exact H.
Defined.

(** Position 46 is the first one that coefficients inside their ranges can
    make wrap. *)
Remark look_ahead_table_wraps_at_46 :
  let s := World.steep_look_ahead 1000000 in
  valid_settings s
  /\ look_ahead_polynomial s 46 = 2163000000
  /\ nth 46 (sig_look_ahead_costs (CYapfCostRailT s)) 0 = 2163000000 - 2 ^ 32.
Proof.
  split; [apply steep_look_ahead_valid; lia|]. vm_compute. split; reflexivity.
Qed.

(** X19: for a node that passed [rail_look_ahead_max_signals] signals or
    more, [SignalCost] is 0 on every tile, leaves the pathfinder object alone,
    and [ReservationCost] is 0 as well. *)
Theorem beyond_look_ahead_signals_cost_nothing
    (E : Env) (Y : Yapf) (n : Node) (t : TileIndex) (d : Trackdir) (skipped : Z) :
  constructed Y ->
  1 <= rail_look_ahead_max_signals (PfGetSettings Y) ->
  rail_look_ahead_max_signals (PfGetSettings Y) <= Z.of_nat (num_signals_passed n) ->
  fst (fst (SignalCost E Y n t d)) = 0
  /\ snd (SignalCost E Y n t d) = Y
  /\ ReservationCost E Y (snd (fst (SignalCost E Y n t d))) t d skipped = 0.
Proof.
  intros HY Hmax Hn.
  pose proof (constructed_length Y HY) as Hlen.
  assert (Hgate : (length (sig_look_ahead_costs Y) <= num_signals_passed n)%nat) by lia.
  destruct (SignalCost_beyond_look_ahead E Y n t d HY Hmax Hgate)
    as (n' & Hsc & Hle & _).
  rewrite Hsc. simpl. repeat split.
  apply ReservationCost_beyond_look_ahead. lia.
Qed.

Lemma beyond_look_ahead_signals_cost_nothing_witness :
  let E := World.signalled true true SIGNAL_STATE_RED SIGTYPE_PBS in
  let n := World.node E 0 None 10 true in
  fst (fst (SignalCost E World.yapf n 3 8)) = 0
  /\ snd (SignalCost E World.yapf n 3 8) = World.yapf
  /\ ReservationCost E World.yapf (snd (fst (SignalCost E World.yapf n 3 8))) 3 8 0 = 0.
Proof.
  intros E n.
  apply (beyond_look_ahead_signals_cost_nothing E World.yapf n 3 8 0).
  - reflexivity.
  - simpl. lia.
  - simpl. lia.
Defined.
